(** * AutoConnect2: credential store, validators and connection orchestrator

    A shallow embedding of the enhanced AutoConnect sources
    ([AutoConnectError.h], [AutoConnectRAII.h],
    [AutoConnectAdvancedConfig.h], [AutoConnectCredentialEnhanced.h],
    [AutoConnectCoreEnhanced.hpp]) together with the properties the
    specification states about them.

    Conventions.
    - An Arduino [String] is a [string]; [length()] is [String.length].
    - [uint8_t], [uint32_t] and [unsigned long] values are integers in [Z];
      every C++ operation that can wrap has its reduction written out
      ([wrap8], [wrap32]).
      [unsigned long] has 32 bits on the ESP8266 and ESP32 targets of the
      library.
    - [size_t] quantities that count the elements of a container or the bytes
      of a buffer are [nat].
    - A [std::vector] is a [list]; iterators are indices.
    - A method that changes its object takes the object and returns the new
      one next to its result; a [const] method returns its result only. The
      mutex of the store serializes whole calls, so a call is one step.
    - Debug output ([AC_DBG]) is left out. *)

From Stdlib Require Import ZArith String Ascii List Bool Lia Sorted.
From stdpp Require Import base decidable option list strings.
Import ListNotations.

Local Open Scope string_scope.
Local Open Scope list_scope.
Local Open Scope Z_scope.

(** ** Machine integers *)

Definition wrap8 (x : Z) : Z := x mod 2 ^ 8.
Definition wrap32 (x : Z) : Z := x mod 2 ^ 32.

(** ** Text helpers of the Arduino runtime *)

(** The NUL character that ends a C string. *)
Definition NUL : ascii := Ascii.zero.

(** [String(const char* p)]: the characters of [p] up to, not including, the
    first NUL. *)
Fixpoint cstr (s : string) : string :=
  match s with
  | EmptyString => EmptyString
  | String c r => if Ascii.eqb c NUL then EmptyString else String c (cstr r)
  end.

(** [strcmp(a, b) == 0] on two NUL-terminated buffers. *)
Definition strcmp_eq (a b : string) : bool := String.eqb (cstr a) (cstr b).

Definition digit_char (d : Z) : ascii := ascii_of_nat (48 + Z.to_nat d).

(** Decimal digits of [n], most significant first, at most [fuel] of them. *)
Fixpoint utoa_digits (fuel : nat) (n : Z) (acc : string) : string :=
  match fuel with
  | O => acc
  | S f =>
      let acc' := String (digit_char (n mod 10)) acc in
      if n / 10 =? 0 then acc' else utoa_digits f (n / 10) acc'
  end.

(** [%u] of a 32-bit unsigned value, and [String(unsigned)]: a 32-bit value
    has at most ten decimal digits. *)
Definition utoa32 (n : Z) : string := utoa_digits 10 (wrap32 n) "".

(** [String(uint8_t)]. *)
Definition utoa8 (n : Z) : string := utoa_digits 3 (wrap8 n) "".

(** [vsnprintf(buffer, 256, ...)] keeps at most 255 characters. *)
Fixpoint truncate (n : nat) (s : string) : string :=
  match n, s with
  | O, _ => EmptyString
  | _, EmptyString => EmptyString
  | S k, String c r => String c (truncate k r)
  end.

(** [String::replace(find, replace)]: every occurrence of [find], scanning
    from the left, is replaced; an empty [find] changes nothing. [skip] counts
    the characters of a match that are still to be dropped. *)
Fixpoint replace_from (find repl : string) (skip : nat) (s : string) : string :=
  match s with
  | EmptyString => EmptyString
  | String c r =>
      match skip with
      | S k => replace_from find repl k r
      | O =>
          if String.prefix find s
          then repl +:+ replace_from find repl (String.length find - 1) r
          else String c (replace_from find repl 0 r)
      end
  end.

Definition replace (find repl : string) (s : string) : string :=
  if (String.length find =? 0)%nat then s else replace_from find repl 0 s.

(** The one-character text of a double quote. *)
Definition DQ : string := String "034"%char EmptyString.

(** ** AutoConnectError.h *)

Inductive ACError : Type :=
| SUCCESS
| WIFI_CONNECT_FAILED
| WIFI_TIMEOUT
| WIFI_CREDENTIALS_INVALID
| JSON_PARSE_ERROR
| JSON_BUFFER_OVERFLOW
| FILESYSTEM_ERROR
| FILESYSTEM_NOT_MOUNTED
| FILE_NOT_FOUND
| FILE_READ_ERROR
| FILE_WRITE_ERROR
| MEMORY_ALLOCATION_FAILED
| MEMORY_INSUFFICIENT
| TIMEOUT_EXCEEDED
| INVALID_PARAMETER
| INVALID_STATE
| PORTAL_START_FAILED
| WEBSERVER_ERROR
| DNS_SERVER_ERROR
| CREDENTIAL_STORE_ERROR
| CREDENTIAL_LOAD_ERROR
| UNKNOWN_ERROR.

#[global] Instance ACError_eq_dec : EqDecision ACError.
Proof. solve_decision. Defined.

Record ACResult : Type := mkACResult { error : ACError; message : string }.

(** [ACResult(err)] with the default, empty message. *)
Definition ACResult_of (e : ACError) : ACResult := mkACResult e "".

(** [explicit operator bool] and [isSuccess]. *)
Definition isSuccess (r : ACResult) : bool := bool_decide (error r = SUCCESS).
Definition isError (r : ACResult) : bool := negb (isSuccess r).

(** ** AutoConnectRAII.h: InputSanitizer *)

Module InputSanitizer.

Definition sanitizeHTML (input : string) : string :=
  let clean := input in
  let clean := replace "&" "&amp;" clean in
  let clean := replace "<" "&lt;" clean in
  let clean := replace ">" "&gt;" clean in
  let clean := replace DQ "&quot;" clean in
  let clean := replace "'" "&#x27;" clean in
  clean.

Definition isValidSSID (ssid : string) : bool :=
  (0 <? String.length ssid)%nat && (String.length ssid <=? 32)%nat.

Definition isValidPassword (password : string) : bool :=
  (String.length password =? 0)%nat
  || ((8 <=? String.length password)%nat && (String.length password <=? 63)%nat).

Definition isalnum (c : ascii) : bool :=
  let n := nat_of_ascii c in
  ((48 <=? n) && (n <=? 57) || (65 <=? n) && (n <=? 90) || (97 <=? n) && (n <=? 122))%nat.

Definition hyphen : ascii := ascii_of_nat 45.

Fixpoint all_hostname_chars (s : string) : bool :=
  match s with
  | EmptyString => true
  | String c r =>
      if negb (isalnum c) && negb (Ascii.eqb c hyphen) then false
      else all_hostname_chars r
  end.

Definition first_char (s : string) : ascii :=
  match s with EmptyString => NUL | String c _ => c end.

Fixpoint last_char (s : string) : ascii :=
  match s with
  | EmptyString => NUL
  | String c EmptyString => c
  | String _ r => last_char r
  end.

Definition isValidHostname (hostname : string) : bool :=
  if (String.length hostname =? 0)%nat || (63 <? String.length hostname)%nat then false
  else if negb (all_hostname_chars hostname) then false
  else negb (Ascii.eqb (first_char hostname) hyphen)
       && negb (Ascii.eqb (last_char hostname) hyphen).

End InputSanitizer.

(** ** AutoConnectRAII.h: TimeoutHelper

    [millis()] is read from the caller's clock and passed as [now]. *)

Record TimeoutHelper : Type := mkTimeoutHelper { _startTime : Z; _timeout : Z }.

Module Timeout.

(** [TimeoutHelper(timeoutMs)] constructed while the clock shows [now]. *)
Definition make (timeoutMs now : Z) : TimeoutHelper :=
  mkTimeoutHelper now timeoutMs.

Definition elapsed (t : TimeoutHelper) (now : Z) : Z :=
  wrap32 (now - _startTime t).

Definition isExpired (t : TimeoutHelper) (now : Z) : bool :=
  _timeout t <=? wrap32 (now - _startTime t).

Definition remaining (t : TimeoutHelper) (now : Z) : Z :=
  let elapsed := elapsed t now in
  if _timeout t <=? elapsed then 0 else wrap32 (_timeout t - elapsed).

Definition restart (t : TimeoutHelper) (now : Z) : TimeoutHelper :=
  mkTimeoutHelper now (_timeout t).

End Timeout.

(** ** AutoConnectRAII.h: SecureString

    [_data] is the heap buffer of [_capacity] bytes, NUL bytes included. *)

Record SecureString : Type := mkSecureString {
  _data : string;
  _capacity : nat;
  _length : nat
}.

(** A buffer of [n] NUL bytes. *)
Fixpoint zeros (n : nat) : string :=
  match n with
  | O => EmptyString
  | S k => String NUL (zeros k)
  end.

(** [memset(dest, 0, n)]: the first [n] bytes of [dest] become NUL. *)
Fixpoint memset0 (dest : string) (n : nat) {struct n} : string :=
  match n, dest with
  | S k, String _ d => String NUL (memset0 d k)
  | _, _ => dest
  end.

(** [strncpy(dest, src, n)]: exactly [n] bytes of [dest] are written; the
    characters of [src] up to its terminator, then NUL padding. *)
Fixpoint strncpy (dest src : string) (n : nat) {struct n} : string :=
  match n, dest with
  | S k, String _ d =>
      match src with
      | EmptyString => String NUL (strncpy d EmptyString k)
      | String c r =>
          if Ascii.eqb c NUL then String NUL (strncpy d EmptyString k)
          else String c (strncpy d r k)
      end
  | _, _ => dest
  end.

Module Secure.

(** [SecureString(capacity)]: a fresh buffer, zeroed. *)
Definition make (capacity : nat) : SecureString :=
  mkSecureString (memset0 (zeros capacity) capacity) capacity 0.

Definition set (str : string) (s : SecureString) : bool * SecureString :=
  if (_capacity s <=? String.length str)%nat then (false, s)
  else
    let d := memset0 (_data s) (_capacity s) in
    let d := strncpy d str (String.length str) in
    (true, mkSecureString d (_capacity s) (String.length str)).

(** [c_str()] hands out the buffer; read as a C string it ends at the
    first NUL. *)
Definition c_str (s : SecureString) : string := cstr (_data s).

Definition length (s : SecureString) : nat := _length s.

Definition isEmpty (s : SecureString) : bool := (_length s =? 0)%nat.

Definition clear (s : SecureString) : SecureString :=
  mkSecureString (memset0 (_data s) (_capacity s)) (_capacity s) 0.

(** The two mutators a holder of a [SecureString] can call. *)
Inductive op : Type :=
| Set_ (str : string)
| Clear.

Definition step (s : SecureString) (o : op) : SecureString :=
  match o with
  | Set_ str => snd (set str s)
  | Clear => clear s
  end.

Definition run (ops : list op) (s : SecureString) : SecureString :=
  fold_left step ops s.

End Secure.

(** ** AutoConnectCredentialEnhanced.h: EnhancedCredential

    [IPAddress] comes from the Arduino core: it is represented by its 32-bit
    value, and [isSet()] means "not 0.0.0.0". *)

Definition IPAddress : Type := Z.
Definition isSet (ip : IPAddress) : bool := negb (ip =? 0).

Record EnhancedCredential : Type := mkEnhancedCredential {
  ssid : SecureString;
  password : SecureString;
  bssid : list Z;
  staticIP : IPAddress;
  gateway : IPAddress;
  subnet : IPAddress;
  dns1 : IPAddress;
  dns2 : IPAddress;
  useStatic : bool;
  timestamp : Z;
  connectionCount : Z;
  lastRSSI : Z
}.

Module Credential.

(** [EnhancedCredential()]. *)
Definition make : EnhancedCredential :=
  mkEnhancedCredential (Secure.make 33) (Secure.make 64)
    (repeat 0 6) 0 0 0 0 0 false 0 0 (-120).

Definition validate (c : EnhancedCredential) : ACResult :=
  if Secure.isEmpty (ssid c) then
    mkACResult INVALID_PARAMETER "SSID cannot be empty"
  else if (32 <? Secure.length (ssid c))%nat then
    mkACResult INVALID_PARAMETER "SSID too long"
  else if (0 <? Secure.length (password c))%nat
          && (Secure.length (password c) <? 8)%nat then
    mkACResult INVALID_PARAMETER "Password too short"
  else if (63 <? Secure.length (password c))%nat then
    mkACResult INVALID_PARAMETER "Password too long"
  else ACResult_of SUCCESS.

(** [updateStats(rssi)] when [millis()] returns [now]. *)
Definition updateStats (now rssi : Z) (c : EnhancedCredential) : EnhancedCredential :=
  mkEnhancedCredential (ssid c) (password c) (bssid c)
    (staticIP c) (gateway c) (subnet c) (dns1 c) (dns2 c) (useStatic c)
    (wrap32 now) (wrap32 (connectionCount c + 1)) rssi.

Definition with_ssid (s : SecureString) (c : EnhancedCredential) : EnhancedCredential :=
  mkEnhancedCredential s (password c) (bssid c)
    (staticIP c) (gateway c) (subnet c) (dns1 c) (dns2 c) (useStatic c)
    (timestamp c) (connectionCount c) (lastRSSI c).

Definition with_password (p : SecureString) (c : EnhancedCredential) : EnhancedCredential :=
  mkEnhancedCredential (ssid c) p (bssid c)
    (staticIP c) (gateway c) (subnet c) (dns1 c) (dns2 c) (useStatic c)
    (timestamp c) (connectionCount c) (lastRSSI c).

(** The key the store compares: the SSID buffer read as a C string. *)
Definition key (c : EnhancedCredential) : string := Secure.c_str (ssid c).

End Credential.

(** ** AutoConnectRAII.h: StringBuilder *)

Record StringBuilder : Type := mkStringBuilder {
  _parts : list string;
  _estimatedSize : nat
}.

(** The arguments the sources pass to [appendFormat]. *)
Inductive fmt_arg : Type :=
| ArgS (s : string)
| ArgU (v : Z).

(** [vsnprintf] without its size limit: [%s] prints a C string, [%u] a 32-bit
    unsigned value; a directive without a matching argument prints nothing. *)
Fixpoint vformat (fmt : string) (args : list fmt_arg) : string :=
  match fmt with
  | EmptyString => EmptyString
  | String "%" (String "s" r) =>
      match args with
      | ArgS a :: rest => cstr a +:+ vformat r rest
      | _ => vformat r args
      end
  | String "%" (String "u" r) =>
      match args with
      | ArgU v :: rest => utoa32 v +:+ vformat r rest
      | _ => vformat r args
      end
  | String c r => String c (vformat r args)
  end.

Module Builder.

(** [StringBuilder()]. *)
Definition make : StringBuilder := mkStringBuilder [] 0.

(** [append] of a non-null C string. *)
Definition append (str : string) (b : StringBuilder) : StringBuilder :=
  mkStringBuilder (_parts b ++ [cstr str])
                  (_estimatedSize b + String.length (cstr str))%nat.

(** [appendFormat]: the text is produced in a 256-byte buffer. *)
Definition appendFormat (fmt : string) (args : list fmt_arg) (b : StringBuilder)
  : StringBuilder :=
  append (truncate 255 (vformat fmt args)) b.

Definition toString (b : StringBuilder) : string :=
  fold_left (fun result part => result +:+ part) (_parts b) "".

End Builder.

(** ** AutoConnectCredentialEnhanced.h: the credential store *)

Record AutoConnectCredentialEnhanced : Type := mkStore {
  _credentials : list EnhancedCredential;
  _initialized : bool;
  _maxCredentials : nat
}.

(** [std::find_if] with the SSID comparison of the store: the index of the
    first credential whose SSID equals [name] as a C string. *)
Definition find_ssid (name : string) (l : list EnhancedCredential) : option nat :=
  fst <$> list_find (fun cred => strcmp_eq (_data (ssid cred)) name = true) l.

(** [std::min_element] over timestamps, as an index: the scan keeps the
    earliest position holding the smallest value seen so far. [best] is the
    current candidate at index [besti]; [i] is the index of the head of the
    rest. *)
Fixpoint min_element_from (besti : nat) (best : EnhancedCredential) (i : nat)
         (l : list EnhancedCredential) : nat :=
  match l with
  | [] => besti
  | x :: r =>
      if timestamp x <? timestamp best
      then min_element_from i x (S i) r
      else min_element_from besti best (S i) r
  end.

(** [None] is [end()] of an empty range. *)
Definition min_element (l : list EnhancedCredential) : option nat :=
  match l with
  | [] => None
  | x :: r => Some (min_element_from 0 x 1 r)
  end.

(** [std::sort] belongs to the C++ library. The standard fixes its result as
    a rearrangement of the range that is in the order of the comparator, and
    leaves the relative order of equivalent elements open; what calls it
    here takes the sort as a parameter [std_sort]. Two sorts that differ on
    equivalent elements follow, to run the callers with: insertion from the
    front of the range and from its end. *)
Fixpoint sort_insert (before : string -> string -> bool) (x : string)
         (l : list string) : list string :=
  match l with
  | [] => [x]
  | y :: r => if before x y then x :: y :: r else y :: sort_insert before x r
  end.

Definition insertion_sort (before : string -> string -> bool) (l : list string)
  : list string :=
  fold_left (fun acc x => sort_insert before x acc) l [].

Definition insertion_sort_back (before : string -> string -> bool) (l : list string)
  : list string :=
  fold_left (fun acc x => sort_insert before x acc) (rev l) [].

Module Store.

Definition with_credentials (l : list EnhancedCredential)
           (s : AutoConnectCredentialEnhanced) : AutoConnectCredentialEnhanced :=
  mkStore l (_initialized s) (_maxCredentials s).

(** [AutoConnectCredentialEnhanced(maxCredentials)]. *)
Definition make (maxCredentials : nat) : AutoConnectCredentialEnhanced :=
  mkStore [] false maxCredentials.

Definition _loadExistingCredentials (s : AutoConnectCredentialEnhanced) : ACResult :=
  ACResult_of SUCCESS.

Definition _saveCredentials (s : AutoConnectCredentialEnhanced) : ACResult :=
  ACResult_of SUCCESS.

Definition initialize (s : AutoConnectCredentialEnhanced)
  : ACResult * AutoConnectCredentialEnhanced :=
  if _initialized s then (mkACResult SUCCESS "Already initialized", s)
  else
    let result := _loadExistingCredentials s in
    (mkACResult SUCCESS "Credential system initialized",
     mkStore (_credentials s) true (_maxCredentials s)).

Definition not_initialized : ACResult :=
  mkACResult INVALID_STATE "Credential system not initialized".

(** [addCredential]. The result is [None] where the C++ program has no
    defined behaviour: [erase] of the [end()] iterator that [min_element]
    returns for an empty vector (only possible with capacity 0). *)
Definition addCredential (credential : EnhancedCredential)
           (s : AutoConnectCredentialEnhanced)
  : option (ACResult * AutoConnectCredentialEnhanced) :=
  let validation := Credential.validate credential in
  if negb (isSuccess validation) then Some (validation, s)
  else if negb (_initialized s) then Some (not_initialized, s)
  else
    match find_ssid (_data (ssid credential)) (_credentials s) with
    | Some it =>
        let s' := with_credentials (<[it := credential]> (_credentials s)) s in
        Some (_saveCredentials s', s')
    | None =>
        if (_maxCredentials s <=? List.length (_credentials s))%nat then
          match min_element (_credentials s) with
          | None => None
          | Some oldest =>
              let s' := with_credentials
                          (delete oldest (_credentials s) ++ [credential]) s in
              Some (_saveCredentials s', s')
          end
        else
          let s' := with_credentials (_credentials s ++ [credential]) s in
          Some (_saveCredentials s', s')
    end.

(** [addCredential] called for each credential of [l] in turn. *)
Fixpoint add_all (l : list EnhancedCredential) (s : AutoConnectCredentialEnhanced)
  : option AutoConnectCredentialEnhanced :=
  match l with
  | [] => Some s
  | c :: r =>
      match addCredential c s with
      | Some (_, s') => add_all r s'
      | None => None
      end
  end.

Definition not_found (name : string) : ACResult :=
  mkACResult CREDENTIAL_LOAD_ERROR ("Credential not found for SSID: " +:+ name).

(** [getCredential(ssid, credential)]: the second component is the value
    of the output parameter after the call. *)
Definition getCredential (name : string) (credential : EnhancedCredential)
           (s : AutoConnectCredentialEnhanced) : ACResult * EnhancedCredential :=
  if (String.length name =? 0)%nat then
    (mkACResult INVALID_PARAMETER "SSID cannot be empty", credential)
  else if negb (_initialized s) then (not_initialized, credential)
  else
    match find_ssid name (_credentials s) with
    | None => (not_found name, credential)
    | Some it =>
        match _credentials s !! it with
        | Some found => (ACResult_of SUCCESS, found)
        | None => (not_found name, credential)
        end
    end.

Definition removeCredential (name : string) (s : AutoConnectCredentialEnhanced)
  : ACResult * AutoConnectCredentialEnhanced :=
  if (String.length name =? 0)%nat then
    (mkACResult INVALID_PARAMETER "SSID cannot be empty", s)
  else if negb (_initialized s) then (not_initialized, s)
  else
    match find_ssid name (_credentials s) with
    | None => (not_found name, s)
    | Some it =>
        let s' := with_credentials (delete it (_credentials s)) s in
        (_saveCredentials s', s')
    end.

(** The timestamp comparison [getAvailableSSIDs] sorts with. *)
Definition more_recent (s : AutoConnectCredentialEnhanced) (a b : string) : bool :=
  match find_ssid a (_credentials s), find_ssid b (_credentials s) with
  | Some ia, Some ib =>
      match _credentials s !! ia, _credentials s !! ib with
      | Some credA, Some credB => timestamp credB <? timestamp credA
      | _, _ => false
      end
  | _, _ => false
  end.

Definition getAvailableSSIDs
           (std_sort : (string -> string -> bool) -> list string -> list string)
           (s : AutoConnectCredentialEnhanced) : list string :=
  let ssids := map (fun cred => cstr (_data (ssid cred))) (_credentials s) in
  std_sort (more_recent s) ssids.

Definition clearAll (s : AutoConnectCredentialEnhanced)
  : ACResult * AutoConnectCredentialEnhanced :=
  let s' := with_credentials [] s in
  (_saveCredentials s', s').

Definition getCredentialCount (s : AutoConnectCredentialEnhanced) : nat :=
  List.length (_credentials s).

Definition bool_text (b : bool) : string := if b then "true" else "false".

(** The body of the loop of [exportToJSON] for the credential at index [i]. *)
Definition export_entry (i : nat) (cred : EnhancedCredential) (json : StringBuilder)
  : StringBuilder :=
  let json := if (0 <? i)%nat then Builder.append "," json else json in
  let json := Builder.append "{" json in
  let json := Builder.appendFormat (DQ +:+ "ssid" +:+ DQ +:+ ":" +:+ DQ +:+ "%s" +:+ DQ +:+ ",")
                [ArgS (InputSanitizer.sanitizeHTML (cstr (_data (ssid cred))))] json in
  let json := Builder.appendFormat (DQ +:+ "useStatic" +:+ DQ +:+ ":%s,")
                [ArgS (bool_text (useStatic cred))] json in
  let json := Builder.appendFormat (DQ +:+ "timestamp" +:+ DQ +:+ ":%u,") [ArgU (timestamp cred)] json in
  let json := Builder.appendFormat (DQ +:+ "connectionCount" +:+ DQ +:+ ":%u")
                [ArgU (connectionCount cred)] json in
  Builder.append "}" json.

Fixpoint export_loop (i : nat) (l : list EnhancedCredential) (json : StringBuilder)
  : StringBuilder :=
  match l with
  | [] => json
  | cred :: r => export_loop (S i) r (export_entry i cred json)
  end.

(** [exportToJSON(jsonOutput)]: the result and the text left in
    [jsonOutput]. *)
Definition exportToJSON (s : AutoConnectCredentialEnhanced) : ACResult * string :=
  let json := Builder.make in
  let json := Builder.append ("{" +:+ DQ +:+ "credentials" +:+ DQ +:+ ":[") json in
  let json := export_loop 0 (_credentials s) json in
  let json := Builder.append "]}" json in
  (ACResult_of SUCCESS, Builder.toString json).

End Store.

(** ** AutoConnectAdvancedConfig.h: NetworkConfig *)

Module NetworkConfig.

Record t : Type := mk {
  ssid : string;
  password : string;
  hostname : string;
  staticIP : IPAddress;
  gateway : IPAddress;
  subnet : IPAddress;
  dns1 : IPAddress;
  dns2 : IPAddress;
  useStaticIP : bool;
  validateCertificates : bool;
  connectionTimeoutMs : Z;
  maxRetries : Z
}.

(** [NetworkConfig()]. *)
Definition make : t := mk "" "" "" 0 0 0 0 0 false false 30000 3.

Definition validate (c : t) : ACResult :=
  if negb (InputSanitizer.isValidSSID (ssid c)) then
    mkACResult INVALID_PARAMETER "Invalid SSID"
  else if negb (InputSanitizer.isValidPassword (password c)) then
    mkACResult INVALID_PARAMETER "Invalid password"
  else if negb (String.length (hostname c) =? 0)%nat
          && negb (InputSanitizer.isValidHostname (hostname c)) then
    mkACResult INVALID_PARAMETER "Invalid hostname"
  else if (connectionTimeoutMs c <? 5000) || (300000 <? connectionTimeoutMs c) then
    mkACResult INVALID_PARAMETER "Connection timeout out of range (5-300 seconds)"
  else ACResult_of SUCCESS.

End NetworkConfig.

(** ** AutoConnectCoreEnhanced.hpp: the connection orchestrator

    [Device] gathers what [AutoConnectCore<T>] and the platform keep between
    calls: the millisecond clock, the heap figures reported by [ESP], the
    host name given to the WiFi driver, a status byte, the station part of
    [_apConfig] and the memory statistics. Time passes in [delay] and inside
    the connect primitive only; the statements in between take none. *)

Record ACMemoryStats : Type := mkACMemoryStats {
  freeHeap : Z;
  minFreeHeap : Z;
  maxAllocHeap : Z;
  stats_timestamp : Z
}.

Record Device : Type := mkDevice {
  clock : Z;
  espFreeHeap : Z;
  espMinFreeHeap : Z;
  espMaxAllocHeap : Z;
  wifiHostname : string;
  _portalStatus : Z;
  hostName : string;
  staip : Z;
  staGateway : Z;
  staNetmask : Z;
  apDns1 : Z;
  apDns2 : Z;
  _memoryStats : ACMemoryStats;
  _freeHeapSize : Z
}.

(** A device together with the credential store that lives next to it. *)
Record System : Type := mkSystem {
  device : Device;
  store : AutoConnectCredentialEnhanced
}.

Module Core.

Definition with_clock (t : Z) (w : Device) : Device :=
  mkDevice t (espFreeHeap w) (espMinFreeHeap w) (espMaxAllocHeap w)
    (wifiHostname w) (_portalStatus w) (hostName w) (staip w) (staGateway w)
    (staNetmask w) (apDns1 w) (apDns2 w) (_memoryStats w) (_freeHeapSize w).

(** [millis()] and [delay(ms)]. *)
Definition millis (w : Device) : Z := clock w.
Definition delay (ms : Z) (w : Device) : Device := with_clock (wrap32 (clock w + ms)) w.

Section Platform.

(** Whether the build defines [ESP32]. *)
Variable ESP32 : bool.

(** Status bits of [AutoConnectDefs.h]. *)
Variables AC_TIMEOUT AC_CAPTIVEPORTAL : Z.

(** The connect primitive [AutoConnectCore<T>::begin(ssid, passphrase,
    timeout)] of [AutoConnectCore.hpp]: an opaque capability that may take
    time and change the device in any way. A [const char*] argument is
    [None] for [nullptr], else the C string it points to. *)
Variable begin : option string -> option string -> Z -> Device -> bool * Device.

(** [AutoConnectCore<T>::portalStatus()], also of [AutoConnectCore.hpp]: the
    status byte read off the device. *)
Variable portalStatus : Device -> Z.

(** [ACMemoryStats::update()]. *)
Definition stats_update (w : Device) : ACMemoryStats :=
  if ESP32 then
    mkACMemoryStats (espFreeHeap w) (espMinFreeHeap w) (espMaxAllocHeap w) (millis w)
  else
    mkACMemoryStats (espFreeHeap w) (espFreeHeap w) (espFreeHeap w) (millis w).

Definition _checkMemoryAvailable (required : Z) (w : Device) : bool :=
  required <=? espFreeHeap w.

Definition _updateMemoryStats (w : Device) : Device :=
  let stats := stats_update w in
  mkDevice (clock w) (espFreeHeap w) (espMinFreeHeap w) (espMaxAllocHeap w)
    (wifiHostname w) (_portalStatus w) (hostName w) (staip w) (staGateway w)
    (staNetmask w) (apDns1 w) (apDns2 w) stats (freeHeap stats).

Definition _validateSSID (ssid : string) : ACResult :=
  if negb (InputSanitizer.isValidSSID ssid) then
    mkACResult INVALID_PARAMETER
      ("Invalid SSID: " +:+ ssid +:+ " (length: "
       +:+ utoa32 (Z.of_nat (String.length ssid)) +:+ ")")
  else ACResult_of SUCCESS.

Definition _validatePassword (password : string) : ACResult :=
  if negb (InputSanitizer.isValidPassword password) then
    mkACResult INVALID_PARAMETER
      ("Invalid password length: " +:+ utoa32 (Z.of_nat (String.length password)))
  else ACResult_of SUCCESS.

Definition _validateHostname (hostname : string) : ACResult :=
  if negb (InputSanitizer.isValidHostname hostname) then
    mkACResult INVALID_PARAMETER ("Invalid hostname: " +:+ hostname)
  else ACResult_of SUCCESS.

(** Validation of an optional C-string argument of [beginWithResult]. *)
Definition validate_arg (check : string -> ACResult) (arg : option string) : ACResult :=
  match arg with
  | Some p => check p
  | None => ACResult_of SUCCESS
  end.

Definition beginWithResult (ssid passphrase : option string) (timeout : Z)
           (w : Device) : ACResult * Device :=
  if negb (_checkMemoryAvailable 8192 w) then
    (mkACResult MEMORY_INSUFFICIENT "Insufficient memory to start AutoConnect", w)
  else if negb (isSuccess (validate_arg _validateSSID ssid)) then
    (validate_arg _validateSSID ssid, w)
  else if negb (isSuccess (validate_arg _validatePassword passphrase)) then
    (validate_arg _validatePassword passphrase, w)
  else if 300000 <? timeout then
    (mkACResult INVALID_PARAMETER "Timeout too large (max 5 minutes)", w)
  else
    let w := _updateMemoryStats w in
    let (success, w) := begin ssid passphrase timeout w in
    if negb success then
      let status := portalStatus w in
      if negb (Z.land status AC_TIMEOUT =? 0) then
        (mkACResult WIFI_TIMEOUT "WiFi connection timeout", w)
      else if negb (Z.land status AC_CAPTIVEPORTAL =? 0) then
        (mkACResult SUCCESS "Captive portal started", w)
      else
        (mkACResult WIFI_CONNECT_FAILED "WiFi connection failed", w)
    else
      (mkACResult SUCCESS "WiFi connection established", w).

Definition setHostname (hostname : string) (w : Device) : ACResult * Device :=
  let validation := _validateHostname hostname in
  if negb (isSuccess validation) then (validation, w)
  else
    (mkACResult SUCCESS "Hostname set successfully",
     mkDevice (clock w) (espFreeHeap w) (espMinFreeHeap w) (espMaxAllocHeap w)
       (cstr hostname) (_portalStatus w) hostname (staip w) (staGateway w)
       (staNetmask w) (apDns1 w) (apDns2 w) (_memoryStats w) (_freeHeapSize w)).

Definition setStaticIP (ip gateway subnet : IPAddress) (w : Device) : ACResult * Device :=
  if negb (isSet ip) || negb (isSet gateway) || negb (isSet subnet) then
    (mkACResult INVALID_PARAMETER "Invalid IP configuration", w)
  else
    (mkACResult SUCCESS "Static IP configured",
     mkDevice (clock w) (espFreeHeap w) (espMinFreeHeap w) (espMaxAllocHeap w)
       (wifiHostname w) (_portalStatus w) (hostName w) (wrap32 ip) (wrap32 gateway)
       (wrap32 subnet) (apDns1 w) (apDns2 w) (_memoryStats w) (_freeHeapSize w)).

Definition setDNS (dns1 dns2 : IPAddress) (w : Device) : ACResult * Device :=
  if negb (isSet dns1) then
    (mkACResult INVALID_PARAMETER "Primary DNS cannot be empty", w)
  else
    (mkACResult SUCCESS "DNS configured",
     mkDevice (clock w) (espFreeHeap w) (espMinFreeHeap w) (espMaxAllocHeap w)
       (wifiHostname w) (_portalStatus w) (hostName w) (staip w) (staGateway w)
       (staNetmask w) (wrap32 dns1)
       (if isSet dns2 then wrap32 dns2 else apDns2 w)
       (_memoryStats w) (_freeHeapSize w)).

(** One connection attempt of the retry loop. *)
Definition attempt (cfg : NetworkConfig.t) (w : Device) : ACResult * Device :=
  beginWithResult (Some (cstr (NetworkConfig.ssid cfg)))
                  (Some (cstr (NetworkConfig.password cfg)))
                  (NetworkConfig.connectionTimeoutMs cfg) w.

(** The loop condition [retries < maxRetries && !timeout.isExpired()]. *)
Definition keep_trying (cfg : NetworkConfig.t) (timeout : TimeoutHelper)
           (retries : Z) (w : Device) : bool :=
  (retries <? NetworkConfig.maxRetries cfg)
  && negb (Timeout.isExpired timeout (millis w)).

(** The statement after the loop. *)
Definition failure_after (retries : Z) : ACResult :=
  mkACResult WIFI_CONNECT_FAILED
    ("Failed to connect after " +:+ utoa8 retries +:+ " attempts").

(** The tail of an iteration whose attempt failed: [retries++] and the pause
    between attempts. *)
Definition next_retries (retries : Z) : Z := wrap8 (retries + 1).

Definition pause (cfg : NetworkConfig.t) (retries' : Z) (w : Device) : Device :=
  if retries' <? NetworkConfig.maxRetries cfg then delay 1000 w else w.

(** The [while] loop of [connectToWiFi]. [fuel] bounds the iterations; the
    result is [None] only when it runs out. *)
Fixpoint connect_loop (fuel : nat) (cfg : NetworkConfig.t) (timeout : TimeoutHelper)
         (retries : Z) (w : Device) : option (ACResult * Device) :=
  match fuel with
  | O => None
  | S fuel' =>
      if keep_trying cfg timeout retries w then
        let (result, w1) := attempt cfg w in
        if isSuccess result then Some (result, w1)
        else
          let retries' := next_retries retries in
          connect_loop fuel' cfg timeout retries' (pause cfg retries' w1)
      else Some (failure_after retries, w)
  end.

(** The results of the attempts the loop makes, in order. *)
Fixpoint attempts (fuel : nat) (cfg : NetworkConfig.t) (timeout : TimeoutHelper)
         (retries : Z) (w : Device) : list ACResult :=
  match fuel with
  | O => []
  | S fuel' =>
      if keep_trying cfg timeout retries w then
        let (result, w1) := attempt cfg w in
        if isSuccess result then [result]
        else
          let retries' := next_retries retries in
          result :: attempts fuel' cfg timeout retries' (pause cfg retries' w1)
      else []
  end.

(** The steps of [connectToWiFi] that precede the retry loop; [inr] carries
    the result of an early return. *)
Definition prepare (networkConfig : NetworkConfig.t) (w : Device)
  : Device + ACResult * Device :=
  let validation := NetworkConfig.validate networkConfig in
  if negb (isSuccess validation) then inr (validation, w)
  else if negb (_checkMemoryAvailable 4096 w) then
    inr (mkACResult MEMORY_INSUFFICIENT "Insufficient memory for WiFi connection", w)
  else
    let w :=
      if negb (String.length (NetworkConfig.hostname networkConfig) =? 0)%nat
      then snd (setHostname (NetworkConfig.hostname networkConfig) w)
      else w in
    if NetworkConfig.useStaticIP networkConfig then
      let (ipResult, w) :=
        setStaticIP (NetworkConfig.staticIP networkConfig)
                    (NetworkConfig.gateway networkConfig)
                    (NetworkConfig.subnet networkConfig) w in
      if negb (isSuccess ipResult) then inr (ipResult, w)
      else if isSet (NetworkConfig.dns1 networkConfig) then
        let (dnsResult, w) :=
          setDNS (NetworkConfig.dns1 networkConfig)
                 (NetworkConfig.dns2 networkConfig) w in
        if negb (isSuccess dnsResult) then inr (dnsResult, w) else inl w
      else inl w
    else inl w.

(** [retries] is a [uint8_t] counting up to [maxRetries], so 256 iterations
    always suffice. *)
Definition loop_fuel : nat := 256.

Definition connectToWiFi (networkConfig : NetworkConfig.t) (w : Device)
  : option (ACResult * Device) :=
  match prepare networkConfig w with
  | inr early => Some early
  | inl w =>
      let timeout := Timeout.make (NetworkConfig.connectionTimeoutMs networkConfig)
                                  (millis w) in
      connect_loop loop_fuel networkConfig timeout 0 w
  end.

(** The attempts of a whole call. *)
Definition attempts_of (networkConfig : NetworkConfig.t) (w : Device) : list ACResult :=
  match prepare networkConfig w with
  | inr _ => []
  | inl w =>
      let timeout := Timeout.make (NetworkConfig.connectionTimeoutMs networkConfig)
                                  (millis w) in
      attempts loop_fuel networkConfig timeout 0 w
  end.

(** [connectToWiFi] on a system: the orchestrator has no handle on the
    credential store, which it leaves as it is. *)
Definition connect (networkConfig : NetworkConfig.t) (sys : System)
  : option (ACResult * System) :=
  match connectToWiFi networkConfig (device sys) with
  | Some (result, w) => Some (result, mkSystem w (store sys))
  | None => None
  end.

End Platform.

End Core.

(** ** AutoConnectRAII.h: MemoryPool

    [_buffer] records whether [new] returned a buffer. A pointer into the
    pool is its offset from the start of the buffer, [None] is [nullptr].
    The bytes of the buffer are written by the users of the pointers only and
    are not part of the model; [size_t] has 32 bits. *)

Record MemoryPool : Type := mkMemoryPool {
  _buffer : bool;
  _size : Z;
  _offset : Z
}.

Module Pool.

(** [MemoryPool(size)]; [allocated] tells whether [new] succeeded. *)
Definition make (size : Z) (allocated : bool) : MemoryPool :=
  if allocated then mkMemoryPool true size 0 else mkMemoryPool false 0 0.

(** [(bytes + 3) & ~3] in [size_t]. *)
Definition aligned_bytes (bytes : Z) : Z :=
  Z.land (wrap32 (bytes + 3)) (wrap32 (Z.lnot 3)).

Definition allocate (bytes : Z) (p : MemoryPool) : option Z * MemoryPool :=
  let aligned := aligned_bytes bytes in
  if _size p <? wrap32 (_offset p + aligned) then (None, p)
  else
    let ptr := if _buffer p then Some (_offset p) else None in
    (ptr, mkMemoryPool (_buffer p) (_size p) (wrap32 (_offset p + aligned))).

Definition reset (p : MemoryPool) : MemoryPool :=
  mkMemoryPool (_buffer p) (_size p) 0.

Definition available (p : MemoryPool) : Z := wrap32 (_size p - _offset p).

Definition used (p : MemoryPool) : Z := _offset p.

Definition isValid (p : MemoryPool) : bool := _buffer p.

(** The two mutators, as a user of the pool calls them. *)
Inductive op : Type :=
| Allocate (bytes : Z)
| Reset.

Definition step (p : MemoryPool) (o : op) : MemoryPool :=
  match o with
  | Allocate bytes => snd (allocate bytes p)
  | Reset => reset p
  end.

Definition run (ops : list op) (p : MemoryPool) : MemoryPool :=
  fold_left step ops p.

End Pool.

(** ** AutoConnectRAII.h: the other operations of StringBuilder *)

Module BuilderOps.

(** [append(const String&)]. *)
Definition appendString (str : string) (b : StringBuilder) : StringBuilder :=
  mkStringBuilder (_parts b ++ [str]) (_estimatedSize b + String.length str)%nat.

Definition clear (b : StringBuilder) : StringBuilder := mkStringBuilder [] 0.


Definition isEmpty (b : StringBuilder) : bool :=
  match _parts b with [] => true | _ :: _ => false end.

(** The calls that change a builder. *)
Inductive op : Type :=
| AppendString (str : string)
| AppendCStr (str : string)
| AppendFormat (fmt : string) (args : list fmt_arg)
| Clear.

Definition step (b : StringBuilder) (o : op) : StringBuilder :=
  match o with
  | AppendString str => appendString str b
  | AppendCStr str => Builder.append str b
  | AppendFormat fmt args => Builder.appendFormat fmt args b
  | Clear => clear b
  end.

Definition run (ops : list op) (b : StringBuilder) : StringBuilder :=
  fold_left step ops b.

End BuilderOps.

(** [AutoConnectCore<T>::_buildHTML] of [AutoConnectCoreEnhanced.hpp]. *)
Definition _buildHTML (parts : list string) : string :=
  let builder := Builder.make in
  let builder := fold_left (fun b part => BuilderOps.appendString part b) parts builder in
  Builder.toString builder.

(** ** AutoConnectRAII.h: InputSanitizer::sanitizeFilename *)

Module Filename.

(** The characters the loop keeps. *)
Definition kept (c : ascii) : bool :=
  InputSanitizer.isalnum c || Ascii.eqb c "_" || Ascii.eqb c "-" || Ascii.eqb c ".".

(** The loop over the characters of the input. *)
Fixpoint clean_chars (input : string) : string :=
  match input with
  | EmptyString => EmptyString
  | String c r => String (if kept c then c else "_"%char) (clean_chars r)
  end.

Definition sanitizeFilename (input : string) : string :=
  let clean := clean_chars input in
  if (String.length clean =? 0)%nat || Ascii.eqb (InputSanitizer.first_char clean) "."
  then "file_" +:+ clean
  else clean.

End Filename.

(** ** AutoConnectError.h: the text of an error kind

    An [ACError] outside the named kinds takes the [default] branch, as
    [UNKNOWN_ERROR] does. *)

Definition errorString (r : ACResult) : string :=
  match error r with
  | SUCCESS => "Success"
  | WIFI_CONNECT_FAILED => "WiFi connection failed"
  | WIFI_TIMEOUT => "WiFi connection timeout"
  | WIFI_CREDENTIALS_INVALID => "Invalid WiFi credentials"
  | JSON_PARSE_ERROR => "JSON parsing error"
  | JSON_BUFFER_OVERFLOW => "JSON buffer overflow"
  | FILESYSTEM_ERROR => "Filesystem error"
  | FILESYSTEM_NOT_MOUNTED => "Filesystem not mounted"
  | FILE_NOT_FOUND => "File not found"
  | FILE_READ_ERROR => "File read error"
  | FILE_WRITE_ERROR => "File write error"
  | MEMORY_ALLOCATION_FAILED => "Memory allocation failed"
  | MEMORY_INSUFFICIENT => "Insufficient memory"
  | TIMEOUT_EXCEEDED => "Timeout exceeded"
  | INVALID_PARAMETER => "Invalid parameter"
  | INVALID_STATE => "Invalid state"
  | PORTAL_START_FAILED => "Portal start failed"
  | WEBSERVER_ERROR => "Web server error"
  | DNS_SERVER_ERROR => "DNS server error"
  | CREDENTIAL_STORE_ERROR => "Credential store error"
  | CREDENTIAL_LOAD_ERROR => "Credential load error"
  | UNKNOWN_ERROR => "Unknown error"
  end.

(** ** AutoConnectAdvancedConfig.h: feature flags and configuration sections

    The flags are bits of a [uint32_t]. [uint8_t], [uint16_t], [uint32_t]
    and [size_t] fields hold their value as a [Z]; the statements about them
    assume it in the range of the type. *)

Definition AC_FEATURE_OTA : Z := Z.shiftl 1 0.
Definition AC_FEATURE_UPDATE : Z := Z.shiftl 1 1.
Definition AC_FEATURE_FILESYSTEM : Z := Z.shiftl 1 2.
Definition AC_FEATURE_JSON : Z := Z.shiftl 1 3.
Definition AC_FEATURE_CREDENTIALS : Z := Z.shiftl 1 4.
Definition AC_FEATURE_PORTAL : Z := Z.shiftl 1 5.
Definition AC_FEATURE_TICKER : Z := Z.shiftl 1 6.
Definition AC_FEATURE_DEBUG : Z := Z.shiftl 1 7.

Definition AC_FEATURES_DEFAULT : Z :=
  Z.lor (Z.lor AC_FEATURE_CREDENTIALS AC_FEATURE_PORTAL) AC_FEATURE_JSON.
Definition AC_FEATURES_MINIMAL : Z := Z.lor AC_FEATURE_CREDENTIALS AC_FEATURE_PORTAL.
Definition AC_FEATURES_FULL : Z := 255.

Module PortalConfig.

Record t : Type := mk {
  apSSID : string;
  apPassword : string;
  apIP : IPAddress;
  apGateway : IPAddress;
  apSubnet : IPAddress;
  channel : Z;
  hidden : bool;
  enableAuth : bool;
  authRealm : string;
  authUsername : string;
  authPassword : string;
  timeoutMs : Z;
  port : Z
}.

Definition validate (c : t) : ACResult :=
  if negb (InputSanitizer.isValidSSID (apSSID c)) then
    mkACResult INVALID_PARAMETER "Invalid AP SSID"
  else if negb (InputSanitizer.isValidPassword (apPassword c)) then
    mkACResult INVALID_PARAMETER "Invalid AP password"
  else if (channel c <? 1) || (13 <? channel c) then
    mkACResult INVALID_PARAMETER "Invalid WiFi channel (1-13)"
  else if (port c <? 80) || (65535 <? port c) then
    mkACResult INVALID_PARAMETER "Invalid port number"
  else ACResult_of SUCCESS.

End PortalConfig.

Module MemoryConfig.

Record t : Type := mk {
  jsonBufferSize : Z;
  maxStringLength : Z;
  lowMemoryThreshold : Z;
  enableMemoryMonitoring : bool;
  enableGarbageCollection : bool;
  gcIntervalMs : Z
}.

(** [MemoryConfig()]. *)
Definition make : t := mk 8192 4096 4096 true false 30000.

Definition validate (c : t) : ACResult :=
  if (jsonBufferSize c <? 1024) || (32768 <? jsonBufferSize c) then
    mkACResult INVALID_PARAMETER "JSON buffer size out of range (1-32KB)"
  else if jsonBufferSize c / 2 <? maxStringLength c then
    mkACResult INVALID_PARAMETER "Max string length too large for JSON buffer"
  else ACResult_of SUCCESS.

End MemoryConfig.

Module DebugConfig.

Record t : Type := mk {
  enableSerial : bool;
  enableFile : bool;
  logFilePath : string;
  maxLogFileSize : Z;
  logLevel : Z;
  timestampLogs : bool;
  memoryStats : bool
}.

(** [DebugConfig()]. *)
Definition make : t := mk false false "/autoconnect.log" (1024 * 1024) 2 true false.

End DebugConfig.

(** [AutoConnectAdvancedConfig] without the members of its base class and
    without the [security] section, which none of its functions below
    reads. *)
Module AdvancedConfig.

Record t : Type := mk {
  enabledFeatures : Z;
  network : NetworkConfig.t;
  portal : PortalConfig.t;
  memory : MemoryConfig.t;
  debug : DebugConfig.t;
  taskStackSize : Z;
  taskPriority : Z;
  watchdogTimeoutMs : Z;
  enableDeepSleep : bool;
  deepSleepDurationUs : Z;
  formatFSOnFail : bool;
  maxFileSize : Z;
  maxFiles : Z
}.

Definition with_features (features : Z) (c : t) : t :=
  mk features (network c) (portal c) (memory c) (debug c) (taskStackSize c)
     (taskPriority c) (watchdogTimeoutMs c) (enableDeepSleep c)
     (deepSleepDurationUs c) (formatFSOnFail c) (maxFileSize c) (maxFiles c).

Definition validate (c : t) : ACResult :=
  let result := NetworkConfig.validate (network c) in
  if negb (isSuccess result) then result
  else
    let result := PortalConfig.validate (portal c) in
    if negb (isSuccess result) then result
    else
      let result := MemoryConfig.validate (memory c) in
      if negb (isSuccess result) then result
      else if negb (Z.land (enabledFeatures c) AC_FEATURE_FILESYSTEM =? 0)
              && (maxFileSize c <? 1024) then
        mkACResult INVALID_PARAMETER "Max file size too small"
      else if negb (Z.land (enabledFeatures c) AC_FEATURE_DEBUG =? 0)
              && (DebugConfig.enableFile (debug c)
                  && negb (negb (Z.land (enabledFeatures c) AC_FEATURE_FILESYSTEM =? 0)))
      then
        mkACResult INVALID_PARAMETER "File logging requires filesystem feature"
      else ACResult_of SUCCESS.

Definition hasFeature (feature : Z) (c : t) : bool :=
  negb (Z.land (enabledFeatures c) feature =? 0).

Definition enableFeature (feature : Z) (c : t) : t :=
  with_features (Z.lor (enabledFeatures c) feature) c.

(** [~feature] is the complement on 32 bits. *)
Definition disableFeature (feature : Z) (c : t) : t :=
  with_features (Z.land (enabledFeatures c) (wrap32 (Z.lnot feature))) c.

(** [sizeof_this] stands for [sizeof( *this )], which the compiler fixes;
    [usage] is a [size_t] of 32 bits. *)
Definition estimateMemoryUsage (sizeof_this : Z) (c : t) : Z :=
  let usage := sizeof_this in
  let usage := wrap32 (usage + MemoryConfig.jsonBufferSize (memory c)) in
  let usage := if hasFeature AC_FEATURE_FILESYSTEM c then wrap32 (usage + 2048)
               else usage in
  let usage := if hasFeature AC_FEATURE_OTA c then wrap32 (usage + 4096)
               else usage in
  let usage := if hasFeature AC_FEATURE_PORTAL c then wrap32 (usage + 8192)
               else usage in
  usage.

End AdvancedConfig.

(** ** AutoConnectCoreEnhanced.hpp: the captive portal and the configuration

    [ApConfig] has the members of [_apConfig] that [startCaptivePortal]
    writes; [Station] pairs it with the device. The two calls into the
    AutoConnect core, [begin()] and [config(T&)], the value [AC_AUTH_DIGEST]
    and the truncation of [channel] and the like to the width of their
    members are not part of these sources: the first three are parameters,
    and the values are stored as given. *)

Module Portal.

Record ApConfig : Type := mkApConfig {
  apid : string;
  psk : string;
  apip : Z;
  gateway : Z;
  netmask : Z;
  channel : Z;
  hidden : Z;
  portalTimeout : Z;
  auth : Z;
  username : string;
  password : string
}.

Record Station : Type := mkStation {
  device : Device;
  _apConfig : ApConfig
}.

Definition with_apConfig (c : ApConfig) (s : Station) : Station :=
  mkStation (device s) c.

Section Primitives.

Variable AC_AUTH_DIGEST : Z.
Variable begin : Station -> bool * Station.
Variable config : ApConfig -> Station -> bool * Station.

Definition apply_portal (portalConfig : PortalConfig.t) (c : ApConfig) : ApConfig :=
  let c := mkApConfig (PortalConfig.apSSID portalConfig)
             (PortalConfig.apPassword portalConfig)
             (wrap32 (PortalConfig.apIP portalConfig))
             (wrap32 (PortalConfig.apGateway portalConfig))
             (wrap32 (PortalConfig.apSubnet portalConfig))
             (PortalConfig.channel portalConfig)
             (if PortalConfig.hidden portalConfig then 1 else 0)
             (PortalConfig.timeoutMs portalConfig)
             (auth c) (username c) (password c) in
  if PortalConfig.enableAuth portalConfig then
    mkApConfig (apid c) (psk c) (apip c) (gateway c) (netmask c) (channel c)
      (hidden c) (portalTimeout c) AC_AUTH_DIGEST
      (PortalConfig.authUsername portalConfig)
      (PortalConfig.authPassword portalConfig)
  else c.

Definition startCaptivePortal (portalConfig : PortalConfig.t) (s : Station)
  : ACResult * Station :=
  let validation := PortalConfig.validate portalConfig in
  if negb (isSuccess validation) then (validation, s)
  else if negb (Core._checkMemoryAvailable 8192 (device s)) then
    (mkACResult MEMORY_INSUFFICIENT "Insufficient memory for captive portal", s)
  else
    let s := with_apConfig (apply_portal portalConfig (_apConfig s)) s in
    let (success, s) := begin s in
    if negb success then
      (mkACResult PORTAL_START_FAILED "Failed to start captive portal", s)
    else
      (mkACResult SUCCESS "Captive portal started successfully", s).

Definition configWithValidation (cfg : ApConfig) (s : Station) : ACResult * Station :=
  if negb (Core._checkMemoryAvailable 1024 (device s)) then
    (mkACResult MEMORY_INSUFFICIENT "Insufficient memory for configuration", s)
  else
    let oldConfig := _apConfig s in
    let (success, s) := config cfg s in
    if negb success then
      (mkACResult INVALID_PARAMETER "Configuration validation failed",
       with_apConfig oldConfig s)
    else
      (mkACResult SUCCESS "Configuration applied successfully", s).

End Primitives.

End Portal.

(** ** Callers of the credential store

    The public operations as a caller issues them one after the other. *)

Inductive store_op : Type :=
| OpInitialize
| OpAdd (credential : EnhancedCredential)
| OpGet (name : string)
| OpRemove (name : string)
| OpList
| OpClearAll
| OpExport.

(** One call; [None] where [addCredential] has no defined behaviour. The
    [const] operations leave the store as it is. *)
Definition store_step (s : AutoConnectCredentialEnhanced) (o : store_op)
  : option AutoConnectCredentialEnhanced :=
  match o with
  | OpInitialize => Some (snd (Store.initialize s))
  | OpAdd credential => snd <$> Store.addCredential credential s
  | OpGet _ => Some s
  | OpRemove name => Some (snd (Store.removeCredential name s))
  | OpList => Some s
  | OpClearAll => Some (snd (Store.clearAll s))
  | OpExport => Some s
  end.

Fixpoint store_run (ops : list store_op) (s : AutoConnectCredentialEnhanced)
  : option AutoConnectCredentialEnhanced :=
  match ops with
  | [] => Some s
  | o :: rest =>
      match store_step s o with
      | Some s' => store_run rest s'
      | None => None
      end
  end.

(** * Specification-side definitions

    What the properties are stated with: the representation invariant of a
    [SecureString], validity of a credential, and the escaping and snapshot
    layout the specification describes, to be compared with what the code
    computes. *)

(** The representation invariant of a [SecureString]. *)
Definition secure_wf (s : SecureString) : Prop :=
  String.length (_data s) = _capacity s
  /\ (_length s <= _capacity s - 1)%nat
  /\ (String.length (Secure.c_str s) <= _length s)%nat.

(** The credential passes [validate()]. *)
Definition valid (c : EnhancedCredential) : Prop :=
  isSuccess (Credential.validate c) = true.

(** A credential as a provisioning flow builds it: [EnhancedCredential()],
    then [ssid.set(name)] and a timestamp. *)
Definition cred (name : string) (ts : Z) : EnhancedCredential :=
  Credential.with_ssid (snd (Secure.set name (ssid Credential.make)))
    (mkEnhancedCredential (ssid Credential.make) (password Credential.make)
       (repeat 0 6) 0 0 0 0 0 false ts 0 (-120)).

(** Every occurrence of the character [f] replaced by [repl]. *)
Fixpoint subst_char (f : ascii) (repl : string) (s : string) : string :=
  match s with
  | EmptyString => EmptyString
  | String c r =>
      if Ascii.eqb c f then repl +:+ subst_char f repl r
      else String c (subst_char f repl r)
  end.

(** The HTML escape of one character. *)
Definition escape_char (c : ascii) : string :=
  if Ascii.eqb c "&" then "&amp;"
  else if Ascii.eqb c "<" then "&lt;"
  else if Ascii.eqb c ">" then "&gt;"
  else if Ascii.eqb c "034" then "&quot;"
  else if Ascii.eqb c "'" then "&#x27;"
  else String c EmptyString.

Fixpoint escape_all (s : string) : string :=
  match s with
  | EmptyString => EmptyString
  | String c r => escape_char c +:+ escape_all r
  end.

(** [c] occurs in [s]. *)
Fixpoint occurs (c : ascii) (s : string) : bool :=
  match s with
  | EmptyString => false
  | String a r => Ascii.eqb a c || occurs c r
  end.

(** [s] holds no NUL character. *)
Fixpoint nonul (s : string) : Prop :=
  match s with
  | EmptyString => True
  | String c r => c <> NUL /\ nonul r
  end.

(** The text of one entry of the export snapshot: the four keys [ssid],
    [useStatic], [timestamp], [connectionCount], in this order, the SSID
    escaped. *)
Definition entry_text (c : EnhancedCredential) : string :=
  "{" +:+ DQ +:+ "ssid" +:+ DQ +:+ ":" +:+ DQ +:+ escape_all (Credential.key c)
      +:+ DQ +:+ ","
      +:+ DQ +:+ "useStatic" +:+ DQ +:+ ":"
      +:+ (if useStatic c then "true" else "false") +:+ ","
      +:+ DQ +:+ "timestamp" +:+ DQ +:+ ":" +:+ utoa32 (timestamp c) +:+ ","
      +:+ DQ +:+ "connectionCount" +:+ DQ +:+ ":" +:+ utoa32 (connectionCount c)
      +:+ "}".

(** The export snapshot format: an object with the one key [credentials]
    holding the entries, separated by commas. *)
Definition snapshot_text (l : list EnhancedCredential) : string :=
  "{" +:+ DQ +:+ "credentials" +:+ DQ +:+ ":[" +:+ String.concat "," (map entry_text l)
      +:+ "]}".

(** Entries each led by a comma. *)
Fixpoint comma_entries (l : list EnhancedCredential) : string :=
  match l with
  | [] => EmptyString
  | c :: r => "," +:+ entry_text c +:+ comma_entries r
  end.

(** [a] and [b] agree on everything but the password. *)
Definition same_but_password (a b : EnhancedCredential) : Prop :=
  Credential.with_password (password a) b = a.

(** The outcome of an attempt or of a whole sequence. *)
Definition failed (r : ACResult) : Prop := isSuccess r = false.
Definition succeeded (r : ACResult) : Prop := isSuccess r = true.

(** ** Scripted connect primitives

    Concrete instances of the opaque [begin] capability, used to run the
    orchestrator on explicit scenarios. *)

Definition with_clock_status (t status : Z) (w : Device) : Device :=
  mkDevice t (espFreeHeap w) (espMinFreeHeap w) (espMaxAllocHeap w)
    (wifiHostname w) status (hostName w) (staip w) (staGateway w)
    (staNetmask w) (apDns1 w) (apDns2 w) (_memoryStats w) (_freeHeapSize w).

(** Every attempt fails after [duration] ms, leaving [status] as the portal
    status. *)
Definition failing_begin (duration status : Z)
           (ssid passphrase : option string) (timeout : Z) (w : Device) : bool * Device :=
  (false, with_clock_status (wrap32 (clock w + duration)) status w).

(** An attempt started before [ready] ms fails after [slow] ms; one started
    later connects after [quick] ms. *)
Definition late_begin (ready slow quick : Z)
           (ssid passphrase : option string) (timeout : Z) (w : Device) : bool * Device :=
  if clock w <? ready
  then (false, with_clock_status (wrap32 (clock w + slow)) 0 w)
  else (true, with_clock_status (wrap32 (clock w + quick)) 1 w).

(** A device just booted: clock at 0, plenty of heap. *)
Definition booted : Device :=
  mkDevice 0 200000 150000 100000 "" 0 "" 0 0 0 0 0 (mkACMemoryStats 0 0 0 0) 0.

(** A network configuration for the network [home]. *)
Definition home_config (connectionTimeoutMs maxRetries : Z) : NetworkConfig.t :=
  NetworkConfig.mk "home" "12345678" "" 0 0 0 0 0 false false
                   connectionTimeoutMs maxRetries.

(** The status bits as [AutoConnectDefs.h] of the AutoConnect library
    defines them. *)
Definition AC_TIMEOUT_bit : Z := 4.
Definition AC_CAPTIVEPORTAL_bit : Z := 64.

(** An initialized store that knows the network [home]. *)
Definition home_store : AutoConnectCredentialEnhanced :=
  mkStore [cred "home" 0] true 10.

(** The orchestrator on a build without [ESP32], with these status bits, the
    status byte kept in [_portalStatus] and a scripted connect primitive. *)
Definition scripted_connectToWiFi
           (begin : option string -> option string -> Z -> Device -> bool * Device) :=
  Core.connectToWiFi false AC_TIMEOUT_bit AC_CAPTIVEPORTAL_bit begin _portalStatus.

Definition scripted_attempts
           (begin : option string -> option string -> Z -> Device -> bool * Device) :=
  Core.attempts_of false AC_TIMEOUT_bit AC_CAPTIVEPORTAL_bit begin _portalStatus.

Definition scripted_connect
           (begin : option string -> option string -> Z -> Device -> bool * Device) :=
  Core.connect false AC_TIMEOUT_bit AC_CAPTIVEPORTAL_bit begin _portalStatus.

(** A portal configuration and a whole configuration for the scenarios. *)
Definition home_portal : PortalConfig.t :=
  PortalConfig.mk "esp-ap" "12345678" 0 0 0 1 false false "AutoConnect" "" "" 0 80.

Definition home_advanced : AdvancedConfig.t :=
  AdvancedConfig.mk AC_FEATURES_DEFAULT (home_config 30000 3) home_portal
    MemoryConfig.make DebugConfig.make 4096 1 30000 false 30000000 false
    (1024 * 1024) 50.

(** What every store built through its public operations satisfies: the
    capacity bound, one entry per SSID, only validated entries, and nothing
    stored before [initialize()]. *)
Definition store_inv (s : AutoConnectCredentialEnhanced) : Prop :=
  (length (_credentials s) <= _maxCredentials s)%nat
  /\ NoDup (map Credential.key (_credentials s))
  /\ Forall valid (_credentials s)
  /\ (_initialized s = false -> _credentials s = []).

(** What [std::sort] asks of its comparator on the elements of the range: a
    strict weak ordering, that is irreflexive, transitive, and with a
    transitive equivalence of the elements that neither is before. *)
Definition strict_weak_order_on (before : string -> string -> bool) (l : list string)
  : Prop :=
  (forall a, a ∈ l -> before a a = false)
  /\ (forall a b c, a ∈ l -> b ∈ l -> c ∈ l ->
                    before a b = true -> before b c = true -> before a c = true)
  /\ (forall a b c, a ∈ l -> b ∈ l -> c ∈ l ->
                    before a b = false -> before b a = false ->
                    before b c = false -> before c b = false ->
                    before a c = false /\ before c a = false).

(** In the order of the comparator: what follows is not before. *)
Definition sorted_by (before : string -> string -> bool) (a b : string) : Prop :=
  before b a = false.

(** What [std::sort] guarantees for such a comparator: the result holds the
    elements of the range, each as often as the range, and no element is
    before one that precedes it. *)
Definition std_sort_contract
           (std_sort : (string -> string -> bool) -> list string -> list string) : Prop :=
  forall before l,
    strict_weak_order_on before l ->
    std_sort before l ≡ₚ l /\ StronglySorted (sorted_by before) (std_sort before l).

(** Not older than what follows. *)
Definition newest_first (a b : EnhancedCredential) : Prop :=
  timestamp b <= timestamp a.



(** Every character of [s] satisfies [p]. *)
Fixpoint all_chars (p : ascii -> bool) (s : string) : bool :=
  match s with
  | EmptyString => true
  | String c r => p c && all_chars p r
  end.

(** A character a host name may contain. *)
Definition hostname_char (c : ascii) : bool :=
  InputSanitizer.isalnum c || Ascii.eqb c InputSanitizer.hyphen.

(** * Properties *)

(** ** Machine integers *)

Lemma wrap32_range x : 0 <= wrap32 x < 2 ^ 32.
Proof. unfold wrap32. apply Z.mod_pos_bound. lia. Qed.

Lemma wrap32_small x : 0 <= x < 2 ^ 32 -> wrap32 x = x.
Proof. intros H. unfold wrap32. now apply Z.mod_small. Qed.

Lemma wrap8_small x : 0 <= x < 2 ^ 8 -> wrap8 x = x.
Proof. intros H. unfold wrap8. now apply Z.mod_small. Qed.

(** ** Validator properties *)

(** C7: a password is accepted exactly when it is empty or has between 8 and
    63 characters; in particular lengths 7 and 64 are rejected while lengths
    0, 8 and 63 are accepted. *)
Theorem isValidPassword_iff :
  (forall p : string,
      InputSanitizer.isValidPassword p = true <->
      (String.length p = 0 \/ 8 <= String.length p <= 63)%nat)
  /\ InputSanitizer.isValidPassword "1234567" = false
  /\ InputSanitizer.isValidPassword
       "0123456789abcdef0123456789abcdef0123456789abcdef0123456789abcdef" = false
  /\ InputSanitizer.isValidPassword "" = true
  /\ InputSanitizer.isValidPassword "12345678" = true
  /\ InputSanitizer.isValidPassword
       "0123456789abcdef0123456789abcdef0123456789abcdef0123456789abcde" = true.
Proof.
  split; [| repeat split; reflexivity].
  intros p. unfold InputSanitizer.isValidPassword.
  rewrite orb_true_iff, andb_true_iff.
  rewrite Nat.eqb_eq, !Nat.leb_le. reflexivity.
Qed.

(** ** TimeoutHelper properties *)

(** C10: [remaining()] is the timeout minus the elapsed time while the
    elapsed time is below the timeout and 0 from then on; the subtraction
    never wraps, and [remaining()] is 0 exactly when [isExpired()] holds. *)
Theorem remaining_spec (t : TimeoutHelper) (now : Z) :
  0 <= _timeout t < 2 ^ 32 ->
  (Timeout.elapsed t now < _timeout t ->
     Timeout.remaining t now = _timeout t - Timeout.elapsed t now)
  /\ (_timeout t <= Timeout.elapsed t now -> Timeout.remaining t now = 0)
  /\ 0 <= Timeout.remaining t now <= _timeout t
  /\ (Timeout.remaining t now = 0 <-> Timeout.isExpired t now = true).
Proof.
  intros Ht.
  unfold Timeout.remaining, Timeout.isExpired, Timeout.elapsed.
  pose proof (wrap32_range (now - _startTime t)) as He.
  set (e := wrap32 (now - _startTime t)) in *.
  destruct (Z.leb_spec (_timeout t) e) as [Hle | Hlt].
  - repeat split; intros; try lia; reflexivity.
  - rewrite (wrap32_small (_timeout t - e)) by lia.
    repeat split; intros; try lia; try discriminate.
Qed.

Lemma remaining_spec_witness :
  0 <= 15000 < 2 ^ 32
  /\ Timeout.elapsed (mkTimeoutHelper 4294967000 15000) 704 = 1000
  /\ Timeout.remaining (mkTimeoutHelper 4294967000 15000) 704 = 15000 - 1000
  /\ Timeout.isExpired (mkTimeoutHelper 4294967000 15000) 704 = false.
Proof.
  assert (Hb : 0 <= 15000 < 2 ^ 32) by (split; [lia | reflexivity]).
  destruct (remaining_spec (mkTimeoutHelper 4294967000 15000) 704 Hb)
    as (Hlt & _ & _ & _).
  split; [exact Hb |].
  split; [reflexivity |].
  split; [apply Hlt; reflexivity | reflexivity].
Defined.

(** ** SecureString properties *)

Lemma length_memset0 d n : String.length (memset0 d n) = String.length d.
Proof.
  revert d. induction n as [| n IH]; intros [| c d]; simpl; auto.
Qed.

Lemma length_strncpy d src n : String.length (strncpy d src n) = String.length d.
Proof.
  revert d src. induction n as [| n IH]; intros [| c d] src; simpl; auto.
  destruct src as [| a r]; simpl; [now rewrite IH |].
  destruct (Ascii.eqb a NUL); simpl; now rewrite IH.
Qed.

Lemma memset0_all d : memset0 d (String.length d) = zeros (String.length d).
Proof. induction d as [| c d IH]; simpl; [reflexivity | now rewrite IH]. Qed.

Lemma length_zeros n : String.length (zeros n) = n.
Proof. induction n as [| n IH]; simpl; auto. Qed.

Lemma cstr_zeros n : cstr (zeros n) = EmptyString.
Proof. destruct n; reflexivity. Qed.

(** Copying [n] bytes into a longer zeroed buffer leaves a C string of at
    most [n] characters. *)
Lemma cstr_strncpy_zeros n : forall k src,
  (n < k)%nat -> (String.length (cstr (strncpy (zeros k) src n)) <= n)%nat.
Proof.
  induction n as [| n IH]; intros k src Hk.
  - destruct k as [| k]; [lia |]. simpl. lia.
  - destruct k as [| k]; [lia |]. simpl.
    destruct src as [| a r]; simpl; [lia |].
    destruct (Ascii.eqb a NUL) eqn:Ha; simpl; [lia |].
    rewrite Ha. simpl. specialize (IH k r). lia.
Qed.

(** With room for the terminator, the C string read back is the C string
    written. *)
Lemma cstr_strncpy_exact src : forall k,
  (String.length src < k)%nat ->
  cstr (strncpy (zeros k) src (String.length src)) = cstr src.
Proof.
  induction src as [| a r IH]; intros k Hk.
  - simpl. apply cstr_zeros.
  - destruct k as [| k]; [simpl in Hk; lia |]. simpl in *.
    destruct (Ascii.eqb a NUL) eqn:Ha; simpl; [now rewrite ?Ha |].
    rewrite Ha. f_equal. apply IH. lia.
Qed.

Lemma secure_wf_make c : secure_wf (Secure.make c).
Proof.
  unfold secure_wf, Secure.make, Secure.c_str. simpl.
  rewrite length_memset0, length_zeros.
  split; [reflexivity |]. split; [lia |].
  rewrite <- (length_zeros c) at 2. rewrite memset0_all, cstr_zeros. simpl. lia.
Qed.

Lemma secure_wf_set str s : secure_wf s -> secure_wf (snd (Secure.set str s)).
Proof.
  intros (Hd & Hl & Hc). unfold Secure.set.
  destruct (Nat.leb_spec (_capacity s) (String.length str)) as [Hge | Hlt]; simpl.
  - repeat split; assumption.
  - unfold secure_wf, Secure.c_str. simpl.
    rewrite length_strncpy, length_memset0.
    split; [assumption |]. split; [lia |].
    rewrite <- Hd, memset0_all, Hd.
    apply cstr_strncpy_zeros. assumption.
Qed.

Lemma secure_wf_clear s : secure_wf s -> secure_wf (Secure.clear s).
Proof.
  intros (Hd & Hl & Hc). unfold secure_wf, Secure.clear, Secure.c_str. simpl.
  rewrite length_memset0. split; [assumption |]. split; [lia |].
  rewrite <- Hd, memset0_all, cstr_zeros. simpl. lia.
Qed.

Lemma secure_wf_run ops : forall s, secure_wf s -> secure_wf (Secure.run ops s).
Proof.
  unfold Secure.run.
  induction ops as [| o ops IH]; intros s Hs; simpl; [assumption |].
  apply IH. destruct o; simpl; [now apply secure_wf_set | now apply secure_wf_clear].
Qed.

Lemma capacity_set str s : _capacity (snd (Secure.set str s)) = _capacity s.
Proof. unfold Secure.set. destruct (_ <=? _)%nat; reflexivity. Qed.

Lemma capacity_run ops : forall s, _capacity (Secure.run ops s) = _capacity s.
Proof.
  unfold Secure.run.
  induction ops as [| o ops IH]; intros s; simpl; [reflexivity |].
  rewrite IH. destruct o; simpl; [apply capacity_set | reflexivity].
Qed.

(** C9: [set(s)] succeeds exactly when [len(s)] is below the capacity; a
    failed [set] leaves contents and length as they were, a successful one
    makes [length()] equal to [len(s)]; hence, whatever sequence of [set] and
    [clear] calls is applied to them, the SSID buffer of an
    [EnhancedCredential] (capacity 33) never holds more than 32 bytes and its
    password buffer (capacity 64) never more than 63. *)
Theorem SecureString_set_spec :
  (forall (s : SecureString) (str : string),
      fst (Secure.set str s) = true <-> (String.length str < _capacity s)%nat)
  /\ (forall (s : SecureString) (str : string),
        fst (Secure.set str s) = false -> snd (Secure.set str s) = s)
  /\ (forall (s : SecureString) (str : string),
        fst (Secure.set str s) = true ->
        Secure.length (snd (Secure.set str s)) = String.length str)
  /\ (forall ops : list Secure.op,
        let s := Secure.run ops (ssid Credential.make) in
        _capacity s = 33%nat
        /\ (Secure.length s <= 32)%nat
        /\ (String.length (Secure.c_str s) <= 32)%nat)
  /\ (forall ops : list Secure.op,
        let s := Secure.run ops (password Credential.make) in
        _capacity s = 64%nat
        /\ (Secure.length s <= 63)%nat
        /\ (String.length (Secure.c_str s) <= 63)%nat).
Proof.
  split; [| split; [| split; [| split]]].
  - intros s str. unfold Secure.set.
    destruct (Nat.leb_spec (_capacity s) (String.length str)); simpl;
      split; intros; try lia; try discriminate; reflexivity.
  - intros s str. unfold Secure.set.
    destruct (_ <=? _)%nat; simpl; [reflexivity | discriminate].
  - intros s str. unfold Secure.set.
    destruct (_ <=? _)%nat; simpl; [discriminate | reflexivity].
  - intros ops s.
    pose proof (secure_wf_run ops _ (secure_wf_make 33)) as (Hd & Hl & Hc).
    pose proof (capacity_run ops (Secure.make 33)) as Hcap.
    change (ssid Credential.make) with (Secure.make 33) in s.
    fold s in Hd, Hl, Hc, Hcap. simpl in Hcap. unfold Secure.length.
    rewrite Hcap in *. repeat split; lia.
  - intros ops s.
    pose proof (secure_wf_run ops _ (secure_wf_make 64)) as (Hd & Hl & Hc).
    pose proof (capacity_run ops (Secure.make 64)) as Hcap.
    change (password Credential.make) with (Secure.make 64) in s.
    fold s in Hd, Hl, Hc, Hcap. simpl in Hcap. unfold Secure.length.
    rewrite Hcap in *. repeat split; lia.
Qed.

Lemma SecureString_set_spec_witness :
  fst (Secure.set "0123456789abcdef0123456789abcdef" (ssid Credential.make)) = true
  /\ Secure.length
       (snd (Secure.set "0123456789abcdef0123456789abcdef" (ssid Credential.make)))
     = 32%nat
  /\ snd (Secure.set "0123456789abcdef0123456789abcdefg" (ssid Credential.make))
     = ssid Credential.make.
Proof.
  destruct SecureString_set_spec as (Hiff & Hfail & Hlen & _).
  assert (Hok : fst (Secure.set "0123456789abcdef0123456789abcdef"
                                (ssid Credential.make)) = true).
  { apply Hiff. simpl. lia. }
  split; [exact Hok |].
  split; [rewrite (Hlen _ _ Hok); reflexivity |].
  apply Hfail. reflexivity.
Defined.

(** ** Credential store: parameter and state checks *)

(** C8: [getCredential] and [removeCredential] answer an empty SSID with
    [INVALID_PARAMETER], "SSID cannot be empty", in every store state; the
    check precedes the initialization check, so an uninitialized store gives
    [INVALID_PARAMETER] and not [INVALID_STATE]; the store and the output
    parameter are unchanged. *)
Theorem empty_ssid_rejected_first :
  forall (s : AutoConnectCredentialEnhanced) (out : EnhancedCredential),
    Store.getCredential "" out s
    = (mkACResult INVALID_PARAMETER "SSID cannot be empty", out)
    /\ Store.removeCredential "" s
       = (mkACResult INVALID_PARAMETER "SSID cannot be empty", s)
    /\ Store.getCredential "" out (mkStore (_credentials s) false (_maxCredentials s))
       <> (Store.not_initialized, out)
    /\ Store.removeCredential "" (mkStore (_credentials s) false (_maxCredentials s))
       <> (Store.not_initialized, mkStore (_credentials s) false (_maxCredentials s))
    /\ INVALID_PARAMETER <> INVALID_STATE.
Proof.
  intros s out. repeat split; discriminate.
Qed.

Lemma length_zero_empty (name : string) : (String.length name =? 0)%nat = true <-> name = "".
Proof.
  destruct name; simpl; split; intros H; try reflexivity; discriminate.
Qed.

Lemma validate_error (c : EnhancedCredential) :
  isSuccess (Credential.validate c) = false ->
  error (Credential.validate c) = INVALID_PARAMETER.
Proof.
  unfold Credential.validate.
  repeat (match goal with |- context [if ?b then _ else _] => destruct b end);
    simpl; intros H; try reflexivity; discriminate.
Qed.

(** C1 (as the code has it): before [initialize()] has run, [addCredential]
    with a credential that passes [validate()], and [getCredential] and
    [removeCredential] with a non-empty SSID, fail with [INVALID_STATE] and
    leave the store (and the output parameter) unchanged; parameter
    validation comes first, so an invalid credential or an empty SSID is
    answered with [INVALID_PARAMETER], again without touching the store. *)
Theorem uninitialized_store_guard (s : AutoConnectCredentialEnhanced) :
  _initialized s = false ->
  error Store.not_initialized = INVALID_STATE
  /\ (forall c : EnhancedCredential,
        isSuccess (Credential.validate c) = true ->
        Store.addCredential c s = Some (Store.not_initialized, s))
  /\ (forall c : EnhancedCredential,
        isSuccess (Credential.validate c) = false ->
        Store.addCredential c s = Some (Credential.validate c, s)
        /\ error (Credential.validate c) = INVALID_PARAMETER)
  /\ (forall (name : string) (out : EnhancedCredential),
        name <> "" ->
        Store.getCredential name out s = (Store.not_initialized, out))
  /\ (forall name : string,
        name <> "" ->
        Store.removeCredential name s = (Store.not_initialized, s))
  /\ (forall out : EnhancedCredential,
        Store.getCredential "" out s
        = (mkACResult INVALID_PARAMETER "SSID cannot be empty", out))
  /\ Store.removeCredential "" s
     = (mkACResult INVALID_PARAMETER "SSID cannot be empty", s).
Proof.
  intros Hinit. split; [reflexivity |].
  split; [| split; [| split; [| split; [| split]]]].
  - intros c Hv. unfold Store.addCredential. rewrite Hv, Hinit. reflexivity.
  - intros c Hv. unfold Store.addCredential. rewrite Hv. simpl.
    split; [reflexivity | now apply validate_error].
  - intros name out Hne. unfold Store.getCredential.
    destruct (String.length name =? 0)%nat eqn:Hlen.
    + apply length_zero_empty in Hlen. contradiction.
    + rewrite Hinit. reflexivity.
  - intros name Hne. unfold Store.removeCredential.
    destruct (String.length name =? 0)%nat eqn:Hlen.
    + apply length_zero_empty in Hlen. contradiction.
    + rewrite Hinit. reflexivity.
  - reflexivity.
  - reflexivity.
Qed.

Lemma uninitialized_store_guard_witness :
  _initialized (Store.make 10) = false
  /\ Store.getCredential "home" Credential.make (Store.make 10)
     = (mkACResult INVALID_STATE "Credential system not initialized", Credential.make)
  /\ Store.removeCredential "home" (Store.make 10)
     = (mkACResult INVALID_STATE "Credential system not initialized", Store.make 10).
Proof.
  destruct (uninitialized_store_guard (Store.make 10) eq_refl)
    as (_ & _ & _ & Hget & Hrem & _ & _).
  split; [reflexivity |].
  split; [apply Hget; discriminate | apply Hrem; discriminate].
Defined.

(** C1 as stated fails on an uninitialized store: an empty SSID or an invalid
    credential is answered with [INVALID_PARAMETER], and [clearAll] and
    [exportToJSON] report [SUCCESS]. *)
Lemma uninitialized_store_other_results :
  _initialized (Store.make 10) = false
  /\ error (fst (Store.getCredential "" Credential.make (Store.make 10)))
     = INVALID_PARAMETER
  /\ error (fst (Store.removeCredential "" (Store.make 10))) = INVALID_PARAMETER
  /\ (exists r, Store.addCredential Credential.make (Store.make 10)
                = Some (r, Store.make 10) /\ error r = INVALID_PARAMETER)
  /\ error (fst (Store.clearAll (Store.make 10))) = SUCCESS
  /\ error (fst (Store.exportToJSON (Store.make 10))) = SUCCESS
  /\ INVALID_PARAMETER <> INVALID_STATE
  /\ SUCCESS <> INVALID_STATE.
Proof.
  split; [reflexivity |].
  split; [reflexivity |].
  split; [reflexivity |].
  split; [eexists; split; reflexivity |].
  repeat split; discriminate.
Qed.

(** ** Credential store: capacity and eviction *)

Lemma find_ssid_None (name : string) (l : list EnhancedCredential) :
  find_ssid name l = None <-> Forall (fun x => Credential.key x <> cstr name) l.
Proof.
  unfold find_ssid. rewrite fmap_None, list_find_None.
  apply Forall_proper; [| reflexivity].
  intros x. unfold strcmp_eq, Credential.key, Secure.c_str.
  rewrite String.eqb_eq. reflexivity.
Qed.

Lemma find_ssid_fresh (c : EnhancedCredential) (l : list EnhancedCredential) :
  Credential.key c ∉ map Credential.key l ->
  find_ssid (_data (ssid c)) l = None.
Proof.
  intros Hnin. apply find_ssid_None. apply Forall_forall. intros x Hx Heq.
  apply Hnin. apply list_elem_of_fmap. exists x. split; [| assumption].
  symmetry. exact Heq.
Qed.

(** The scan of [std::min_element]: with [best] the earliest minimum of the
    part already seen ([pre ++ best :: post]), the index returned splits the
    whole range around its earliest minimum. *)
Lemma min_element_from_spec (r : list EnhancedCredential) :
  forall (pre : list EnhancedCredential) (best : EnhancedCredential)
         (post : list EnhancedCredential),
    Forall (fun x => timestamp best < timestamp x) pre ->
    Forall (fun x => timestamp best <= timestamp x) post ->
    exists l1 e l2,
      pre ++ best :: post ++ r = l1 ++ e :: l2
      /\ min_element_from (length pre) best (length pre + 1 + length post) r
         = length l1
      /\ Forall (fun x => timestamp e < timestamp x) l1
      /\ Forall (fun x => timestamp e <= timestamp x) l2.
Proof.
  induction r as [| x r IH]; intros pre best post Hpre Hpost; simpl.
  - exists pre, best, post. rewrite app_nil_r. auto.
  - destruct (Z.ltb_spec (timestamp x) (timestamp best)) as [Hlt | Hge].
    + destruct (IH (pre ++ best :: post) x []) as (l1 & e & l2 & Heq & Hi & H1 & H2).
      * apply Forall_app. split.
        -- eapply Forall_impl; [exact Hpre |]. simpl. intros; lia.
        -- constructor; [lia |].
           eapply Forall_impl; [exact Hpost |]. simpl. intros; lia.
      * constructor.
      * exists l1, e, l2. split; [| split; [| split]]; try assumption.
        -- rewrite <- Heq. rewrite <- !app_assoc. reflexivity.
        -- rewrite <- Hi. rewrite length_app. simpl. f_equal; lia.
    + destruct (IH pre best (post ++ [x])) as (l1 & e & l2 & Heq & Hi & H1 & H2).
      * assumption.
      * apply Forall_app. split; [assumption |]. constructor; [lia | constructor].
      * exists l1, e, l2. split; [| split; [| split]]; try assumption.
        -- rewrite <- Heq. rewrite <- !app_assoc. reflexivity.
        -- rewrite <- Hi. rewrite length_app. simpl. f_equal; lia.
Qed.

Lemma min_element_spec (l : list EnhancedCredential) :
  l <> [] ->
  exists l1 e l2,
    l = l1 ++ e :: l2
    /\ min_element l = Some (length l1)
    /\ Forall (fun x => timestamp e < timestamp x) l1
    /\ Forall (fun x => timestamp e <= timestamp x) l2.
Proof.
  destruct l as [| x r]; [congruence | intros _].
  destruct (min_element_from_spec r [] x []) as (l1 & e & l2 & Heq & Hi & H1 & H2);
    [constructor | constructor |].
  exists l1, e, l2. simpl in *. rewrite Hi. auto.
Qed.

(** Adding a credential whose SSID is not yet stored, below capacity. *)
Lemma addCredential_append (c : EnhancedCredential) (s : AutoConnectCredentialEnhanced) :
  valid c -> _initialized s = true ->
  Credential.key c ∉ map Credential.key (_credentials s) ->
  (length (_credentials s) < _maxCredentials s)%nat ->
  Store.addCredential c s
  = Some (ACResult_of SUCCESS, Store.with_credentials (_credentials s ++ [c]) s).
Proof.
  intros Hv Hi Hfresh Hlt. unfold Store.addCredential.
  rewrite Hv, Hi. simpl. rewrite (find_ssid_fresh _ _ Hfresh).
  destruct (Nat.leb_spec (_maxCredentials s) (length (_credentials s))); [lia |].
  reflexivity.
Qed.

(** Adding a credential whose SSID is not yet stored, at capacity: the
    earliest entry with the smallest timestamp goes, the new one is
    appended. *)
Lemma addCredential_evict (c : EnhancedCredential) (s : AutoConnectCredentialEnhanced) :
  valid c -> _initialized s = true ->
  Credential.key c ∉ map Credential.key (_credentials s) ->
  (_maxCredentials s <= length (_credentials s))%nat ->
  _credentials s <> [] ->
  exists l1 e l2,
    _credentials s = l1 ++ e :: l2
    /\ Forall (fun x => timestamp e < timestamp x) l1
    /\ Forall (fun x => timestamp e <= timestamp x) l2
    /\ Store.addCredential c s
       = Some (ACResult_of SUCCESS, Store.with_credentials (l1 ++ l2 ++ [c]) s).
Proof.
  intros Hv Hi Hfresh Hge Hne. unfold Store.addCredential.
  rewrite Hv, Hi. simpl. rewrite (find_ssid_fresh _ _ Hfresh).
  destruct (Nat.leb_spec (_maxCredentials s) (length (_credentials s))); [| lia].
  destruct (min_element_spec _ Hne) as (l1 & e & l2 & Heq & Hmin & H1 & H2).
  exists l1, e, l2. rewrite Hmin.
  split; [assumption |]. split; [assumption |]. split; [assumption |].
  replace (delete (length l1) (_credentials s)) with (l1 ++ l2)
    by (rewrite Heq, delete_middle; reflexivity).
  rewrite <- app_assoc. reflexivity.
Qed.

Lemma add_all_app (l1 l2 : list EnhancedCredential) :
  forall s, Store.add_all (l1 ++ l2) s
            = match Store.add_all l1 s with
              | Some s' => Store.add_all l2 s'
              | None => None
              end.
Proof.
  induction l1 as [| c l1 IH]; intros s; simpl; [reflexivity |].
  destruct (Store.addCredential c s) as [[r s'] |]; [apply IH | reflexivity].
Qed.

(** Filling a store with fresh, valid credentials up to its capacity keeps
    them all, in insertion order. *)
Lemma add_all_fill (l : list EnhancedCredential) :
  forall s,
    _initialized s = true ->
    Forall valid l ->
    NoDup (map Credential.key (_credentials s ++ l)) ->
    (length (_credentials s ++ l) <= _maxCredentials s)%nat ->
    Store.add_all l s = Some (Store.with_credentials (_credentials s ++ l) s).
Proof.
  induction l as [| c l IH]; intros s Hi Hv Hnd Hlen.
  - simpl. rewrite app_nil_r. destruct s; reflexivity.
  - simpl. inversion Hv as [| ? ? Hc Hl]; subst.
    rewrite length_app in Hlen. simpl in Hlen.
    rewrite addCredential_append; try assumption; try lia.
    + rewrite IH; simpl; try assumption.
      * rewrite <- app_assoc. reflexivity.
      * rewrite <- app_assoc. exact Hnd.
      * rewrite <- app_assoc, length_app. simpl. lia.
    + rewrite map_app in Hnd. apply NoDup_app in Hnd as (_ & Hdisj & _).
      intros Hin. apply (Hdisj _ Hin). simpl. left.
Qed.

(** The store never grows beyond its capacity: whatever credential is handed
    to [addCredential], a store within a capacity of at least 1 stays within
    it. *)
Lemma addCredential_size (c : EnhancedCredential) (s : AutoConnectCredentialEnhanced) :
  (1 <= _maxCredentials s)%nat ->
  (length (_credentials s) <= _maxCredentials s)%nat ->
  exists r s',
    Store.addCredential c s = Some (r, s')
    /\ _maxCredentials s' = _maxCredentials s
    /\ _initialized s' = _initialized s
    /\ (length (_credentials s') <= _maxCredentials s')%nat.
Proof.
  intros Hmax Hlen. unfold Store.addCredential.
  destruct (negb (isSuccess (Credential.validate c))); [eauto 10 |].
  destruct (negb (_initialized s)); [eauto 10 |].
  destruct (find_ssid _ _) as [it |].
  - eexists _, _. split; [reflexivity |]. simpl.
    rewrite length_insert. auto.
  - destruct (Nat.leb_spec (_maxCredentials s) (length (_credentials s))) as [Hge | Hlt].
    + destruct (_credentials s) as [| x r] eqn:Hc; [simpl in Hge; lia |].
      destruct (min_element_spec (x :: r)) as (l1 & e & l2 & Heq & Hmin & _);
        [discriminate |].
      rewrite Hmin. eexists _, _. split; [reflexivity |]. simpl.
      split; [reflexivity |]. split; [reflexivity |].
      rewrite Heq, delete_middle. rewrite Heq in Hlen.
      rewrite !length_app in *. simpl in *. lia.
    + eexists _, _. split; [reflexivity |]. simpl.
      rewrite length_app. simpl. split; [reflexivity |]. split; [reflexivity |]. lia.
Qed.

(** C4: inserting [maxCredentials + 1] valid credentials with pairwise
    distinct SSIDs into the empty, initialized store of capacity
    [maxCredentials] keeps every call within the capacity and leaves exactly
    [maxCredentials] entries; the one eviction removes the entry with the
    smallest timestamp, the earliest in iteration order among equals. *)
Theorem capacity_plus_one_insertions
        (maxCredentials : nat) (l : list EnhancedCredential) (last : EnhancedCredential) :
  (1 <= maxCredentials)%nat ->
  length l = maxCredentials ->
  Forall valid (l ++ [last]) ->
  NoDup (map Credential.key (l ++ [last])) ->
  let s0 := snd (Store.initialize (Store.make maxCredentials)) in
  (forall k : nat,
      (k <= maxCredentials + 1)%nat ->
      exists sk,
        Store.add_all (take k (l ++ [last])) s0 = Some sk
        /\ (length (_credentials sk) <= maxCredentials)%nat
        /\ length (_credentials sk) = Nat.min k maxCredentials)
  /\ Store.add_all l s0 = Some (Store.with_credentials l s0)
  /\ exists l1 e l2 final,
       l = l1 ++ e :: l2
       /\ Forall (fun x => timestamp e < timestamp x) l1
       /\ Forall (fun x => timestamp e <= timestamp x) l2
       /\ Store.add_all (l ++ [last]) s0 = Some final
       /\ _credentials final = l1 ++ l2 ++ [last]
       /\ length (_credentials final) = maxCredentials.
Proof.
  intros Hmax Hlen Hv Hnd s0.
  apply Forall_app in Hv as [Hvl Hvlast].
  apply Forall_cons in Hvlast as [Hvlast' _].
  assert (Hndl : NoDup (map Credential.key l)).
  { rewrite map_app in Hnd. now apply NoDup_app in Hnd as (? & _ & _). }
  assert (Hfresh : Credential.key last ∉ map Credential.key l).
  { rewrite map_app in Hnd. apply NoDup_app in Hnd as (_ & Hdisj & _).
    intros Hin. apply (Hdisj _ Hin). simpl. left. }
  assert (Hfill : forall k, (k <= length l)%nat ->
             Store.add_all (take k l) s0 = Some (Store.with_credentials (take k l) s0)).
  { intros k Hk. rewrite (add_all_fill (take k l) s0); simpl.
    - reflexivity.
    - reflexivity.
    - now apply Forall_take.
    - rewrite <- (take_drop k l), map_app in Hndl.
      now apply NoDup_app in Hndl as (? & _ & _).
    - rewrite length_take. lia. }
  assert (Hall : Store.add_all l s0 = Some (Store.with_credentials l s0)).
  { rewrite <- (firstn_all l) at 1 2. apply Hfill. lia. }
  assert (Hlast : exists l1 e l2 final,
             l = l1 ++ e :: l2
             /\ Forall (fun x => timestamp e < timestamp x) l1
             /\ Forall (fun x => timestamp e <= timestamp x) l2
             /\ Store.add_all (l ++ [last]) s0 = Some final
             /\ _credentials final = l1 ++ l2 ++ [last]
             /\ length (_credentials final) = length l).
  { destruct (addCredential_evict last (Store.with_credentials l s0))
      as (l1 & e & l2 & Heq & H1 & H2 & Hadd); simpl; try assumption; try lia.
    - destruct l; [simpl in Hlen; lia | discriminate].
    - simpl in Heq. exists l1, e, l2. eexists.
      split; [exact Heq |]. split; [exact H1 |]. split; [exact H2 |].
      rewrite add_all_app, Hall. simpl. rewrite Hadd.
      split; [reflexivity |]. simpl. split; [reflexivity |].
      rewrite Heq. rewrite !length_app. simpl. lia. }
  split; [| split; [exact Hall |]].
  - intros k Hk. destruct (Nat.le_gt_cases k (length l)) as [Hle | Hgt].
    + rewrite take_app_le by assumption. rewrite Hfill by assumption.
      eexists. split; [reflexivity |]. simpl. rewrite length_take. lia.
    + rewrite take_ge by (rewrite length_app; simpl; lia).
      destruct Hlast as (l1 & e & l2 & final & _ & _ & _ & Hadd & _ & Hsz).
      exists final. split; [exact Hadd |]. lia.
  - destruct Hlast as (l1 & e & l2 & final & Heq & H1 & H2 & Hadd & Hc & Hsz).
    exists l1, e, l2, final. rewrite Hlen in Hsz. auto 10.
Qed.

Lemma capacity_plus_one_insertions_witness :
  let l := [cred "attic" 30; cred "barn" 10] in
  let last := cred "cellar" 20 in
  let s0 := snd (Store.initialize (Store.make 2)) in
  ((1 <= 2)%nat /\ length l = 2%nat /\ Forall valid (l ++ [last])
   /\ NoDup (map Credential.key (l ++ [last])))
  /\ Store.add_all l s0 = Some (Store.with_credentials l s0)
  /\ Store.add_all (l ++ [last]) s0
     = Some (Store.with_credentials [cred "attic" 30; cred "cellar" 20] s0).
Proof.
  intros l last s0.
  assert (H1 : (1 <= 2)%nat) by lia.
  assert (H2 : length l = 2%nat) by reflexivity.
  assert (H3 : Forall valid (l ++ [last])) by (repeat constructor).
  assert (H4 : NoDup (map Credential.key (l ++ [last]))).
  { apply (bool_decide_unpack _). vm_compute. exact I. }
  destruct (capacity_plus_one_insertions 2 l last H1 H2 H3 H4) as (_ & Hfill & _).
  split; [auto |]. split; [exact Hfill |]. reflexivity.
Defined.

(** ** Strings *)

Lemma sapp_cons (c : ascii) (a b : string) : String c a +:+ b = String c (a +:+ b).
Proof. reflexivity. Qed.

Lemma sapp_nil_l (s : string) : "" +:+ s = s.
Proof. reflexivity. Qed.

Lemma sapp_nil_r (s : string) : s +:+ "" = s.
Proof.
  induction s as [| c s IH]; [reflexivity |]. now rewrite sapp_cons, IH.
Qed.

Lemma sapp_assoc (a b c : string) : (a +:+ b) +:+ c = a +:+ (b +:+ c).
Proof.
  induction a as [| x a IH]; [reflexivity |]. now rewrite !sapp_cons, IH.
Qed.

Lemma slength_app (a b : string) :
  String.length (a +:+ b) = (String.length a + String.length b)%nat.
Proof.
  induction a as [| x a IH]; [reflexivity |]. rewrite sapp_cons. simpl. now rewrite IH.
Qed.

Lemma truncate_fits (n : nat) (s : string) :
  (String.length s <= n)%nat -> truncate n s = s.
Proof.
  revert s. induction n as [| n IH]; intros [| c s] H; simpl in *;
    try reflexivity; try lia.
  f_equal. apply IH. lia.
Qed.

Lemma cstr_nonul (s : string) : nonul s -> cstr s = s.
Proof.
  induction s as [| c s IH]; simpl; [reflexivity |].
  intros [Hc Hs]. destruct (Ascii.eqb_spec c NUL); [contradiction |].
  now rewrite IH.
Qed.

Lemma nonul_cstr (s : string) : nonul (cstr s).
Proof.
  induction s as [| c s IH]; simpl; [exact I |].
  destruct (Ascii.eqb_spec c NUL); simpl; auto.
Qed.

Lemma nonul_app (a b : string) : nonul a -> nonul b -> nonul (a +:+ b).
Proof.
  induction a as [| c a IH]; [auto |]. rewrite sapp_cons. simpl. intros [? ?] ?. auto.
Qed.

Lemma digit_char_nonul (n : Z) : digit_char (n mod 10) <> NUL.
Proof.
  pose proof (Z.mod_pos_bound n 10 ltac:(lia)) as Hb.
  unfold digit_char.
  assert (Hm : (Z.to_nat (n mod 10) < 10)%nat) by lia.
  revert Hm. generalize (Z.to_nat (n mod 10)) as m. intros m Hm.
  do 10 (destruct m as [| m]; [vm_compute; discriminate |]).
  lia.
Qed.

Lemma utoa_digits_nonul (fuel : nat) :
  forall n acc, nonul acc -> nonul (utoa_digits fuel n acc).
Proof.
  induction fuel as [| f IH]; intros n acc Hacc; simpl; [assumption |].
  assert (nonul (String (digit_char (n mod 10)) acc))
    by (split; [apply digit_char_nonul | assumption]).
  destruct (n / 10 =? 0); [assumption | now apply IH].
Qed.

Lemma utoa_digits_length (fuel : nat) :
  forall n acc,
    (String.length (utoa_digits fuel n acc) <= fuel + String.length acc)%nat.
Proof.
  induction fuel as [| f IH]; intros n acc; simpl; [lia |].
  destruct (n / 10 =? 0); simpl; [lia |].
  specialize (IH (n / 10) (String (digit_char (n mod 10)) acc)). simpl in IH. lia.
Qed.

Lemma utoa32_nonul (v : Z) : nonul (utoa32 v).
Proof. apply utoa_digits_nonul. exact I. Qed.

Lemma utoa32_length (v : Z) : (String.length (utoa32 v) <= 10)%nat.
Proof.
  unfold utoa32. pose proof (utoa_digits_length 10 (wrap32 v) "") as H.
  change (String.length "") with 0%nat in H. lia.
Qed.

(** ** InputSanitizer.sanitizeHTML *)

Lemma prefix_empty (s : string) : String.prefix "" s = true.
Proof. destruct s; reflexivity. Qed.

Lemma replace_one_char (f : ascii) (repl s : string) :
  replace (String f EmptyString) repl s = subst_char f repl s.
Proof.
  unfold replace.
  change (String.length (String f "") =? 0)%nat with false. cbv iota.
  induction s as [| c s IH]; [reflexivity |].
  cbn [replace_from subst_char String.prefix].
  destruct (ascii_dec f c) as [-> | Hne].
  - rewrite Ascii.eqb_refl, prefix_empty. cbn [String.length Nat.sub].
    now rewrite IH.
  - destruct (Ascii.eqb_spec c f) as [-> | _]; [contradiction |].
    now rewrite IH.
Qed.

Lemma subst_char_app (f : ascii) (repl a b : string) :
  subst_char f repl (a +:+ b) = subst_char f repl a +:+ subst_char f repl b.
Proof.
  induction a as [| c a IH]; [reflexivity |].
  rewrite sapp_cons. simpl. rewrite IH.
  destruct (Ascii.eqb c f); [now rewrite sapp_assoc | reflexivity].
Qed.

Lemma sanitizeHTML_subst (s : string) :
  InputSanitizer.sanitizeHTML s
  = subst_char "'" "&#x27;"
      (subst_char "034" "&quot;"
         (subst_char ">" "&gt;"
            (subst_char "<" "&lt;"
               (subst_char "&" "&amp;" s)))).
Proof.
  unfold InputSanitizer.sanitizeHTML, DQ. now rewrite !replace_one_char.
Qed.

Lemma subst_char_cons (f : ascii) (repl : string) (c : ascii) (s : string) :
  subst_char f repl (String c s)
  = subst_char f repl (String c "") +:+ subst_char f repl s.
Proof.
  change (String c s) with (String c "" +:+ s) at 1. apply subst_char_app.
Qed.

(** [InputSanitizer.sanitizeHTML] escapes character by character. *)
Lemma sanitizeHTML_escape (s : string) : InputSanitizer.sanitizeHTML s = escape_all s.
Proof.
  rewrite sanitizeHTML_subst.
  induction s as [| c s IH]; [reflexivity |].
  cbn [escape_all]. rewrite <- IH.
  rewrite subst_char_cons, !subst_char_app. f_equal.
  unfold escape_char. cbn [subst_char].
  destruct (Ascii.eqb_spec c "&") as [-> | H1]; [reflexivity |]. cbn [subst_char].
  destruct (Ascii.eqb_spec c "<") as [-> | H2]; [reflexivity |]. cbn [subst_char].
  destruct (Ascii.eqb_spec c ">") as [-> | H3]; [reflexivity |]. cbn [subst_char].
  destruct (Ascii.eqb_spec c "034") as [-> | H4]; [reflexivity |]. cbn [subst_char].
  destruct (Ascii.eqb_spec c "'") as [-> | H5]; reflexivity.
Qed.

Lemma escape_char_nonul (c : ascii) : c <> NUL -> nonul (escape_char c).
Proof.
  intros Hc. unfold escape_char.
  repeat (match goal with |- context [if ?b then _ else _] => destruct b end);
    simpl; repeat split; try assumption; discriminate.
Qed.

Lemma escape_all_nonul (s : string) : nonul s -> nonul (escape_all s).
Proof.
  induction s as [| c s IH]; [auto |]. intros [Hc Hs]. cbn [escape_all].
  apply nonul_app; [now apply escape_char_nonul | now apply IH].
Qed.

Lemma escape_char_length (c : ascii) : (String.length (escape_char c) <= 6)%nat.
Proof.
  unfold escape_char.
  repeat (match goal with |- context [if ?b then _ else _] => destruct b end);
    simpl; lia.
Qed.

Lemma escape_all_length (s : string) :
  (String.length (escape_all s) <= 6 * String.length s)%nat.
Proof.
  induction s as [| c s IH]; [simpl; lia |]. cbn [escape_all].
  rewrite slength_app. pose proof (escape_char_length c). simpl String.length. lia.
Qed.

Lemma occurs_app (c : ascii) (a b : string) :
  occurs c (a +:+ b) = occurs c a || occurs c b.
Proof.
  induction a as [| x a IH]; [reflexivity |]. rewrite sapp_cons. simpl.
  now rewrite IH, orb_assoc.
Qed.

(** None of the characters that open markup or end an attribute survives
    escaping. *)
Lemma escape_all_clean (s : string) :
  occurs "<" (escape_all s) = false
  /\ occurs ">" (escape_all s) = false
  /\ occurs "034" (escape_all s) = false
  /\ occurs "'" (escape_all s) = false.
Proof.
  induction s as [| c s (IH1 & IH2 & IH3 & IH4)]; [repeat split |].
  cbn [escape_all]. rewrite !occurs_app, IH1, IH2, IH3, IH4, !orb_false_r.
  unfold escape_char.
  destruct (Ascii.eqb_spec c "&"); [repeat split |].
  destruct (Ascii.eqb_spec c "<"); [repeat split |].
  destruct (Ascii.eqb_spec c ">"); [repeat split |].
  destruct (Ascii.eqb_spec c "034"); [repeat split |].
  destruct (Ascii.eqb_spec c "'"); [repeat split |].
  simpl. rewrite !orb_false_r.
  repeat split; apply Ascii.eqb_neq; assumption.
Qed.

(** ** StringBuilder *)

Lemma toString_append (x : string) (b : StringBuilder) :
  Builder.toString (Builder.append x b) = Builder.toString b +:+ cstr x.
Proof.
  unfold Builder.toString, Builder.append. simpl. now rewrite fold_left_app.
Qed.

Lemma toString_appendFormat (fmt : string) (args : list fmt_arg) (b : StringBuilder) :
  Builder.toString (Builder.appendFormat fmt args b)
  = Builder.toString b +:+ cstr (truncate 255 (vformat fmt args)).
Proof. apply toString_append. Qed.

(** A formatted text without NUL that fits the buffer is appended whole. *)
Lemma formatted_whole (text : string) :
  nonul text -> (String.length text <= 255)%nat -> cstr (truncate 255 text) = text.
Proof.
  intros Hn Hl. rewrite truncate_fits by assumption. now apply cstr_nonul.
Qed.

Ltac solve_nonul :=
  repeat first
    [ assumption
    | apply utoa32_nonul
    | apply nonul_cstr
    | apply nonul_app
    | progress (simpl nonul; repeat split; try discriminate) ].

Lemma format_ssid (x : string) :
  nonul x -> (String.length x <= 192)%nat ->
  cstr (truncate 255
          (vformat (DQ +:+ "ssid" +:+ DQ +:+ ":" +:+ DQ +:+ "%s" +:+ DQ +:+ ",")
                   [ArgS x]))
  = DQ +:+ "ssid" +:+ DQ +:+ ":" +:+ DQ +:+ x +:+ DQ +:+ ",".
Proof.
  intros Hn Hl.
  change (vformat _ _)
    with ((DQ +:+ "ssid" +:+ DQ +:+ ":" +:+ DQ) +:+ cstr x +:+ (DQ +:+ ",")).
  rewrite (cstr_nonul x Hn).
  rewrite formatted_whole.
  - now rewrite !sapp_assoc.
  - unfold DQ. solve_nonul.
  - rewrite !slength_app. unfold DQ. simpl String.length. lia.
Qed.

Lemma format_useStatic (b : bool) :
  cstr (truncate 255
          (vformat (DQ +:+ "useStatic" +:+ DQ +:+ ":%s,") [ArgS (Store.bool_text b)]))
  = DQ +:+ "useStatic" +:+ DQ +:+ ":" +:+ (if b then "true" else "false") +:+ ",".
Proof. destruct b; reflexivity. Qed.

Lemma format_u (key : string) (tail : string) (v : Z) :
  nonul key -> nonul tail ->
  (String.length key + String.length tail <= 200)%nat ->
  vformat (DQ +:+ key +:+ DQ +:+ ":%u" +:+ tail) [ArgU v]
  = DQ +:+ key +:+ DQ +:+ ":" +:+ utoa32 v +:+ vformat tail [] ->
  vformat tail [] = tail ->
  cstr (truncate 255 (vformat (DQ +:+ key +:+ DQ +:+ ":%u" +:+ tail) [ArgU v]))
  = DQ +:+ key +:+ DQ +:+ ":" +:+ utoa32 v +:+ tail.
Proof.
  intros Hk Ht Hl -> ->.
  rewrite formatted_whole; [reflexivity | |].
  - unfold DQ. solve_nonul.
  - rewrite !slength_app. pose proof (utoa32_length v). unfold DQ.
    simpl String.length. lia.
Qed.

Lemma format_timestamp (v : Z) :
  cstr (truncate 255 (vformat (DQ +:+ "timestamp" +:+ DQ +:+ ":%u,") [ArgU v]))
  = DQ +:+ "timestamp" +:+ DQ +:+ ":" +:+ utoa32 v +:+ ",".
Proof.
  apply (format_u "timestamp" "," v); try reflexivity; try solve_nonul.
  simpl. lia.
Qed.

Lemma format_connectionCount (v : Z) :
  cstr (truncate 255 (vformat (DQ +:+ "connectionCount" +:+ DQ +:+ ":%u") [ArgU v]))
  = DQ +:+ "connectionCount" +:+ DQ +:+ ":" +:+ utoa32 v.
Proof.
  rewrite <- (sapp_nil_r (DQ +:+ "connectionCount" +:+ DQ +:+ ":" +:+ utoa32 v)).
  rewrite !sapp_assoc.
  apply (format_u "connectionCount" "" v); try reflexivity; try solve_nonul.
  simpl. lia.
Qed.

(** ** Export snapshot *)

Lemma sanitized_key_fits (c : EnhancedCredential) :
  (String.length (Credential.key c) <= 32)%nat ->
  nonul (InputSanitizer.sanitizeHTML (cstr (_data (ssid c))))
  /\ (String.length (InputSanitizer.sanitizeHTML (cstr (_data (ssid c)))) <= 192)%nat.
Proof.
  intros Hl. rewrite sanitizeHTML_escape. split.
  - apply escape_all_nonul, nonul_cstr.
  - pose proof (escape_all_length (cstr (_data (ssid c)))) as H.
    unfold Credential.key, Secure.c_str in Hl. lia.
Qed.

(** What the store admits fits: a credential that passes [validate()] and
    whose SSID buffer satisfies the representation invariant has an SSID of
    at most 32 characters. *)
Lemma valid_key_fits (c : EnhancedCredential) :
  valid c -> secure_wf (ssid c) -> (String.length (Credential.key c) <= 32)%nat.
Proof.
  unfold valid, Credential.validate, Credential.key, Secure.length, Secure.isEmpty.
  intros Hv (_ & _ & Hc).
  destruct (_length (ssid c) =? 0)%nat; [discriminate |].
  destruct (Nat.ltb_spec 32 (_length (ssid c))); [discriminate |]. lia.
Qed.

Lemma toString_export_entry (i : nat) (c : EnhancedCredential) (json : StringBuilder) :
  (String.length (Credential.key c) <= 32)%nat ->
  Builder.toString (Store.export_entry i c json)
  = Builder.toString json +:+ (if (0 <? i)%nat then "," else "") +:+ entry_text c.
Proof.
  intros Hl. destruct (sanitized_key_fits c Hl) as [Hn Hf].
  unfold Store.export_entry.
  rewrite toString_append, !toString_appendFormat, toString_append.
  rewrite format_ssid, format_useStatic, format_timestamp, format_connectionCount
    by assumption.
  rewrite sanitizeHTML_escape.
  unfold entry_text, Credential.key, Secure.c_str.
  destruct (0 <? i)%nat.
  - rewrite toString_append. change (cstr ",") with ",". change (cstr "{") with "{".
    change (cstr "}") with "}". now rewrite !sapp_assoc.
  - change (cstr "{") with "{". change (cstr "}") with "}".
    rewrite sapp_nil_l. now rewrite !sapp_assoc.
Qed.

Lemma toString_export_loop (l : list EnhancedCredential) :
  forall (i : nat) (json : StringBuilder),
    Forall (fun c => (String.length (Credential.key c) <= 32)%nat) l ->
    Builder.toString (Store.export_loop (S i) l json)
    = Builder.toString json +:+ comma_entries l.
Proof.
  induction l as [| c l IH]; intros i json Hl; simpl.
  - now rewrite sapp_nil_r.
  - apply Forall_cons in Hl as [Hc Hl].
    rewrite IH by assumption. rewrite toString_export_entry by assumption.
    change (0 <? S i)%nat with true. cbv iota. now rewrite !sapp_assoc.
Qed.

Lemma concat_comma_entries (c : EnhancedCredential) (l : list EnhancedCredential) :
  String.concat "," (map entry_text (c :: l)) = entry_text c +:+ comma_entries l.
Proof.
  revert c. induction l as [| d l IH]; intros c.
  - simpl. now rewrite sapp_nil_r.
  - change (String.concat "," (map entry_text (c :: d :: l)))
      with (entry_text c +:+ "," +:+ String.concat "," (map entry_text (d :: l))).
    rewrite IH. reflexivity.
Qed.

Lemma export_entry_password (i : nat) (a b : EnhancedCredential) (json : StringBuilder) :
  same_but_password a b -> Store.export_entry i a json = Store.export_entry i b json.
Proof. intros <-. reflexivity. Qed.

Lemma export_loop_password (l l' : list EnhancedCredential) :
  Forall2 same_but_password l l' ->
  forall i json, Store.export_loop i l json = Store.export_loop i l' json.
Proof.
  induction 1 as [| a b l l' Hab Hl IH]; intros i json; simpl; [reflexivity |].
  rewrite (export_entry_password i a b json Hab). apply IH.
Qed.

(** C5: the text [exportToJSON] produces does not depend on any password
    (stores that differ only in password contents export the same text); as
    long as the stored SSIDs are at most 32 characters long, the text is the
    snapshot format, every entry carrying exactly the keys [ssid],
    [useStatic], [timestamp], [connectionCount] in this order; and the SSID
    embedded is the character-by-character HTML escape, in which no [<],
    [>], double quote or single quote is left. *)
Theorem exportToJSON_spec (s : AutoConnectCredentialEnhanced) :
  (forall s' : AutoConnectCredentialEnhanced,
      Forall2 same_but_password (_credentials s) (_credentials s') ->
      Store.exportToJSON s' = Store.exportToJSON s)
  /\ (Forall (fun c => (String.length (Credential.key c) <= 32)%nat) (_credentials s) ->
      Store.exportToJSON s = (ACResult_of SUCCESS, snapshot_text (_credentials s)))
  /\ (forall name : string,
         InputSanitizer.sanitizeHTML name = escape_all name
         /\ occurs "<" (InputSanitizer.sanitizeHTML name) = false
         /\ occurs ">" (InputSanitizer.sanitizeHTML name) = false
         /\ occurs "034" (InputSanitizer.sanitizeHTML name) = false
         /\ occurs "'" (InputSanitizer.sanitizeHTML name) = false).
Proof.
  split; [| split].
  - intros s' H. unfold Store.exportToJSON.
    now rewrite (export_loop_password _ _ H).
  - intros Hl. unfold Store.exportToJSON. f_equal.
    rewrite toString_append. unfold snapshot_text.
    destruct (_credentials s) as [| c l].
    + reflexivity.
    + apply Forall_cons in Hl as [Hc Hl].
      cbn [Store.export_loop]. rewrite toString_export_loop by assumption.
      rewrite toString_export_entry by assumption.
      rewrite concat_comma_entries. change (0 <? 0)%nat with false. cbv iota.
      rewrite toString_append. change (cstr "]}") with "]}".
      rewrite sapp_nil_l, !sapp_assoc. reflexivity.
  - intros name. rewrite sanitizeHTML_escape.
    split; [reflexivity | apply escape_all_clean].
Qed.

Lemma exportToJSON_spec_witness :
  let s := mkStore [cred "attic<b>" 30; cred "barn" 10] true 5 in
  let s' := mkStore [Credential.with_password (snd (Secure.set "hunter2hunter2" (Secure.make 64)))
                       (cred "attic<b>" 30); cred "barn" 10] true 5 in
  Forall2 same_but_password (_credentials s) (_credentials s')
  /\ Forall (fun c => (String.length (Credential.key c) <= 32)%nat) (_credentials s)
  /\ Store.exportToJSON s' = Store.exportToJSON s
  /\ snd (Store.exportToJSON s) = snapshot_text (_credentials s).
Proof.
  intros s s'.
  assert (H1 : Forall2 same_but_password (_credentials s) (_credentials s'))
    by (repeat constructor).
  assert (H2 : Forall (fun c => (String.length (Credential.key c) <= 32)%nat)
                      (_credentials s)).
  { repeat constructor; vm_compute; lia. }
  destruct (exportToJSON_spec s) as (Hpw & Htext & _).
  split; [exact H1 |]. split; [exact H2 |].
  split; [exact (Hpw s' H1) |]. now rewrite (Htext H2).
Defined.

(** ** Connection orchestrator *)

Section OrchestratorProperties.

Variable ESP32 : bool.
Variables AC_TIMEOUT AC_CAPTIVEPORTAL : Z.
Variable begin : option string -> option string -> Z -> Device -> bool * Device.
Variable portalStatus : Device -> Z.

Local Abbreviation attempt := (Core.attempt ESP32 AC_TIMEOUT AC_CAPTIVEPORTAL begin portalStatus).
Local Abbreviation connect_loop := (Core.connect_loop ESP32 AC_TIMEOUT AC_CAPTIVEPORTAL begin portalStatus).
Local Abbreviation attempts := (Core.attempts ESP32 AC_TIMEOUT AC_CAPTIVEPORTAL begin portalStatus).
Local Abbreviation connectToWiFi := (Core.connectToWiFi ESP32 AC_TIMEOUT AC_CAPTIVEPORTAL begin portalStatus).
Local Abbreviation attempts_of := (Core.attempts_of ESP32 AC_TIMEOUT AC_CAPTIVEPORTAL begin portalStatus).
Local Abbreviation connect := (Core.connect ESP32 AC_TIMEOUT AC_CAPTIVEPORTAL begin portalStatus).

(** One unfolding of the loop. *)
Lemma connect_loop_step fuel cfg timeout retries w :
  connect_loop (S fuel) cfg timeout retries w
  = if Core.keep_trying cfg timeout retries w then
      if isSuccess (fst (attempt cfg w)) then Some (attempt cfg w)
      else connect_loop fuel cfg timeout (Core.next_retries retries)
             (Core.pause cfg (Core.next_retries retries) (snd (attempt cfg w)))
    else Some (Core.failure_after retries, w).
Proof.
  simpl.
  destruct (Core.keep_trying cfg timeout retries w); [| reflexivity].
  destruct (Core.attempt _ _ _ _ _ cfg w) as [r w1]. reflexivity.
Qed.

Lemma attempts_step fuel cfg timeout retries w :
  attempts (S fuel) cfg timeout retries w
  = if Core.keep_trying cfg timeout retries w then
      if isSuccess (fst (attempt cfg w)) then [fst (attempt cfg w)]
      else fst (attempt cfg w)
           :: attempts fuel cfg timeout (Core.next_retries retries)
                (Core.pause cfg (Core.next_retries retries) (snd (attempt cfg w)))
    else [].
Proof.
  simpl.
  destruct (Core.keep_trying cfg timeout retries w); [| reflexivity].
  destruct (Core.attempt _ _ _ _ _ cfg w) as [r w1]. reflexivity.
Qed.

(** As soon as one attempt succeeds the loop returns its result. *)
Lemma connect_loop_success fuel cfg timeout :
  forall retries w,
    Exists succeeded (attempts fuel cfg timeout retries w) ->
    exists r w',
      connect_loop fuel cfg timeout retries w = Some (r, w')
      /\ succeeded r
      /\ last (attempts fuel cfg timeout retries w) = Some r.
Proof.
  induction fuel as [| fuel IH]; intros retries w Hex.
  - inversion Hex.
  - rewrite attempts_step in Hex |- *. rewrite connect_loop_step.
    destruct (Core.keep_trying cfg timeout retries w); [| inversion Hex].
    destruct (attempt cfg w) as [r w1] eqn:Ha. simpl in *.
    destruct (isSuccess r) eqn:Hr.
    + exists r, w1. auto.
    + apply Exists_cons in Hex as [Hhead | Htail].
      * unfold succeeded in Hhead. congruence.
      * destruct (IH _ _ Htail) as (r' & w' & Hloop & Hs & Hlast).
        exists r', w'. split; [assumption |]. split; [assumption |].
        rewrite last_cons, Hlast. reflexivity.
Qed.

(** A loop that ends without success returns the statement after the loop:
    [WIFI_CONNECT_FAILED], with the number of attempts in the message. *)
Lemma connect_loop_failure fuel cfg timeout :
  0 <= NetworkConfig.maxRetries cfg < 256 ->
  forall retries w r w',
    0 <= retries <= NetworkConfig.maxRetries cfg ->
    connect_loop fuel cfg timeout retries w = Some (r, w') ->
    failed r ->
    r = Core.failure_after
          (retries + Z.of_nat (length (attempts fuel cfg timeout retries w)))
    /\ Forall failed (attempts fuel cfg timeout retries w).
Proof.
  intros Hmax. induction fuel as [| fuel IH]; intros retries w r w' Hr Hloop Hf.
  - discriminate.
  - rewrite attempts_step. rewrite connect_loop_step in Hloop.
    destruct (Core.keep_trying cfg timeout retries w) eqn:Hk.
    + destruct (attempt cfg w) as [r1 w1] eqn:Ha. simpl in *.
      destruct (isSuccess r1) eqn:Hr1.
      * injection Hloop as <- <-. unfold failed in Hf. congruence.
      * apply andb_true_iff in Hk as [Hlt _]. apply Z.ltb_lt in Hlt.
        assert (Hn : Core.next_retries retries = retries + 1).
        { unfold Core.next_retries. apply wrap8_small. lia. }
        rewrite Hn in *.
        assert (Hr' : 0 <= retries + 1 <= NetworkConfig.maxRetries cfg) by lia.
        destruct (IH _ _ _ _ Hr' Hloop Hf) as [Heq Hall].
        split.
        -- rewrite Heq. f_equal. simpl length. lia.
        -- constructor; assumption.
    + injection Hloop as <- <-. split; [f_equal; simpl; lia | constructor].
Qed.

(** The loop runs out of neither retries nor fuel: [retries] climbs to
    [maxRetries], which a [uint8_t] keeps below 256. *)
Lemma connect_loop_total fuel cfg timeout :
  0 <= NetworkConfig.maxRetries cfg < 256 ->
  forall retries w,
    0 <= retries <= NetworkConfig.maxRetries cfg ->
    (Z.to_nat (NetworkConfig.maxRetries cfg - retries) < fuel)%nat ->
    exists r w', connect_loop fuel cfg timeout retries w = Some (r, w').
Proof.
  intros Hmax. induction fuel as [| fuel IH]; intros retries w Hr Hfuel; [lia |].
  rewrite connect_loop_step.
  destruct (Core.keep_trying cfg timeout retries w) eqn:Hk; [| eauto].
  destruct (attempt cfg w) as [r1 w1] eqn:Ha. simpl.
  destruct (isSuccess r1); [eauto |].
  apply andb_true_iff in Hk as [Hlt _]. apply Z.ltb_lt in Hlt.
  assert (Hn : Core.next_retries retries = retries + 1).
  { unfold Core.next_retries. apply wrap8_small. lia. }
  rewrite Hn. apply IH; lia.
Qed.

Lemma connectToWiFi_total cfg w :
  0 <= NetworkConfig.maxRetries cfg < 256 ->
  exists r w', connectToWiFi cfg w = Some (r, w').
Proof.
  intros Hmax. unfold Core.connectToWiFi.
  destruct (Core.prepare cfg w) as [w0 | [r w']]; [| eauto].
  apply connect_loop_total; [assumption | lia |].
  unfold Core.loop_fuel. lia.
Qed.

(** A configuration that gets past [prepare] passed [validate()]. *)
Lemma prepare_validated cfg w w0 :
  Core.prepare cfg w = inl w0 ->
  5000 <= NetworkConfig.connectionTimeoutMs cfg <= 300000.
Proof.
  unfold Core.prepare, NetworkConfig.validate.
  destruct (negb (InputSanitizer.isValidSSID _)); [discriminate |].
  destruct (negb (InputSanitizer.isValidPassword _)); [discriminate |].
  destruct (_ && _); [discriminate |].
  destruct (Z.ltb_spec (NetworkConfig.connectionTimeoutMs cfg) 5000);
    [discriminate |].
  destruct (Z.ltb_spec 300000 (NetworkConfig.connectionTimeoutMs cfg));
    [discriminate |].
  intros _. lia.
Qed.

(** The budget has not expired when the loop is entered. *)
Lemma fresh_timeout_not_expired (budget now : Z) :
  0 < budget -> Timeout.isExpired (Timeout.make budget now) now = false.
Proof.
  intros Hb. unfold Timeout.isExpired, Timeout.make. simpl.
  rewrite Z.sub_diag. change (wrap32 0) with 0. apply Z.leb_gt. lia.
Qed.

(** C6: with [maxRetries = 3], each of the three attempts answered by
    [beginWithResult] with an error, and the budget still running when the
    second and the third attempt start, [connectToWiFi] returns
    [WIFI_CONNECT_FAILED] and the message reports 3 attempts. *)
Theorem three_failed_attempts (cfg : NetworkConfig.t) (w w0 : Device) :
  NetworkConfig.maxRetries cfg = 3 ->
  Core.prepare cfg w = inl w0 ->
  let a1 := attempt cfg w0 in
  let w1 := Core.delay 1000 (snd a1) in
  let a2 := attempt cfg w1 in
  let w2 := Core.delay 1000 (snd a2) in
  let a3 := attempt cfg w2 in
  let budget := Timeout.make (NetworkConfig.connectionTimeoutMs cfg) (Core.millis w0) in
  failed (fst a1) -> failed (fst a2) -> failed (fst a3) ->
  Timeout.isExpired budget (Core.millis w1) = false ->
  Timeout.isExpired budget (Core.millis w2) = false ->
  connectToWiFi cfg w
  = Some (mkACResult WIFI_CONNECT_FAILED "Failed to connect after 3 attempts", snd a3)
  /\ attempts_of cfg w = [fst a1; fst a2; fst a3].
Proof.
  intros Hmax Hprep a1 w1 a2 w2 a3 budget Hf1 Hf2 Hf3 He1 He2.
  pose proof (prepare_validated _ _ _ Hprep) as Hrange.
  assert (He0 : Timeout.isExpired budget (Core.millis w0) = false)
    by (apply fresh_timeout_not_expired; lia).
  unfold Core.connectToWiFi, Core.attempts_of. rewrite Hprep.
  fold budget. unfold Core.loop_fuel.
  change 256%nat with (S (S (S (S 252)))).
  unfold failed in *.
  assert (Hk0 : Core.keep_trying cfg budget 0 w0 = true)
    by (unfold Core.keep_trying; rewrite Hmax, He0; reflexivity).
  assert (Hk1 : Core.keep_trying cfg budget 1 w1 = true)
    by (unfold Core.keep_trying; rewrite Hmax, He1; reflexivity).
  assert (Hk2 : Core.keep_trying cfg budget 2 w2 = true)
    by (unfold Core.keep_trying; rewrite Hmax, He2; reflexivity).
  assert (Hk3 : forall w', Core.keep_trying cfg budget 3 w' = false)
    by (intros w'; unfold Core.keep_trying; rewrite Hmax; reflexivity).
  assert (Hp1 : Core.pause cfg 1 (snd a1) = w1)
    by (unfold Core.pause; rewrite Hmax; reflexivity).
  assert (Hp2 : Core.pause cfg 2 (snd a2) = w2)
    by (unfold Core.pause; rewrite Hmax; reflexivity).
  assert (Hp3 : Core.pause cfg 3 (snd a3) = snd a3)
    by (unfold Core.pause; rewrite Hmax; reflexivity).
  split.
  - rewrite connect_loop_step, Hk0. fold a1. rewrite Hf1.
    change (Core.next_retries 0) with 1. rewrite Hp1.
    rewrite connect_loop_step, Hk1. fold a2. rewrite Hf2.
    change (Core.next_retries 1) with 2. rewrite Hp2.
    rewrite connect_loop_step, Hk2. fold a3. rewrite Hf3.
    change (Core.next_retries 2) with 3. rewrite Hp3.
    rewrite connect_loop_step, Hk3. reflexivity.
  - rewrite attempts_step, Hk0. fold a1. rewrite Hf1.
    change (Core.next_retries 0) with 1. rewrite Hp1.
    rewrite attempts_step, Hk1. fold a2. rewrite Hf2.
    change (Core.next_retries 1) with 2. rewrite Hp2.
    rewrite attempts_step, Hk2. fold a3. rewrite Hf3.
    change (Core.next_retries 2) with 3. rewrite Hp3.
    rewrite attempts_step, Hk3. reflexivity.
Qed.

(** C3 (as the code has it): a connection sequence that reaches the retry
    loop and ends without success returns [WIFI_CONNECT_FAILED] with the
    number of attempts made in the message, whether the retry count or the
    time budget ended it; [connectionTimeoutMs] is the per-attempt timeout
    and the overall budget at once, and with [maxRetries = 5],
    [connectionTimeoutMs = 10000] and a first attempt that fails after
    10000 ms the sequence ends after exactly 1 attempt. The call always
    returns. *)
Theorem failed_sequence_is_connect_failed :
  (forall (cfg : NetworkConfig.t) (w w0 : Device) (r : ACResult) (w' : Device),
      0 <= NetworkConfig.maxRetries cfg < 256 ->
      Core.prepare cfg w = inl w0 ->
      connectToWiFi cfg w = Some (r, w') ->
      failed r ->
      r = Core.failure_after (Z.of_nat (length (attempts_of cfg w)))
      /\ error r = WIFI_CONNECT_FAILED
      /\ Forall failed (attempts_of cfg w))
  /\ (forall (cfg : NetworkConfig.t) (w w0 : Device),
        NetworkConfig.maxRetries cfg = 5 ->
        NetworkConfig.connectionTimeoutMs cfg = 10000 ->
        Core.prepare cfg w = inl w0 ->
        failed (fst (attempt cfg w0)) ->
        Core.millis (snd (attempt cfg w0)) = wrap32 (Core.millis w0 + 10000) ->
        connectToWiFi cfg w
        = Some (mkACResult WIFI_CONNECT_FAILED "Failed to connect after 1 attempts",
                Core.delay 1000 (snd (attempt cfg w0)))
        /\ attempts_of cfg w = [fst (attempt cfg w0)])
  /\ (forall (cfg : NetworkConfig.t) (w : Device),
        0 <= NetworkConfig.maxRetries cfg < 256 ->
        exists r w', connectToWiFi cfg w = Some (r, w')).
Proof.
  split; [| split; [| intros cfg w Hmax; now apply connectToWiFi_total]].
  - intros cfg w w0 r w' Hmax Hprep Hrun Hf.
    unfold Core.connectToWiFi in Hrun. unfold Core.attempts_of.
    rewrite Hprep in *.
    destruct (connect_loop_failure _ _ _ Hmax 0 w0 r w' ltac:(lia) Hrun Hf)
      as [Heq Hall].
    split; [exact Heq |]. split; [rewrite Heq; reflexivity | exact Hall].
  - intros cfg w w0 Hmax Hbudget Hprep Hf Hclock.
    unfold Core.connectToWiFi, Core.attempts_of. rewrite Hprep, Hbudget.
    unfold Core.loop_fuel. change 256%nat with (S (S 254)).
    set (budget := Timeout.make 10000 (Core.millis w0)).
    assert (Hk0 : Core.keep_trying cfg budget 0 w0 = true).
    { unfold Core.keep_trying. rewrite Hmax.
      unfold budget. rewrite fresh_timeout_not_expired by lia. reflexivity. }
    assert (Hp : Core.pause cfg 1 (snd (attempt cfg w0))
                 = Core.delay 1000 (snd (attempt cfg w0)))
      by (unfold Core.pause; rewrite Hmax; reflexivity).
    assert (Hk1 : Core.keep_trying cfg budget 1
                    (Core.delay 1000 (snd (attempt cfg w0))) = false).
    { unfold Core.keep_trying. rewrite Hmax.
      unfold Timeout.isExpired, budget, Timeout.make, Core.delay, Core.millis in *.
      simpl. rewrite Hclock. unfold wrap32.
      rewrite Zplus_mod_idemp_l, Zminus_mod_idemp_l.
      replace (clock w0 + 10000 + 1000 - clock w0) with 11000 by lia.
      reflexivity. }
    unfold failed in Hf.
    split.
    + rewrite connect_loop_step, Hk0, Hf.
      change (Core.next_retries 0) with 1. rewrite Hp.
      rewrite connect_loop_step, Hk1. reflexivity.
    + rewrite attempts_step, Hk0, Hf.
      change (Core.next_retries 0) with 1. rewrite Hp.
      rewrite attempts_step, Hk1. reflexivity.
Qed.

(** C2 (as the code has it): when some attempt of a connection sequence
    succeeds, [connectToWiFi] returns that attempt's success; the credential
    store is not touched by the orchestrator, so every stored credential,
    the one matching the network included, keeps its [connectionCount] and
    [timestamp]. *)
Theorem success_returned_store_untouched (cfg : NetworkConfig.t) (sys : System) :
  (forall (r : ACResult) (sys' : System),
      connect cfg sys = Some (r, sys') -> store sys' = store sys)
  /\ (Exists succeeded (attempts_of cfg (device sys)) ->
      exists r w',
        connect cfg sys = Some (r, mkSystem w' (store sys))
        /\ succeeded r
        /\ last (attempts_of cfg (device sys)) = Some r).
Proof.
  split.
  - intros r sys'. unfold Core.connect.
    destruct (connectToWiFi cfg (device sys)) as [[r0 w0] |]; [| discriminate].
    intros [= <- <-]. reflexivity.
  - unfold Core.connect, Core.attempts_of, Core.connectToWiFi.
    destruct (Core.prepare cfg (device sys)) as [w0 | early].
    + intros Hex. destruct (connect_loop_success _ _ _ _ _ Hex)
        as (r & w' & Hloop & Hs & Hlast).
      exists r, w'. rewrite Hloop. auto.
    + intros Hex. inversion Hex.
Qed.

End OrchestratorProperties.

(** ** Orchestrator scenarios *)

Lemma three_failed_attempts_witness :
  scripted_connectToWiFi (failing_begin 5000 0) (home_config 30000 3) booted
  = Some (mkACResult WIFI_CONNECT_FAILED "Failed to connect after 3 attempts",
          with_clock_status 17000 0
            (Core._updateMemoryStats false (with_clock_status 12000 0 booted)))
  /\ length (scripted_attempts (failing_begin 5000 0) (home_config 30000 3) booted)
     = 3%nat.
Proof.
  unfold scripted_connectToWiFi, scripted_attempts.
  destruct (three_failed_attempts false AC_TIMEOUT_bit AC_CAPTIVEPORTAL_bit
              (failing_begin 5000 0) _portalStatus (home_config 30000 3) booted booted)
    as [Hrun Hlog]; try reflexivity.
  split; [rewrite Hrun; reflexivity | rewrite Hlog; reflexivity].
Defined.

Lemma failed_sequence_is_connect_failed_witness :
  scripted_connectToWiFi (failing_begin 10000 4) (home_config 10000 5) booted
  = Some (mkACResult WIFI_CONNECT_FAILED "Failed to connect after 1 attempts",
          Core.delay 1000
            (with_clock_status 10000 4 (Core._updateMemoryStats false booted)))
  /\ scripted_attempts (failing_begin 10000 4) (home_config 10000 5) booted
     = [mkACResult WIFI_TIMEOUT "WiFi connection timeout"].
Proof.
  unfold scripted_connectToWiFi, scripted_attempts.
  destruct (failed_sequence_is_connect_failed false AC_TIMEOUT_bit AC_CAPTIVEPORTAL_bit
              (failing_begin 10000 4) _portalStatus) as (_ & Hscenario & _).
  destruct (Hscenario (home_config 10000 5) booted booted) as [Hrun Hlog];
    try reflexivity.
  split; [rewrite Hrun; reflexivity | rewrite Hlog; reflexivity].
Defined.

(** C6 as stated fails: with [maxRetries = 3] and a budget of 30000 ms, a
    connect primitive that fails every time it is called, after 5000 ms and
    with the captive-portal bit alone set, is called once:
    [beginWithResult] reports the started portal as a success, and
    [connectToWiFi] returns it after 1 attempt, with the budget still
    running. *)
Lemma captive_portal_ends_failing_sequence :
  (forall ssid passphrase timeout w,
      fst (failing_begin 5000 AC_CAPTIVEPORTAL_bit ssid passphrase timeout w) = false)
  /\ NetworkConfig.maxRetries (home_config 30000 3) = 3
  /\ match scripted_connectToWiFi (failing_begin 5000 AC_CAPTIVEPORTAL_bit)
             (home_config 30000 3) booted with
     | Some (r, w') =>
         r = mkACResult SUCCESS "Captive portal started"
         /\ error r <> WIFI_CONNECT_FAILED
         /\ clock w' = 5000
         /\ Timeout.isExpired (Timeout.make 30000 (clock booted)) (clock w') = false
     | None => False
     end
  /\ scripted_attempts (failing_begin 5000 AC_CAPTIVEPORTAL_bit)
       (home_config 30000 3) booted
     = [mkACResult SUCCESS "Captive portal started"].
Proof.
  split; [reflexivity |]. vm_compute. repeat split; discriminate.
Qed.

(** C3 as stated fails: with [maxRetries = 5] and a budget of 10000 ms used
    up by the first attempt (which itself reports [WIFI_TIMEOUT]), the
    sequence stops after 1 of 5 attempts, so the budget is what ended it, yet
    the error kind is [WIFI_CONNECT_FAILED], not [WIFI_TIMEOUT]. With the one
    setting at 15000 ms and attempts that fail after 10000 ms a second
    attempt is started. *)
Lemma budget_exhausted_not_timeout :
  match scripted_connectToWiFi (failing_begin 10000 4) (home_config 10000 5) booted with
  | Some (r, w') =>
      isSuccess r = false
      /\ error r = WIFI_CONNECT_FAILED
      /\ error r <> WIFI_TIMEOUT
      /\ message r = "Failed to connect after 1 attempts"
      /\ Timeout.isExpired (Timeout.make 10000 (clock booted)) (clock w') = true
  | None => False
  end
  /\ length (scripted_attempts (failing_begin 10000 4) (home_config 10000 5) booted)
     = 1%nat
  /\ NetworkConfig.maxRetries (home_config 10000 5) = 5
  /\ length (scripted_attempts (failing_begin 10000 4) (home_config 15000 5) booted)
     = 2%nat
  /\ option_map (fun out => error (fst out))
        (scripted_connectToWiFi (failing_begin 10000 4) (home_config 15000 5) booted)
     = Some WIFI_CONNECT_FAILED.
Proof.
  vm_compute. repeat split; discriminate.
Qed.

Lemma success_returned_store_untouched_witness :
  Exists succeeded
         (scripted_attempts (late_begin 3000 3000 2000) (home_config 30000 3) booted)
  /\ exists r w',
      scripted_connect (late_begin 3000 3000 2000) (home_config 30000 3)
                       (mkSystem booted home_store)
      = Some (r, mkSystem w' home_store)
      /\ succeeded r.
Proof.
  unfold scripted_connect, scripted_attempts.
  assert (Hex : Exists succeeded
                  (Core.attempts_of false AC_TIMEOUT_bit AC_CAPTIVEPORTAL_bit
                     (late_begin 3000 3000 2000) _portalStatus
                     (home_config 30000 3) booted)).
  { apply Exists_cons_tl, Exists_cons_hd. reflexivity. }
  destruct (success_returned_store_untouched false AC_TIMEOUT_bit AC_CAPTIVEPORTAL_bit
              (late_begin 3000 3000 2000) _portalStatus (home_config 30000 3)
              (mkSystem booted home_store)) as [_ Hsucc].
  destruct (Hsucc Hex) as (r & w' & Hrun & Hs & _).
  split; [exact Hex |]. exists r, w'. split; [exact Hrun | exact Hs].
Defined.

(** C2 as stated fails: attempt 2 of 3 succeeds and [connectToWiFi] returns
    success at clock 6000, but the stored credential for the network keeps
    [connectionCount] 0 and [timestamp] 0. *)
Lemma connect_leaves_stats_unchanged :
  match scripted_connect (late_begin 3000 3000 2000) (home_config 30000 3)
                         (mkSystem booted home_store) with
  | Some (r, sys') =>
      isSuccess r = true
      /\ clock (device sys') = 6000
      /\ fst (Store.getCredential "home" Credential.make (store sys'))
         = ACResult_of SUCCESS
      /\ connectionCount (snd (Store.getCredential "home" Credential.make (store sys')))
         <> connectionCount
              (snd (Store.getCredential "home" Credential.make home_store)) + 1
      /\ timestamp (snd (Store.getCredential "home" Credential.make (store sys')))
         <> clock (device sys')
      /\ store sys' = home_store
  | None => False
  end
  /\ map isSuccess
         (scripted_attempts (late_begin 3000 3000 2000) (home_config 30000 3) booted)
     = [false; true].
Proof.
  vm_compute. repeat split; discriminate.
Qed.

(** * Further properties of the sources *)

(** ** Credential store: lookups *)

Lemma cstr_cstr (s : string) : cstr (cstr s) = cstr s.
Proof. apply cstr_nonul, nonul_cstr. Qed.

Lemma find_ssid_Some (name : string) (l : list EnhancedCredential) (i : nat) :
  find_ssid name l = Some i <->
  exists x, l !! i = Some x
            /\ Credential.key x = cstr name
            /\ forall j y, l !! j = Some y -> (j < i)%nat -> Credential.key y <> cstr name.
Proof.
  unfold find_ssid. rewrite fmap_Some. split.
  - intros [[j x] [Hfind ->]]. apply list_find_Some in Hfind as (Hl & HP & Hleast).
    exists x. split; [exact Hl |]. split.
    + apply String.eqb_eq in HP. exact HP.
    + intros k y Hk Hlt Hkey. apply (Hleast k y Hk Hlt).
      apply String.eqb_eq. exact Hkey.
  - intros (x & Hl & HP & Hleast). exists (i, x). split; [| reflexivity].
    apply list_find_Some. split; [exact Hl |]. split.
    + apply String.eqb_eq. exact HP.
    + intros k y Hk Hlt Hkey. apply (Hleast k y Hk Hlt).
      apply String.eqb_eq in Hkey. exact Hkey.
Qed.

Lemma find_ssid_cstr (name name' : string) (l : list EnhancedCredential) :
  cstr name = cstr name' -> find_ssid name l = find_ssid name' l.
Proof.
  intros Heq. destruct (find_ssid name' l) as [i |] eqn:H.
  - apply find_ssid_Some. apply find_ssid_Some in H. now rewrite Heq.
  - apply find_ssid_None. apply find_ssid_None in H. now rewrite Heq.
Qed.

Lemma find_ssid_is_Some (name : string) (l : list EnhancedCredential) :
  cstr name ∈ map Credential.key l -> exists i, find_ssid name l = Some i.
Proof.
  intros Hin. destruct (find_ssid name l) as [i |] eqn:H; [eauto |].
  apply find_ssid_None in H. apply list_elem_of_fmap in Hin as (x & Hx & Hxl).
  rewrite Forall_forall in H. exfalso. apply (H x Hxl). now symmetry.
Qed.

(** With one entry per SSID a key has one position. *)
Lemma key_position (l : list EnhancedCredential) (i j : nat) (x y : EnhancedCredential) :
  NoDup (map Credential.key l) ->
  l !! i = Some x -> l !! j = Some y -> Credential.key x = Credential.key y -> i = j.
Proof.
  intros Hnd Hi Hj Hk.
  eapply NoDup_lookup; [exact Hnd | |].
  - rewrite list_lookup_fmap, Hi. reflexivity.
  - change (map Credential.key l) with (Credential.key <$> l).
    rewrite list_lookup_fmap, Hj. simpl. now rewrite Hk.
Qed.

(** What a successful [addCredential] leaves behind: the credential at the
    first position carrying its SSID. *)
Lemma addCredential_placed (c : EnhancedCredential) (s s' : AutoConnectCredentialEnhanced)
      (r : ACResult) :
  Store.addCredential c s = Some (r, s') ->
  isSuccess r = true ->
  _initialized s' = true
  /\ exists i, find_ssid (_data (ssid c)) (_credentials s') = Some i
               /\ _credentials s' !! i = Some c.
Proof.
  unfold Store.addCredential.
  destruct (isSuccess (Credential.validate c)) eqn:Hv; simpl.
  2:{ intros [= <- <-] Hr. congruence. }
  destruct (_initialized s) eqn:Hi; simpl.
  2:{ intros [= <- <-] Hr. discriminate. }
  assert (Hfresh : forall l, find_ssid (_data (ssid c)) l = None ->
            find_ssid (_data (ssid c)) (l ++ [c]) = Some (length l)
            /\ (l ++ [c]) !! length l = Some c).
  { intros l Hnone. split.
    - apply find_ssid_Some. exists c. split; [apply list_lookup_middle; reflexivity |].
      split; [reflexivity |].
      intros j y Hj Hlt. rewrite lookup_app_l in Hj by assumption.
      apply find_ssid_None in Hnone. rewrite Forall_forall in Hnone.
      apply Hnone. eapply list_elem_of_lookup_2. exact Hj.
    - apply list_lookup_middle. reflexivity. }
  destruct (find_ssid (_data (ssid c)) (_credentials s)) as [it |] eqn:Hfind.
  - intros [= <- <-] _. simpl. split; [exact Hi |].
    apply find_ssid_Some in Hfind as (x & Hl & HP & Hleast).
    assert (Hlt : (it < length (_credentials s))%nat) by (eapply lookup_lt_Some; eauto).
    exists it. split; [| now apply list_lookup_insert_eq].
    apply find_ssid_Some. exists c.
    split; [now apply list_lookup_insert_eq |]. split; [reflexivity |].
    intros j y Hj Hjlt. rewrite list_lookup_insert_ne in Hj by lia.
    now apply (Hleast j y).
  - destruct (_maxCredentials s <=? length (_credentials s))%nat.
    + destruct (min_element (_credentials s)) as [oldest |]; [| discriminate].
      intros [= <- <-] _. simpl. split; [exact Hi |].
      eexists. apply Hfresh. apply find_ssid_None. apply Forall_delete.
      now apply find_ssid_None.
    + intros [= <- <-] _. simpl. split; [exact Hi |].
      eexists. now apply Hfresh.
Qed.

(** X1: what [addCredential] stores, [getCredential] returns: after a
    successful [addCredential(c)], a lookup under any non-empty name that
    equals the SSID of [c] as a C string succeeds and hands back [c]
    itself, whether [c] was appended, replaced an entry or displaced the
    oldest one. *)
Theorem add_then_get (c out : EnhancedCredential) (s s' : AutoConnectCredentialEnhanced)
        (r : ACResult) (name : string) :
  Store.addCredential c s = Some (r, s') ->
  isSuccess r = true ->
  name <> "" ->
  cstr name = Credential.key c ->
  Store.getCredential name out s' = (ACResult_of SUCCESS, c).
Proof.
  intros Hadd Hr Hne Hname.
  destruct (addCredential_placed c s s' r Hadd Hr) as (Hi & i & Hfind & Hl).
  unfold Store.getCredential.
  destruct (String.length name =? 0)%nat eqn:Hlen.
  { apply length_zero_empty in Hlen. contradiction. }
  rewrite Hi. simpl.
  rewrite (find_ssid_cstr name (_data (ssid c))) by exact Hname.
  now rewrite Hfind, Hl.
Qed.

Lemma add_then_get_witness :
  Store.addCredential (cred "barn" 10) (mkStore [cred "attic" 30] true 1)
  = Some (ACResult_of SUCCESS, mkStore [cred "barn" 10] true 1)
  /\ Store.getCredential "barn" Credential.make (mkStore [cred "barn" 10] true 1)
     = (ACResult_of SUCCESS, cred "barn" 10).
Proof.
  assert (Hadd : Store.addCredential (cred "barn" 10) (mkStore [cred "attic" 30] true 1)
                 = Some (ACResult_of SUCCESS, mkStore [cred "barn" 10] true 1))
    by reflexivity.
  split; [exact Hadd |].
  apply (add_then_get _ _ _ _ _ "barn" Hadd); [reflexivity | discriminate | reflexivity].
Defined.

(** ** Credential store: update in place and removal *)

(** X2: [addCredential] of an SSID that is already stored replaces that entry
    where it stands: the number of entries stays, the entry at the position
    becomes the new credential and no other position changes. *)
Theorem add_existing_in_place (c : EnhancedCredential) (s : AutoConnectCredentialEnhanced) :
  valid c ->
  _initialized s = true ->
  Credential.key c ∈ map Credential.key (_credentials s) ->
  exists i s',
    Store.addCredential c s = Some (ACResult_of SUCCESS, s')
    /\ length (_credentials s') = length (_credentials s)
    /\ _credentials s' !! i = Some c
    /\ (exists old, _credentials s !! i = Some old
                    /\ Credential.key old = Credential.key c)
    /\ (forall j, j <> i -> _credentials s' !! j = _credentials s !! j)
    /\ _maxCredentials s' = _maxCredentials s.
Proof.
  intros Hv Hi Hin.
  assert (Hin' : cstr (_data (ssid c)) ∈ map Credential.key (_credentials s)) by exact Hin.
  destruct (find_ssid_is_Some _ _ Hin') as [i Hfind].
  pose proof Hfind as Hf.
  apply find_ssid_Some in Hf as (old & Hl & Hk & _).
  exists i. eexists. unfold Store.addCredential. rewrite Hv, Hi, Hfind. simpl.
  split; [reflexivity |]. simpl.
  split; [apply length_insert |].
  split; [apply list_lookup_insert_eq; eapply lookup_lt_Some; eauto |].
  split; [exists old; auto |].
  split; [| reflexivity].
  intros j Hj. apply list_lookup_insert_ne. congruence.
Qed.

Lemma add_existing_in_place_witness :
  exists i s',
    Store.addCredential (cred "barn" 99)
                        (mkStore [cred "attic" 30; cred "barn" 10; cred "cellar" 20] true 3)
    = Some (ACResult_of SUCCESS, s')
    /\ length (_credentials s') = 3%nat
    /\ _credentials s' !! i = Some (cred "barn" 99).
Proof.
  destruct (add_existing_in_place (cred "barn" 99)
              (mkStore [cred "attic" 30; cred "barn" 10; cred "cellar" 20] true 3))
    as (i & s' & Hadd & Hlen & Hnew & _).
  - reflexivity.
  - reflexivity.
  - apply (bool_decide_unpack _). vm_compute. exact I.
  - exists i, s'. auto.
Defined.

(** [removeCredential] of an SSID that is not stored fails with
    [CREDENTIAL_LOAD_ERROR], the message naming the SSID, and leaves the
    store unchanged; [getCredential] fails in the same way. *)
Lemma remove_missing (name : string) (s : AutoConnectCredentialEnhanced) :
  name <> "" ->
  _initialized s = true ->
  cstr name ∉ map Credential.key (_credentials s) ->
  Store.removeCredential name s
  = (mkACResult CREDENTIAL_LOAD_ERROR ("Credential not found for SSID: " +:+ name), s)
  /\ forall out, Store.getCredential name out s
                 = (mkACResult CREDENTIAL_LOAD_ERROR
                      ("Credential not found for SSID: " +:+ name), out).
Proof.
  intros Hne Hi Hnin.
  assert (Hfind : find_ssid name (_credentials s) = None).
  { apply find_ssid_None, Forall_forall. intros x Hx Hk. apply Hnin.
    apply list_elem_of_fmap. exists x. auto. }
  unfold Store.removeCredential, Store.getCredential.
  destruct (String.length name =? 0)%nat eqn:Hlen.
  { apply length_zero_empty in Hlen. contradiction. }
  rewrite Hi, Hfind. simpl. split; [reflexivity | intros out; reflexivity].
Qed.

(** X3: in a store with one entry per SSID, [removeCredential] of a stored
    SSID succeeds, takes out exactly that entry (one entry fewer, every
    other SSID still stored), and afterwards the SSID is gone:
    [getCredential] and a second [removeCredential] report it as not found. *)
Theorem remove_stored (name : string) (s : AutoConnectCredentialEnhanced) :
  name <> "" ->
  _initialized s = true ->
  NoDup (map Credential.key (_credentials s)) ->
  cstr name ∈ map Credential.key (_credentials s) ->
  exists s',
    Store.removeCredential name s = (ACResult_of SUCCESS, s')
    /\ S (length (_credentials s')) = length (_credentials s)
    /\ (cstr name ∉ map Credential.key (_credentials s'))
    /\ (forall k, k <> cstr name ->
                  (k ∈ map Credential.key (_credentials s')
                   <-> k ∈ map Credential.key (_credentials s)))
    /\ (forall out, Store.getCredential name out s' = (Store.not_found name, out))
    /\ Store.removeCredential name s' = (Store.not_found name, s').
Proof.
  intros Hne Hi Hnd Hin.
  destruct (find_ssid_is_Some _ _ Hin) as [i Hfind].
  pose proof Hfind as Hf. apply find_ssid_Some in Hf as (x & Hl & Hk & _).
  pose proof (delete_Permutation _ _ _ Hl) as Hperm.
  assert (Hpk : map Credential.key (_credentials s)
                ≡ₚ (Credential.key x :: map Credential.key (delete i (_credentials s)))).
  { change (Credential.key x :: map Credential.key (delete i (_credentials s)))
      with (map Credential.key (x :: delete i (_credentials s))).
    now apply Permutation_map. }
  assert (Hnd' : NoDup (Credential.key x :: map Credential.key (delete i (_credentials s))))
    by (now rewrite <- Hpk).
  apply NoDup_cons in Hnd' as [Hnotin Hnd'].
  rewrite Hk in Hnotin.
  exists (Store.with_credentials (delete i (_credentials s)) s).
  assert (Hrem : Store.removeCredential name s
                 = (ACResult_of SUCCESS,
                    Store.with_credentials (delete i (_credentials s)) s)).
  { unfold Store.removeCredential.
    destruct (String.length name =? 0)%nat eqn:Hlen.
    { apply length_zero_empty in Hlen. contradiction. }
    now rewrite Hi, Hfind. }
  split; [exact Hrem |]. simpl.
  split.
  { rewrite length_delete by eauto. apply lookup_lt_Some in Hl. lia. }
  split; [exact Hnotin |].
  split.
  { intros k Hkne. rewrite Hpk. rewrite elem_of_cons. rewrite Hk. tauto. }
  destruct (remove_missing name (Store.with_credentials (delete i (_credentials s)) s))
    as [Hrm Hget]; [exact Hne | exact Hi | exact Hnotin |].
  split; [exact Hget | exact Hrm].
Qed.

Lemma remove_stored_witness :
  Store.removeCredential "barn"
    (mkStore [cred "attic" 30; cred "barn" 10; cred "cellar" 20] true 3)
  = (ACResult_of SUCCESS, mkStore [cred "attic" 30; cred "cellar" 20] true 3)
  /\ Store.getCredential "barn" Credential.make
       (mkStore [cred "attic" 30; cred "cellar" 20] true 3)
     = (Store.not_found "barn", Credential.make).
Proof.
  destruct (remove_stored "barn"
              (mkStore [cred "attic" 30; cred "barn" 10; cred "cellar" 20] true 3))
    as (s' & Hrem & _ & _ & _ & Hget & _).
  - discriminate.
  - reflexivity.
  - apply (bool_decide_unpack _). vm_compute. exact I.
  - apply (bool_decide_unpack _). vm_compute. exact I.
  - assert (Hc : Store.removeCredential "barn"
                   (mkStore [cred "attic" 30; cred "barn" 10; cred "cellar" 20] true 3)
                 = (ACResult_of SUCCESS,
                    mkStore [cred "attic" 30; cred "cellar" 20] true 3))
      by reflexivity.
    rewrite Hc in Hrem. injection Hrem as <-.
    split; [reflexivity | apply Hget].
Defined.

(** ** Credential store: invariants of every reachable store *)

Lemma store_inv_make (n : nat) : store_inv (Store.make n).
Proof.
  unfold store_inv. simpl. split; [lia |]. split; [constructor |].
  split; [constructor | reflexivity].
Qed.

Lemma store_inv_initialize (s : AutoConnectCredentialEnhanced) :
  store_inv s -> store_inv (snd (Store.initialize s)).
Proof.
  intros (Hlen & Hnd & Hv & He). unfold Store.initialize.
  destruct (_initialized s) eqn:Hi; simpl.
  - unfold store_inv. rewrite Hi. auto.
  - unfold store_inv. simpl. split; [exact Hlen |]. split; [exact Hnd |].
    split; [exact Hv | discriminate].
Qed.

Lemma store_inv_clearAll (s : AutoConnectCredentialEnhanced) :
  store_inv s -> store_inv (snd (Store.clearAll s)).
Proof.
  intros _. unfold store_inv. simpl. split; [lia |]. split; [constructor |].
  split; [constructor | reflexivity].
Qed.

Lemma store_inv_remove (name : string) (s : AutoConnectCredentialEnhanced) :
  store_inv s -> store_inv (snd (Store.removeCredential name s)).
Proof.
  intros Hinv. pose proof Hinv as (Hlen & Hnd & Hv & He).
  unfold Store.removeCredential.
  destruct (String.length name =? 0)%nat; [exact Hinv |].
  destruct (_initialized s) eqn:Hi; simpl; [| exact Hinv].
  destruct (find_ssid name (_credentials s)) as [it |]; simpl; [| exact Hinv].
  unfold store_inv. simpl.
  split.
  { pose proof (sublist_length _ _ (sublist_delete (_credentials s) it)). lia. }
  split.
  { change (map Credential.key (delete it (_credentials s)))
      with (Credential.key <$> delete it (_credentials s)).
    rewrite list_fmap_delete.
    exact (sublist_NoDup _ _ Hnd (sublist_delete _ _)). }
  split; [now apply Forall_delete |].
  rewrite Hi. discriminate.
Qed.

Lemma store_inv_add (c : EnhancedCredential) (s s' : AutoConnectCredentialEnhanced)
      (r : ACResult) :
  store_inv s ->
  Store.addCredential c s = Some (r, s') ->
  store_inv s' /\ _maxCredentials s' = _maxCredentials s.
Proof.
  intros Hinv. pose proof Hinv as (Hlen & Hnd & Hv & He).
  unfold Store.addCredential.
  destruct (isSuccess (Credential.validate c)) eqn:Hvc; simpl.
  2:{ intros [= <- <-]. auto. }
  destruct (_initialized s) eqn:Hi; simpl.
  2:{ intros [= <- <-]. auto. }
  destruct (find_ssid (_data (ssid c)) (_credentials s)) as [it |] eqn:Hfind.
  - intros [= <- <-]. split; [| reflexivity].
    apply find_ssid_Some in Hfind as (x & Hl & Hk & _).
    unfold store_inv. simpl. rewrite length_insert.
    split; [exact Hlen |]. split.
    + change (map Credential.key (<[it:=c]> (_credentials s)))
        with (Credential.key <$> <[it:=c]> (_credentials s)).
      rewrite list_fmap_insert. rewrite list_insert_id; [exact Hnd |].
      rewrite list_lookup_fmap, Hl. simpl. f_equal. exact Hk.
    + split; [now apply Forall_insert | rewrite Hi; discriminate].
  - assert (Hfresh : forall l, sublist l (_credentials s) ->
              NoDup (map Credential.key (l ++ [c])) /\ Forall valid (l ++ [c])).
    { intros l Hsub. split.
      - rewrite map_app. apply NoDup_app. split.
        + refine (sublist_NoDup _ _ Hnd _).
          change (map Credential.key l) with (Credential.key <$> l).
          now apply fmap_sublist.
        + split; [| simpl; apply NoDup_singleton].
          intros k Hk Hin. simpl in Hin. apply list_elem_of_singleton in Hin. subst k.
          apply list_elem_of_fmap in Hk as (x & Hx & Hxl).
          apply find_ssid_None in Hfind. rewrite Forall_forall in Hfind.
          apply (Hfind x); [| now symmetry].
          eapply elem_of_sublist; [exact Hxl | exact Hsub].
      - apply Forall_app. split; [| constructor; [exact Hvc | constructor]].
        apply Forall_forall. intros x Hx. rewrite Forall_forall in Hv.
        apply Hv. eapply elem_of_sublist; [exact Hx | exact Hsub]. }
    destruct (Nat.leb_spec (_maxCredentials s) (length (_credentials s))) as [Hge | Hlt].
    + destruct (_credentials s) as [| x0 l0] eqn:Hc; [discriminate |].
      destruct (min_element_spec (x0 :: l0)) as (l1 & e & l2 & Heq & Hmin & _);
        [discriminate |].
      rewrite Hmin. intros [= <- <-]. split; [| reflexivity].
      destruct (Hfresh (delete (length l1) (x0 :: l0))) as [Hnd' Hv'];
        [apply sublist_delete |].
      unfold store_inv. simpl _credentials. simpl _maxCredentials. simpl _initialized.
      split.
      { rewrite length_app, Heq, delete_middle. rewrite Heq in Hlen.
        rewrite !length_app in *. simpl in *. lia. }
      split; [exact Hnd' |]. split; [exact Hv' | rewrite Hi; discriminate].
    + intros [= <- <-]. split; [| reflexivity].
      destruct (Hfresh (_credentials s)) as [Hnd' Hv']; [reflexivity |].
      unfold store_inv. simpl.
      split; [rewrite length_app; simpl; lia |].
      split; [exact Hnd' |]. split; [exact Hv' | rewrite Hi; discriminate].
Qed.

Lemma store_step_inv (o : store_op) (s s' : AutoConnectCredentialEnhanced) :
  store_inv s ->
  store_step s o = Some s' ->
  store_inv s' /\ _maxCredentials s' = _maxCredentials s.
Proof.
  intros Hinv. destruct o as [| c | name | name | | |]; simpl.
  - intros [= <-]. split; [now apply store_inv_initialize |].
    unfold Store.initialize. destruct (_initialized s); reflexivity.
  - destruct (Store.addCredential c s) as [[r s1] |] eqn:Hadd; [| discriminate].
    simpl. intros [= <-]. eapply store_inv_add; eauto.
  - intros [= <-]. auto.
  - intros [= <-]. split; [now apply store_inv_remove |].
    unfold Store.removeCredential.
    destruct (_ =? _)%nat; [reflexivity |].
    destruct (negb _); [reflexivity |].
    destruct (find_ssid _ _); reflexivity.
  - intros [= <-]. auto.
  - intros [= <-]. split; [now apply store_inv_clearAll | reflexivity].
  - intros [= <-]. auto.
Qed.

Lemma store_run_inv (ops : list store_op) :
  forall s s',
    store_inv s ->
    store_run ops s = Some s' ->
    store_inv s' /\ _maxCredentials s' = _maxCredentials s.
Proof.
  induction ops as [| o ops IH]; intros s s' Hinv; simpl.
  - intros [= <-]. auto.
  - destruct (store_step s o) as [s1 |] eqn:Hstep; [| discriminate].
    destruct (store_step_inv o s s1 Hinv Hstep) as [Hinv1 Hm1].
    intros Hrun. destruct (IH s1 s' Hinv1 Hrun) as [Hinv' Hm'].
    split; [exact Hinv' | congruence].
Qed.

(** With a capacity of at least 1 no call runs into undefined behaviour. *)
Lemma store_run_defined (ops : list store_op) :
  forall s,
    (1 <= _maxCredentials s)%nat ->
    store_inv s ->
    exists s', store_run ops s = Some s'.
Proof.
  induction ops as [| o ops IH]; intros s Hmax Hinv; simpl; [eauto |].
  assert (Hstep : exists s1, store_step s o = Some s1).
  { destruct o; simpl; eauto.
    destruct (addCredential_size credential s Hmax) as (r & s1 & Hadd & _);
      [apply Hinv |].
    rewrite Hadd. simpl. eauto. }
  destruct Hstep as [s1 Hstep]. rewrite Hstep.
  destruct (store_step_inv o s s1 Hinv Hstep) as [Hinv1 Hm1].
  apply IH; [lia | exact Hinv1].
Qed.

(** X4: whatever sequence of public operations is applied to a store
    constructed with a capacity of at least 1, every call has defined
    behaviour and the number of stored credentials never exceeds the
    capacity. *)
Theorem store_never_exceeds_capacity (maxCredentials : nat) (ops : list store_op) :
  (1 <= maxCredentials)%nat ->
  exists s,
    store_run ops (Store.make maxCredentials) = Some s
    /\ _maxCredentials s = maxCredentials
    /\ (Store.getCredentialCount s <= maxCredentials)%nat.
Proof.
  intros Hmax.
  destruct (store_run_defined ops (Store.make maxCredentials) Hmax (store_inv_make _))
    as [s Hrun].
  destruct (store_run_inv ops _ s (store_inv_make _) Hrun) as [(Hlen & _) Hm].
  exists s. simpl in Hm. unfold Store.getCredentialCount. rewrite Hm in Hlen. auto.
Qed.

Lemma store_never_exceeds_capacity_witness :
  exists s,
    store_run [OpInitialize; OpAdd (cred "attic" 30); OpAdd (cred "barn" 10);
               OpAdd (cred "cellar" 20)] (Store.make 2) = Some s
    /\ _maxCredentials s = 2%nat
    /\ (Store.getCredentialCount s <= 2)%nat.
Proof.
  apply (store_never_exceeds_capacity 2). lia.
Defined.

(** X5: in every store reached through the public operations each SSID is
    stored at most once, every stored credential passes [validate()], and
    nothing is stored before [initialize()] has run. *)
Theorem store_entries_unique_and_valid (maxCredentials : nat) (ops : list store_op)
        (s : AutoConnectCredentialEnhanced) :
  store_run ops (Store.make maxCredentials) = Some s ->
  NoDup (map Credential.key (_credentials s))
  /\ Forall valid (_credentials s)
  /\ (_initialized s = false -> _credentials s = []).
Proof.
  intros Hrun.
  destruct (store_run_inv ops _ s (store_inv_make _) Hrun) as [(_ & Hnd & Hv & He) _].
  auto.
Qed.

Lemma store_entries_unique_and_valid_witness :
  NoDup (map Credential.key [cred "barn" 99; cred "cellar" 20])
  /\ Forall valid [cred "barn" 99; cred "cellar" 20].
Proof.
  destruct (store_entries_unique_and_valid 3
              [OpAdd (cred "early" 1); OpInitialize; OpAdd (cred "attic" 30);
               OpAdd (cred "barn" 10); OpAdd (cred "cellar" 20); OpAdd (cred "barn" 99);
               OpRemove "attic"]
              (mkStore [cred "barn" 99; cred "cellar" 20] true 3))
    as (Hnd & Hv & _); [reflexivity |].
  split; [exact Hnd | exact Hv].
Defined.

(** ** Credential store: the list of SSIDs *)

Lemma find_ssid_unique (s : AutoConnectCredentialEnhanced) (a : EnhancedCredential) :
  NoDup (map Credential.key (_credentials s)) ->
  a ∈ _credentials s ->
  exists i, find_ssid (Credential.key a) (_credentials s) = Some i
            /\ _credentials s !! i = Some a.
Proof.
  intros Hnd Ha.
  apply list_elem_of_lookup in Ha as [j Hj].
  assert (Hin : cstr (Credential.key a) ∈ map Credential.key (_credentials s)).
  { unfold Credential.key, Secure.c_str. rewrite cstr_cstr.
    apply list_elem_of_fmap. exists a. split; [reflexivity |].
    eapply list_elem_of_lookup_2. exact Hj. }
  destruct (find_ssid_is_Some _ _ Hin) as [i Hfind]. exists i. split; [exact Hfind |].
  apply find_ssid_Some in Hfind as (x & Hl & Hk & _).
  unfold Credential.key, Secure.c_str in Hk. rewrite cstr_cstr in Hk.
  assert (i = j) by (eapply key_position; eauto). subst i. exact Hj.
Qed.

Lemma more_recent_timestamps (s : AutoConnectCredentialEnhanced) (a b : EnhancedCredential) :
  NoDup (map Credential.key (_credentials s)) ->
  a ∈ _credentials s -> b ∈ _credentials s ->
  Store.more_recent s (Credential.key a) (Credential.key b)
  = (timestamp b <? timestamp a).
Proof.
  intros Hnd Ha Hb. unfold Store.more_recent.
  destruct (find_ssid_unique s a Hnd Ha) as (i & -> & ->).
  destruct (find_ssid_unique s b Hnd Hb) as (j & -> & ->).
  reflexivity.
Qed.

Lemma sort_insert_perm (before : string -> string -> bool) (x : string) (l : list string) :
  sort_insert before x l ≡ₚ x :: l.
Proof.
  induction l as [| y r IH]; simpl; [reflexivity |].
  destruct (before x y); [reflexivity |].
  rewrite IH. apply Permutation_swap.
Qed.

Lemma sort_insert_sorted (before : string -> string -> bool) (dom : list string)
      (x : string) (l : list string) :
  strict_weak_order_on before dom ->
  x ∈ dom -> Forall (fun y => y ∈ dom) l ->
  StronglySorted (sorted_by before) l ->
  StronglySorted (sorted_by before) (sort_insert before x l).
Proof.
  intros (Hirr & Htrans & _) Hx. induction l as [| y r IH]; intros Hl Hs; simpl.
  - repeat constructor.
  - apply Forall_cons in Hl as [Hy Hr].
    apply StronglySorted_inv in Hs as [Hsr Hyr].
    destruct (before x y) eqn:Hxy.
    + constructor; [constructor; assumption |].
      constructor.
      * unfold sorted_by. destruct (before y x) eqn:Hyx; [| reflexivity].
        rewrite <- (Hirr x Hx). symmetry. now apply (Htrans x y x).
      * rewrite Forall_forall in Hyr, Hr. apply Forall_forall. intros z Hz.
        unfold sorted_by. destruct (before z x) eqn:Hzx; [| reflexivity].
        rewrite <- (Hyr z Hz). symmetry. apply (Htrans z x y); auto.
    + constructor; [now apply IH |].
      rewrite (sort_insert_perm before x r). constructor; [exact Hxy | exact Hyr].
Qed.

Lemma insertion_sort_from (before : string -> string -> bool) (dom : list string) :
  strict_weak_order_on before dom ->
  forall l acc,
    Forall (fun y => y ∈ dom) l -> Forall (fun y => y ∈ dom) acc ->
    StronglySorted (sorted_by before) acc ->
    fold_left (fun acc x => sort_insert before x acc) l acc ≡ₚ acc ++ l
    /\ StronglySorted (sorted_by before)
         (fold_left (fun acc x => sort_insert before x acc) l acc).
Proof.
  intros Hswo. induction l as [| x l IH]; intros acc Hl Hacc Hs; simpl.
  - split; [now rewrite app_nil_r | exact Hs].
  - apply Forall_cons in Hl as [Hx Hl].
    destruct (IH (sort_insert before x acc)) as [Hp Hsorted];
      [exact Hl | | now apply (sort_insert_sorted before dom) |].
    + rewrite (sort_insert_perm before x acc). constructor; assumption.
    + split; [| exact Hsorted].
      rewrite Hp, (sort_insert_perm before x acc). simpl. apply Permutation_middle.
Qed.

(** The insertion sort is one of the sorts that [std::sort] may be. *)
Lemma insertion_sort_contract : std_sort_contract insertion_sort.
Proof.
  intros before l Hswo. unfold insertion_sort.
  apply (insertion_sort_from before l Hswo l []).
  - apply Forall_forall. auto.
  - constructor.
  - constructor.
Qed.

(** So is the sort that goes through the range from its end, which puts
    equivalent elements in the opposite order. *)
Lemma insertion_sort_back_contract : std_sort_contract insertion_sort_back.
Proof.
  intros before l Hswo. unfold insertion_sort_back.
  destruct (insertion_sort_from before l Hswo (rev l) []) as [Hp Hs].
  - apply Forall_forall. intros x Hx. now rewrite <- (Permutation_rev l) in Hx.
  - constructor.
  - constructor.
  - split; [| exact Hs]. rewrite Hp. simpl. symmetry. apply Permutation_rev.
Qed.

(** On the SSIDs of a store with one entry per SSID the comparison of
    [getAvailableSSIDs] is a strict weak ordering, as [std::sort] needs. *)
Lemma more_recent_order (s : AutoConnectCredentialEnhanced) :
  NoDup (map Credential.key (_credentials s)) ->
  strict_weak_order_on (Store.more_recent s) (map Credential.key (_credentials s)).
Proof.
  intros Hnd.
  assert (Hts : forall k, k ∈ map Credential.key (_credentials s) ->
                  exists a, a ∈ _credentials s /\ k = Credential.key a).
  { intros k Hk. apply list_elem_of_fmap in Hk as (a & -> & Ha). eauto. }
  split; [| split].
  - intros k Hk. destruct (Hts k Hk) as (a & Ha & ->).
    rewrite (more_recent_timestamps s a a Hnd Ha Ha). apply Z.ltb_irrefl.
  - intros k1 k2 k3 H1 H2 H3.
    destruct (Hts k1 H1) as (a & Ha & ->). destruct (Hts k2 H2) as (b & Hb & ->).
    destruct (Hts k3 H3) as (c & Hc & ->).
    rewrite !more_recent_timestamps by assumption.
    rewrite !Z.ltb_lt. lia.
  - intros k1 k2 k3 H1 H2 H3.
    destruct (Hts k1 H1) as (a & Ha & ->). destruct (Hts k2 H2) as (b & Hb & ->).
    destruct (Hts k3 H3) as (c & Hc & ->).
    rewrite !more_recent_timestamps by assumption.
    rewrite !Z.ltb_ge. lia.
Qed.

(** X6: in a store with one entry per SSID, [getAvailableSSIDs] returns every
    stored SSID exactly once, most recently used first: the list is the
    SSIDs of a rearrangement of the stored credentials in which no
    credential has a smaller timestamp than one that follows it. This holds
    with every sort that meets the contract of [std::sort], in whatever
    order it leaves credentials of equal timestamps. *)
Theorem getAvailableSSIDs_newest_first
        (std_sort : (string -> string -> bool) -> list string -> list string)
        (s : AutoConnectCredentialEnhanced) :
  std_sort_contract std_sort ->
  NoDup (map Credential.key (_credentials s)) ->
  exists l,
    Store.getAvailableSSIDs std_sort s = map Credential.key l
    /\ l ≡ₚ _credentials s
    /\ StronglySorted newest_first l.
Proof.
  intros Hsort Hnd.
  destruct (Hsort (Store.more_recent s) (map Credential.key (_credentials s))
              (more_recent_order s Hnd)) as [Hperm Hsorted].
  fold (Store.getAvailableSSIDs std_sort s) in Hperm, Hsorted.
  destruct (Permutation_map_inv Credential.key _ Hperm) as (l & Heq & Hl).
  exists l. split; [exact Heq |]. split; [symmetry; exact Hl |].
  rewrite Heq in Hsorted. clear Heq Hperm.
  assert (Hin : Forall (fun x => x ∈ _credentials s) l).
  { apply Forall_forall. intros x Hx. now rewrite Hl. }
  clear Hl. induction l as [| a l IH]; [constructor |].
  apply Forall_cons in Hin as [Ha Hin].
  simpl in Hsorted. apply StronglySorted_inv in Hsorted as [Hs Hfa].
  constructor; [now apply IH |].
  rewrite Forall_forall in Hin. apply Forall_forall. intros b Hb.
  rewrite Forall_forall in Hfa.
  assert (Hk : sorted_by (Store.more_recent s) (Credential.key a) (Credential.key b)).
  { apply Hfa. apply list_elem_of_fmap. eauto. }
  unfold sorted_by in Hk.
  rewrite (more_recent_timestamps s b a Hnd (Hin b Hb) Ha) in Hk.
  apply Z.ltb_ge in Hk. exact Hk.
Qed.

Lemma getAvailableSSIDs_newest_first_witness :
  Store.getAvailableSSIDs insertion_sort
    (mkStore [cred "attic" 10; cred "barn" 30; cred "cellar" 20; cred "dairy" 20] true 5)
  = ["barn"; "cellar"; "dairy"; "attic"]
  /\ Store.getAvailableSSIDs insertion_sort_back
       (mkStore [cred "attic" 10; cred "barn" 30; cred "cellar" 20; cred "dairy" 20] true 5)
     = ["barn"; "dairy"; "cellar"; "attic"]
  /\ exists l,
      Store.getAvailableSSIDs insertion_sort_back
        (mkStore [cred "attic" 10; cred "barn" 30; cred "cellar" 20; cred "dairy" 20]
                 true 5)
      = map Credential.key l
      /\ l ≡ₚ [cred "attic" 10; cred "barn" 30; cred "cellar" 20; cred "dairy" 20]
      /\ StronglySorted newest_first l.
Proof.
  split; [reflexivity |]. split; [reflexivity |].
  apply (getAvailableSSIDs_newest_first insertion_sort_back
           (mkStore [cred "attic" 10; cred "barn" 30; cred "cellar" 20; cred "dairy" 20]
                    true 5)).
  - exact insertion_sort_back_contract.
  - apply (bool_decide_unpack _). vm_compute. exact I.
Defined.

(** ** SecureString: what is read back, what is wiped *)

(** X7: on a buffer that satisfies the representation invariant,
    [set(str)] with [len(str)] below the capacity makes [c_str()] read back
    [str] (up to its first NUL, all of it when it has none), whatever was
    stored before; the new buffer depends on [str] and the capacity only, so
    nothing of an earlier, longer secret stays behind. *)
Theorem set_then_c_str (s : SecureString) (str : string) :
  secure_wf s ->
  (String.length str < _capacity s)%nat ->
  Secure.c_str (snd (Secure.set str s)) = cstr str
  /\ (nonul str -> Secure.c_str (snd (Secure.set str s)) = str)
  /\ _data (snd (Secure.set str s))
     = strncpy (zeros (_capacity s)) str (String.length str)
  /\ (forall s2, secure_wf s2 -> _capacity s2 = _capacity s ->
                 Secure.set str s2 = Secure.set str s).
Proof.
  intros (Hd & _ & _) Hlt.
  assert (Hset : forall t, String.length (_data t) = _capacity t ->
                           _capacity t = _capacity s ->
                           Secure.set str t
                           = (true, mkSecureString
                                      (strncpy (zeros (_capacity s)) str (String.length str))
                                      (_capacity s) (String.length str))).
  { intros t Ht Hc. unfold Secure.set. rewrite Hc.
    destruct (Nat.leb_spec (_capacity s) (String.length str)); [lia |].
    rewrite <- Hc, <- Ht, memset0_all. reflexivity. }
  rewrite (Hset s Hd eq_refl). unfold Secure.c_str. simpl.
  rewrite cstr_strncpy_exact by assumption.
  split; [reflexivity |]. split; [intros Hn; now apply cstr_nonul |].
  split; [reflexivity |].
  intros s2 (Hd2 & _ & _) Hc. now rewrite (Hset s2 Hd2 Hc).
Qed.

Lemma set_then_c_str_witness :
  Secure.c_str
    (snd (Secure.set "pw"
            (snd (Secure.set "a long earlier secret" (Secure.make 64))))) = "pw"
  /\ Secure.set "pw" (snd (Secure.set "a long earlier secret" (Secure.make 64)))
     = Secure.set "pw" (Secure.make 64).
Proof.
  destruct (set_then_c_str (snd (Secure.set "a long earlier secret" (Secure.make 64))) "pw")
    as (_ & Hback & _ & Hsame).
  - apply secure_wf_set, secure_wf_make.
  - simpl. lia.
  - split.
    + apply Hback. simpl. repeat split; discriminate.
    + symmetry. apply Hsame; [apply secure_wf_make | reflexivity].
Defined.

(** X8: [clear()] wipes the whole buffer: on a buffer that satisfies the
    representation invariant every byte is NUL afterwards, the length is 0
    and [c_str()] is empty; so does the constructor. *)
Theorem clear_wipes (s : SecureString) :
  secure_wf s ->
  _data (Secure.clear s) = zeros (_capacity s)
  /\ Secure.isEmpty (Secure.clear s) = true
  /\ Secure.c_str (Secure.clear s) = ""
  /\ _data (Secure.make (_capacity s)) = zeros (_capacity s).
Proof.
  intros (Hd & _ & _). unfold Secure.clear, Secure.c_str, Secure.make. simpl.
  assert (H1 : memset0 (_data s) (_capacity s) = zeros (_capacity s))
    by (rewrite <- Hd; apply memset0_all).
  assert (H2 : memset0 (zeros (_capacity s)) (_capacity s) = zeros (_capacity s)).
  { pose proof (memset0_all (zeros (_capacity s))) as H.
    now rewrite length_zeros in H. }
  rewrite H1, H2, cstr_zeros. auto.
Qed.

Lemma clear_wipes_witness :
  _data (Secure.clear (snd (Secure.set "topsecret" (Secure.make 16)))) = zeros 16.
Proof.
  apply (clear_wipes (snd (Secure.set "topsecret" (Secure.make 16)))).
  apply secure_wf_set, secure_wf_make.
Defined.

(** ** EnhancedCredential: validation *)

Lemma constructed_bounds (ops1 ops2 : list Secure.op) :
  (_length (Secure.run ops1 (ssid Credential.make)) <= 32)%nat
  /\ (_length (Secure.run ops2 (password Credential.make)) <= 63)%nat.
Proof.
  pose proof (secure_wf_run ops1 _ (secure_wf_make 33)) as (_ & H1 & _).
  pose proof (secure_wf_run ops2 _ (secure_wf_make 64)) as (_ & H2 & _).
  rewrite capacity_run in H1, H2. simpl in H1, H2.
  change (ssid Credential.make) with (Secure.make 33).
  change (password Credential.make) with (Secure.make 64). lia.
Qed.

(** X9: for a credential whose buffers come from the constructor (capacity
    33 and 64) and were only changed through [set] and [clear], [validate()]
    accepts exactly when the SSID is non-empty and the password is empty or
    has at least 8 characters; the answers "SSID too long" and "Password too
    long" cannot occur, because the buffers cannot hold that much. *)
Theorem validate_constructed (c : EnhancedCredential) (ops1 ops2 : list Secure.op) :
  let c' := Credential.with_ssid (Secure.run ops1 (ssid Credential.make))
              (Credential.with_password (Secure.run ops2 (password Credential.make)) c) in
  (valid c' <->
   (1 <= Secure.length (ssid c'))%nat
   /\ (Secure.length (password c') = 0%nat \/ (8 <= Secure.length (password c'))%nat))
  /\ message (Credential.validate c') <> "SSID too long"
  /\ message (Credential.validate c') <> "Password too long"
  /\ (Secure.length (ssid c') <= 32)%nat
  /\ (Secure.length (password c') <= 63)%nat.
Proof.
  intros c'.
  destruct (constructed_bounds ops1 ops2) as [Hs Hp].
  unfold valid, Credential.validate.
  change (ssid c') with (Secure.run ops1 (ssid Credential.make)).
  change (password c') with (Secure.run ops2 (password Credential.make)).
  unfold Secure.isEmpty, Secure.length in *.
  set (n := _length (Secure.run ops1 (ssid Credential.make))) in *.
  set (m := _length (Secure.run ops2 (password Credential.make))) in *.
  destruct (Nat.eqb_spec n 0); simpl.
  { split; [split; [discriminate | lia] |]. repeat split; try discriminate; lia. }
  destruct (Nat.ltb_spec 32 n); [lia |]. simpl.
  destruct (Nat.ltb_spec 0 m); destruct (Nat.ltb_spec m 8); simpl;
    try (split; [split; [discriminate | lia] |]; repeat split; try discriminate; lia).
  - destruct (Nat.ltb_spec 63 m); [lia |]. simpl.
    split; [split; [lia | reflexivity] |]. repeat split; try discriminate; lia.
  - destruct (Nat.ltb_spec 63 m); [lia |]. simpl.
    split; [split; [lia | reflexivity] |]. repeat split; try discriminate; lia.
  - lia.
Qed.

(** ** TimeoutHelper across the wrap of the clock *)

Lemma elapsed_after (t : TimeoutHelper) (d : Z) :
  Timeout.elapsed t (wrap32 (_startTime t + d)) = wrap32 d.
Proof.
  unfold Timeout.elapsed, wrap32.
  rewrite Zminus_mod_idemp_l. f_equal. lia.
Qed.

(** X10: [d] milliseconds after its start, with [d] below 2^32, a
    [TimeoutHelper] reports an elapsed time of exactly [d] and is expired
    exactly when [d] has reached the timeout, also when the 32-bit clock has
    wrapped around in between; [restart()] sets the elapsed time back to 0.
    After 2^32 ms the elapsed time starts again from 0. *)
Theorem elapsed_across_wrap (t : TimeoutHelper) (d : Z) :
  0 <= d < 2 ^ 32 ->
  Timeout.elapsed t (wrap32 (_startTime t + d)) = d
  /\ (Timeout.isExpired t (wrap32 (_startTime t + d)) = true <-> _timeout t <= d)
  /\ Timeout.elapsed t (wrap32 (_startTime t + (d + 2 ^ 32))) = d
  /\ (forall now, Timeout.elapsed (Timeout.restart t now) now = 0).
Proof.
  intros Hd.
  assert (H1 : Timeout.elapsed t (wrap32 (_startTime t + d)) = d)
    by (rewrite elapsed_after; now apply wrap32_small).
  split; [exact H1 |]. split.
  - unfold Timeout.isExpired. fold (Timeout.elapsed t (wrap32 (_startTime t + d))).
    rewrite H1. apply Z.leb_le.
  - split.
    + rewrite elapsed_after. unfold wrap32.
      rewrite <- (Z.mul_1_l (2 ^ 32)) at 1. rewrite Z.mod_add by lia.
      now apply Z.mod_small.
    + intros now. unfold Timeout.elapsed, Timeout.restart. simpl.
      now rewrite Z.sub_diag.
Qed.

Lemma elapsed_across_wrap_witness :
  Timeout.elapsed (mkTimeoutHelper 4294967000 15000) 14704 = 15000
  /\ Timeout.isExpired (mkTimeoutHelper 4294967000 15000) 14704 = true.
Proof.
  assert (Hd : 0 <= 15000 < 2 ^ 32) by (split; [lia | reflexivity]).
  destruct (elapsed_across_wrap (mkTimeoutHelper 4294967000 15000) 15000 Hd)
    as (He & Hx & _).
  split; [exact He | apply Hx; simpl; lia].
Defined.

(** ** MemoryPool *)

(** Clearing the two low bits of a 32-bit value. *)
Lemma land_clear_low2 (x : Z) :
  0 <= x < 2 ^ 32 -> Z.land x (wrap32 (Z.lnot 3)) = 4 * (x / 4).
Proof.
  intros Hx.
  change (wrap32 (Z.lnot 3)) with (Z.shiftl (Z.ones 30) 2).
  change 4 with (2 ^ 2). rewrite Z.mul_comm, <- Z.shiftl_mul_pow2, <- Z.shiftr_div_pow2 by lia.
  apply Z.bits_inj'. intros n Hn.
  rewrite Z.land_spec, !Z.shiftl_spec by lia.
  destruct (Z.ltb_spec n 2) as [Hlt | Hge].
  - rewrite (Z.testbit_neg_r _ (n - 2)) by lia.
    rewrite (Z.testbit_neg_r (Z.shiftr x 2)) by lia. apply andb_false_r.
  - rewrite Z.shiftr_spec by lia. replace (n - 2 + 2) with n by lia.
    destruct (Z.ltb_spec (n - 2) 30) as [Hlow | Hhigh].
    + rewrite Z.ones_spec_low by lia. apply andb_true_r.
    + rewrite Z.ones_spec_high by lia. rewrite andb_false_r.
      symmetry. apply Z.bits_above_log2; [lia |].
      destruct (Z.eq_dec x 0) as [-> | Hx0]; [simpl; lia |].
      apply Z.log2_lt_pow2; [lia |].
      apply Z.lt_le_trans with (2 ^ 32); [lia |].
      apply Z.pow_le_mono_r; lia.
Qed.

Lemma aligned_bytes_spec (bytes : Z) :
  0 <= bytes <= 2 ^ 32 - 4 ->
  Pool.aligned_bytes bytes = 4 * ((bytes + 3) / 4).
Proof.
  intros Hb. unfold Pool.aligned_bytes.
  rewrite wrap32_small by lia. apply land_clear_low2. lia.
Qed.

(** X11: the size a request is rounded to: for a request of at most
    2^32 - 4 bytes it is the least multiple of 4 that is not below the
    request; a larger request wraps around in [size_t] and is rounded to
    0. *)
Theorem aligned_bytes_rounds_up (bytes : Z) :
  0 <= bytes < 2 ^ 32 ->
  (bytes <= 2 ^ 32 - 4 ->
     Pool.aligned_bytes bytes mod 4 = 0
     /\ bytes <= Pool.aligned_bytes bytes < bytes + 4)
  /\ (2 ^ 32 - 4 < bytes -> Pool.aligned_bytes bytes = 0).
Proof.
  intros Hb. split.
  - intros Hle. rewrite aligned_bytes_spec by lia.
    pose proof (Z.div_mod (bytes + 3) 4 ltac:(lia)) as Hdm.
    pose proof (Z.mod_pos_bound (bytes + 3) 4 ltac:(lia)) as Hm.
    split; [| lia].
    rewrite Z.mul_comm. apply Z.mod_mul. lia.
  - intros Hgt. unfold Pool.aligned_bytes.
    assert (Hw : wrap32 (bytes + 3) = bytes + 3 - 2 ^ 32).
    { unfold wrap32. symmetry. apply Z.mod_unique with 1; lia. }
    rewrite Hw, land_clear_low2 by lia.
    assert (Hdiv : (bytes + 3 - 2 ^ 32) / 4 = 0) by (apply Z.div_small; lia).
    rewrite Hdiv. reflexivity.
Qed.

Lemma aligned_bytes_rounds_up_witness :
  Pool.aligned_bytes 13 mod 4 = 0 /\ 13 <= Pool.aligned_bytes 13 < 13 + 4.
Proof.
  assert (H13 : 0 <= 13 < 2 ^ 32) by (split; [lia | reflexivity]).
  destruct (aligned_bytes_rounds_up 13 H13) as [Hlow _].
  apply Hlow. vm_compute. discriminate.
Defined.

Lemma aligned_bytes_range (bytes : Z) :
  0 <= Pool.aligned_bytes bytes < 2 ^ 32 /\ Pool.aligned_bytes bytes mod 4 = 0.
Proof.
  unfold Pool.aligned_bytes.
  pose proof (wrap32_range (bytes + 3)) as Hr.
  rewrite land_clear_low2 by exact Hr.
  pose proof (Z.div_mod (wrap32 (bytes + 3)) 4 ltac:(lia)) as Hdm.
  pose proof (Z.mod_pos_bound (wrap32 (bytes + 3)) 4 ltac:(lia)) as Hm.
  split; [lia |]. rewrite Z.mul_comm. apply Z.mod_mul. lia.
Qed.

(** What every pool reached from the constructor satisfies. *)
Lemma pool_inv_step (o : Pool.op) (p : MemoryPool) :
  0 <= _size p < 2 ^ 32 ->
  0 <= _offset p <= _size p /\ _offset p mod 4 = 0 ->
  _size (Pool.step p o) = _size p
  /\ _buffer (Pool.step p o) = _buffer p
  /\ 0 <= _offset (Pool.step p o) <= _size p
  /\ _offset (Pool.step p o) mod 4 = 0.
Proof.
  intros Hs [Ho Ha]. destruct o as [bytes |]; simpl.
  - unfold Pool.allocate.
    destruct (Z.ltb_spec (_size p) (wrap32 (_offset p + Pool.aligned_bytes bytes)))
      as [Hlt | Hge]; simpl.
    + auto.
    + pose proof (wrap32_range (_offset p + Pool.aligned_bytes bytes)) as Hr.
      split; [reflexivity |]. split; [reflexivity |]. split; [lia |].
      destruct (aligned_bytes_range bytes) as [_ Hab].
      unfold wrap32. rewrite Z.mod_mod_divide by (exists (2 ^ 30); reflexivity).
      rewrite Z.add_mod, Ha, Hab by lia. reflexivity.
  - repeat split; try reflexivity; lia.
Qed.

Lemma pool_inv_run (ops : list Pool.op) :
  forall p,
    0 <= _size p < 2 ^ 32 ->
    0 <= _offset p <= _size p /\ _offset p mod 4 = 0 ->
    _size (Pool.run ops p) = _size p
    /\ _buffer (Pool.run ops p) = _buffer p
    /\ 0 <= _offset (Pool.run ops p) <= _size p
    /\ _offset (Pool.run ops p) mod 4 = 0.
Proof.
  unfold Pool.run.
  induction ops as [| o ops IH]; intros p Hs Hinv; simpl.
  - destruct Hinv. auto.
  - destruct (pool_inv_step o p Hs Hinv) as (Hs1 & Hb1 & Ho1 & Ha1).
    destruct (IH (Pool.step p o)) as (Hs2 & Hb2 & Ho2 & Ha2);
      [rewrite Hs1; exact Hs | rewrite Hs1; auto |].
    rewrite Hs1 in *. rewrite Hs2, Hb2, Hb1. auto.
Qed.

(** X12: whatever sequence of [allocate] and [reset] calls a pool of [size]
    bytes has seen, with whatever request sizes, the used part stays within
    the pool, [used() + available()] is the size of the pool, and the next
    block starts at a multiple of 4 bytes from the start of the buffer. *)
Theorem pool_stays_within_size (size : Z) (ops : list Pool.op) :
  0 <= size < 2 ^ 32 ->
  let p := Pool.run ops (Pool.make size true) in
  _size p = size
  /\ 0 <= Pool.used p <= size
  /\ Pool.used p + Pool.available p = size
  /\ Pool.used p mod 4 = 0.
Proof.
  intros Hs p.
  destruct (pool_inv_run ops (Pool.make size true)) as (H1 & _ & H2 & H3);
    [exact Hs | simpl; split; [lia | reflexivity] |].
  fold p in H1, H2, H3. simpl in H1, H2.
  unfold Pool.used, Pool.available. rewrite H1.
  split; [reflexivity |]. split; [exact H2 |]. split; [| exact H3].
  rewrite wrap32_small by lia. lia.
Qed.

Lemma pool_stays_within_size_witness :
  let p := Pool.run [Pool.Allocate 13; Pool.Allocate 4294967280; Pool.Allocate 100;
                     Pool.Reset; Pool.Allocate 7] (Pool.make 64 true) in
  0 <= Pool.used p <= 64 /\ Pool.used p + Pool.available p = 64.
Proof.
  intros p.
  assert (Hs : 0 <= 64 < 2 ^ 32) by (split; [lia | reflexivity]).
  destruct (pool_stays_within_size 64
              [Pool.Allocate 13; Pool.Allocate 4294967280; Pool.Allocate 100;
               Pool.Reset; Pool.Allocate 7] Hs) as (_ & H1 & H2 & _).
  split; [exact H1 | exact H2].
Defined.

(** X13: a request that cannot wrap around ([size + bytes + 3] below 2^32) is
    served from a valid pool exactly when the rounded size still fits: the
    block returned starts at the old [used()], lies inside the pool, is at
    least [bytes] long and ends where the next block will start; a request
    that does not fit returns [nullptr] and leaves the pool unchanged. *)
Theorem allocate_within_bounds (bytes : Z) (p : MemoryPool) :
  0 <= bytes ->
  0 <= _offset p <= _size p ->
  _size p + bytes + 3 < 2 ^ 32 ->
  _buffer p = true ->
  (_offset p + Pool.aligned_bytes bytes <= _size p ->
     exists p',
       Pool.allocate bytes p = (Some (Pool.used p), p')
       /\ Pool.used p' = Pool.used p + Pool.aligned_bytes bytes
       /\ Pool.used p + bytes <= Pool.used p' <= _size p
       /\ Pool.available p' = Pool.available p - Pool.aligned_bytes bytes
       /\ _size p' = _size p)
  /\ (_size p < _offset p + Pool.aligned_bytes bytes ->
      Pool.allocate bytes p = (None, p)).
Proof.
  intros Hb Ho Hs Hv.
  assert (Hab : Pool.aligned_bytes bytes = 4 * ((bytes + 3) / 4))
    by (apply aligned_bytes_spec; lia).
  pose proof (Z.div_mod (bytes + 3) 4 ltac:(lia)) as Hdm.
  pose proof (Z.mod_pos_bound (bytes + 3) 4 ltac:(lia)) as Hm.
  assert (Hw : wrap32 (_offset p + Pool.aligned_bytes bytes)
               = _offset p + Pool.aligned_bytes bytes)
    by (apply wrap32_small; lia).
  unfold Pool.allocate. rewrite Hw, Hv. split.
  - intros Hfit.
    destruct (Z.ltb_spec (_size p) (_offset p + Pool.aligned_bytes bytes)); [lia |].
    eexists. split; [reflexivity |]. unfold Pool.used, Pool.available. simpl.
    split; [reflexivity |]. split; [lia |]. split; [| reflexivity].
    rewrite !wrap32_small by lia. lia.
  - intros Hno.
    destruct (Z.ltb_spec (_size p) (_offset p + Pool.aligned_bytes bytes)); [| lia].
    reflexivity.
Qed.

Lemma allocate_within_bounds_witness :
  Pool.allocate 13 (mkMemoryPool true 64 8) = (Some 8, mkMemoryPool true 64 24)
  /\ Pool.allocate 60 (mkMemoryPool true 64 8) = (None, mkMemoryPool true 64 8).
Proof.
  destruct (allocate_within_bounds 13 (mkMemoryPool true 64 8)) as [Hfit _];
    [lia | simpl; lia | reflexivity | reflexivity |].
  destruct (allocate_within_bounds 60 (mkMemoryPool true 64 8)) as [_ Hno];
    [lia | simpl; lia | reflexivity | reflexivity |].
  split; [reflexivity |]. apply Hno. vm_compute. reflexivity.
Defined.

(** X14: a request so large that [_offset + aligned] wraps around in
    [size_t] passes the bounds check when the wrapped sum is within the pool:
    [allocate] then returns a pointer and moves [used()] backwards, so blocks
    handed out before are handed out again. *)
Theorem allocate_wraps_backwards (bytes : Z) (p : MemoryPool) :
  0 <= _offset p <= _size p ->
  _size p < 2 ^ 32 ->
  _buffer p = true ->
  2 ^ 32 <= _offset p + Pool.aligned_bytes bytes ->
  _offset p + Pool.aligned_bytes bytes - 2 ^ 32 <= _size p ->
  exists p',
    Pool.allocate bytes p = (Some (Pool.used p), p')
    /\ Pool.used p' = Pool.used p + Pool.aligned_bytes bytes - 2 ^ 32
    /\ Pool.used p' < Pool.used p.
Proof.
  intros Ho Hs Hv Hwrap Hfit.
  destruct (aligned_bytes_range bytes) as [Hr _].
  assert (Hw : wrap32 (_offset p + Pool.aligned_bytes bytes)
               = _offset p + Pool.aligned_bytes bytes - 2 ^ 32).
  { unfold wrap32. symmetry. apply Z.mod_unique with 1; lia. }
  unfold Pool.allocate. rewrite Hw, Hv.
  destruct (Z.ltb_spec (_size p) (_offset p + Pool.aligned_bytes bytes - 2 ^ 32));
    [lia |].
  eexists. split; [reflexivity |]. unfold Pool.used. simpl. split; [reflexivity | lia].
Qed.

Lemma allocate_wraps_backwards_witness :
  Pool.allocate 4294967280 (mkMemoryPool true 64 24)
  = (Some 24, mkMemoryPool true 64 8).
Proof.
  destruct (allocate_wraps_backwards 4294967280 (mkMemoryPool true 64 24))
    as (p' & Halloc & _ & _);
    [simpl; lia | reflexivity | reflexivity | vm_compute; discriminate
     | vm_compute; discriminate |].
  reflexivity.
Defined.

(** ** StringBuilder: the text built *)

Lemma fold_app_from (l : list string) :
  forall acc, fold_left (fun result part => result +:+ part) l acc
              = acc +:+ fold_left (fun result part => result +:+ part) l "".
Proof.
  induction l as [| x l IH]; intros acc; simpl.
  - now rewrite sapp_nil_r.
  - rewrite IH. rewrite (IH ("" +:+ x)). now rewrite sapp_nil_l, sapp_assoc.
Qed.

Lemma toString_appendString (x : string) (b : StringBuilder) :
  Builder.toString (BuilderOps.appendString x b) = Builder.toString b +:+ x.
Proof.
  unfold Builder.toString, BuilderOps.appendString. simpl. now rewrite fold_left_app.
Qed.




(** X16: [_buildHTML] returns the parts joined in order with nothing in
    between; building from two lists put together gives the two results put
    together. *)
Theorem buildHTML_concat (parts more : list string) :
  _buildHTML parts = String.concat "" parts
  /\ _buildHTML (parts ++ more) = _buildHTML parts +:+ _buildHTML more.
Proof.
  assert (Hgen : forall l b,
             Builder.toString (fold_left (fun b part => BuilderOps.appendString part b) l b)
             = Builder.toString b +:+ String.concat "" l).
  { induction l as [| x l IH]; intros b; simpl.
    - now rewrite sapp_nil_r.
    - rewrite IH, toString_appendString, sapp_assoc. f_equal.
      destruct l as [| y l']; [simpl; now rewrite sapp_nil_r | reflexivity]. }
  assert (Hone : forall l, _buildHTML l = String.concat "" l).
  { intros l. unfold _buildHTML. rewrite Hgen. reflexivity. }
  split; [apply Hone |].
  unfold _buildHTML at 1. rewrite fold_left_app, Hgen.
  fold (_buildHTML parts). now rewrite <- Hone.
Qed.

(** ** InputSanitizer: file names and host names *)

Lemma all_chars_app (p : ascii -> bool) (a b : string) :
  all_chars p (a +:+ b) = all_chars p a && all_chars p b.
Proof.
  induction a as [| c a IH]; [reflexivity |]. rewrite sapp_cons. simpl.
  now rewrite IH, andb_assoc.
Qed.

Lemma clean_chars_kept (input : string) :
  all_chars Filename.kept (Filename.clean_chars input) = true
  /\ String.length (Filename.clean_chars input) = String.length input.
Proof.
  induction input as [| c r [IH1 IH2]]; [split; reflexivity |]. simpl.
  rewrite IH1, IH2. split; [| reflexivity].
  destruct (Filename.kept c) eqn:Hk; [now rewrite Hk | reflexivity].
Qed.

Lemma clean_chars_fixed (s : string) :
  all_chars Filename.kept s = true -> Filename.clean_chars s = s.
Proof.
  induction s as [| c r IH]; [reflexivity |]. simpl.
  intros [Hc Hr]%andb_true_iff. now rewrite Hc, IH.
Qed.

Lemma sanitizeFilename_facts (input : string) :
  all_chars Filename.kept (Filename.sanitizeFilename input) = true
  /\ Filename.sanitizeFilename input <> ""
  /\ InputSanitizer.first_char (Filename.sanitizeFilename input) <> "."%char
  /\ (String.length (Filename.sanitizeFilename input) = String.length input
      \/ String.length (Filename.sanitizeFilename input)
         = (5 + String.length input)%nat).
Proof.
  destruct (clean_chars_kept input) as [Hk Hl].
  unfold Filename.sanitizeFilename.
  destruct (Filename.clean_chars input) as [| c r] eqn:Hc.
  - simpl. repeat split; try discriminate. right. simpl in Hl. now rewrite <- Hl.
  - cbn [String.length Nat.eqb orb InputSanitizer.first_char].
    destruct (Ascii.eqb_spec c ".") as [-> | Hne].
    + split; [rewrite all_chars_app, Hk; reflexivity |].
      split; [discriminate |]. split; [discriminate |].
      right. rewrite slength_app, Hl. reflexivity.
    + split; [exact Hk |]. split; [discriminate |]. split; [exact Hne |].
      left. exact Hl.
Qed.

Lemma sanitizeFilename_fixed (s : string) :
  all_chars Filename.kept s = true ->
  s <> "" ->
  InputSanitizer.first_char s <> "."%char ->
  Filename.sanitizeFilename s = s.
Proof.
  intros Hk Hne Hdot. unfold Filename.sanitizeFilename.
  rewrite (clean_chars_fixed s Hk).
  destruct s as [| c r]; [contradiction |].
  cbn [String.length Nat.eqb orb InputSanitizer.first_char] in *.
  destruct (Ascii.eqb_spec c "."); [contradiction | reflexivity].
Qed.

(** X17: [sanitizeFilename] returns a name made of letters, digits, [_], [-]
    and [.] only, never empty and never starting with a dot; every other
    character of the input, NUL included, has become [_], and the result has
    the length of the input, or 5 more when [file_] was put in front. *)
Theorem sanitizeFilename_shape (input : string) :
  all_chars Filename.kept (Filename.sanitizeFilename input) = true
  /\ Filename.sanitizeFilename input <> ""
  /\ InputSanitizer.first_char (Filename.sanitizeFilename input) <> "."%char
  /\ (String.length (Filename.sanitizeFilename input) = String.length input
      \/ String.length (Filename.sanitizeFilename input)
         = (5 + String.length input)%nat)
  /\ Filename.kept NUL = false.
Proof.
  destruct (sanitizeFilename_facts input) as (H1 & H2 & H3 & H4). auto 10.
Qed.

(** X18: [sanitizeFilename] changes nothing in a name it has produced:
    applying it twice is the same as applying it once; more generally it
    returns unchanged every non-empty name of allowed characters that does
    not start with a dot. *)
Theorem sanitizeFilename_idempotent (input : string) :
  Filename.sanitizeFilename (Filename.sanitizeFilename input)
  = Filename.sanitizeFilename input
  /\ (all_chars Filename.kept input = true ->
      input <> "" ->
      InputSanitizer.first_char input <> "."%char ->
      Filename.sanitizeFilename input = input).
Proof.
  destruct (sanitizeFilename_facts input) as (H1 & H2 & H3 & _).
  split; [now apply sanitizeFilename_fixed | apply sanitizeFilename_fixed].
Qed.

(** ** Host names *)

Lemma all_hostname_chars_spec (s : string) :
  InputSanitizer.all_hostname_chars s = all_chars hostname_char s.
Proof.
  induction s as [| c r IH]; [reflexivity |]. simpl. rewrite IH.
  unfold hostname_char.
  destruct (InputSanitizer.isalnum c), (Ascii.eqb c InputSanitizer.hyphen); reflexivity.
Qed.

Lemma hostname_chars_nonul (s : string) : all_chars hostname_char s = true -> nonul s.
Proof.
  induction s as [| c r IH]; [intros _; exact I |]. simpl.
  intros [Hc Hr]%andb_true_iff. split; [| now apply IH].
  intros ->. discriminate.
Qed.

Lemma isValidHostname_chars (hostname : string) :
  InputSanitizer.isValidHostname hostname = true <->
  (1 <= String.length hostname <= 63)%nat
  /\ all_chars hostname_char hostname = true
  /\ InputSanitizer.first_char hostname <> InputSanitizer.hyphen
  /\ InputSanitizer.last_char hostname <> InputSanitizer.hyphen.
Proof.
  unfold InputSanitizer.isValidHostname. rewrite all_hostname_chars_spec.
  destruct (Nat.eqb_spec (String.length hostname) 0) as [H0 | H0]; simpl.
  { split; [discriminate | intros [? _]; lia]. }
  destruct (Nat.ltb_spec 63 (String.length hostname)) as [H63 | H63]; simpl.
  { split; [discriminate | intros [? _]; lia]. }
  destruct (all_chars hostname_char hostname); simpl.
  2:{ split; [discriminate | intros (_ & ? & _); discriminate]. }
  rewrite andb_true_iff, !negb_true_iff, !Ascii.eqb_neq.
  split; [intros [? ?]; repeat split; auto; lia | intros (_ & _ & ? & ?); auto].
Qed.

Lemma valid_hostname_whole (hostname : string) :
  InputSanitizer.isValidHostname hostname = true -> cstr hostname = hostname.
Proof.
  intros Hv. apply isValidHostname_chars in Hv as (_ & Hc & _).
  apply cstr_nonul. now apply hostname_chars_nonul.
Qed.

(** X19: [isValidHostname] accepts exactly the names of 1 to 63 characters
    that consist of letters, digits and hyphens and neither start nor end
    with a hyphen; an accepted name contains no NUL, so as a C string it is
    passed on whole. *)
Theorem isValidHostname_iff (hostname : string) :
  (InputSanitizer.isValidHostname hostname = true <->
   (1 <= String.length hostname <= 63)%nat
   /\ all_chars hostname_char hostname = true
   /\ InputSanitizer.first_char hostname <> InputSanitizer.hyphen
   /\ InputSanitizer.last_char hostname <> InputSanitizer.hyphen)
  /\ (InputSanitizer.isValidHostname hostname = true -> cstr hostname = hostname).
Proof.
  split; [apply isValidHostname_chars | apply valid_hostname_whole].
Qed.

(** ** Orchestrator: single attempts and what precedes the loop *)

Section OrchestratorFurther.

Variable ESP32 : bool.
Variables AC_TIMEOUT AC_CAPTIVEPORTAL : Z.
Variable begin : option string -> option string -> Z -> Device -> bool * Device.
Variable portalStatus : Device -> Z.

Local Abbreviation beginWithResult :=
  (Core.beginWithResult ESP32 AC_TIMEOUT AC_CAPTIVEPORTAL begin portalStatus).
Local Abbreviation attempt := (Core.attempt ESP32 AC_TIMEOUT AC_CAPTIVEPORTAL begin portalStatus).
Local Abbreviation connect_loop :=
  (Core.connect_loop ESP32 AC_TIMEOUT AC_CAPTIVEPORTAL begin portalStatus).
Local Abbreviation attempts :=
  (Core.attempts ESP32 AC_TIMEOUT AC_CAPTIVEPORTAL begin portalStatus).
Local Abbreviation connectToWiFi :=
  (Core.connectToWiFi ESP32 AC_TIMEOUT AC_CAPTIVEPORTAL begin portalStatus).
Local Abbreviation attempts_of :=
  (Core.attempts_of ESP32 AC_TIMEOUT AC_CAPTIVEPORTAL begin portalStatus).

Lemma validate_arg_kind (check : string -> ACResult) (arg : option string) :
  (forall p, error (check p) = SUCCESS \/ error (check p) = INVALID_PARAMETER) ->
  isSuccess (Core.validate_arg check arg) = false ->
  error (Core.validate_arg check arg) = INVALID_PARAMETER.
Proof.
  intros Hc. destruct arg as [p |]; simpl; [| discriminate].
  destruct (Hc p) as [H | H]; [| auto].
  unfold isSuccess. rewrite H. discriminate.
Qed.

Lemma validateSSID_kind (p : string) :
  error (Core._validateSSID p) = SUCCESS \/ error (Core._validateSSID p) = INVALID_PARAMETER.
Proof. unfold Core._validateSSID. destruct (negb _); auto. Qed.

Lemma validatePassword_kind (p : string) :
  error (Core._validatePassword p) = SUCCESS
  \/ error (Core._validatePassword p) = INVALID_PARAMETER.
Proof. unfold Core._validatePassword. destruct (negb _); auto. Qed.

(** X20: [beginWithResult] answers with one of five kinds only. The kinds
    [MEMORY_INSUFFICIENT] and [INVALID_PARAMETER] come from the checks in
    front of the connect primitive: with such a result the primitive was not
    invoked (any primitive gives the same answer) and the device is
    unchanged. Once the checks have passed the primitive runs once on the
    device with fresh memory statistics, and its answer and the status bits
    decide the result: [true] is a success; a [false] with the timeout bit
    set is [WIFI_TIMEOUT] whatever the captive-portal bit says; a [false]
    with the captive-portal bit alone is a success, the portal having been
    started; any other [false] is [WIFI_CONNECT_FAILED]. *)
Theorem beginWithResult_kinds (ssid passphrase : option string) (timeout : Z) (w : Device) :
  let r := beginWithResult ssid passphrase timeout w in
  let out := begin ssid passphrase timeout (Core._updateMemoryStats ESP32 w) in
  (error (fst r) = SUCCESS \/ error (fst r) = MEMORY_INSUFFICIENT
   \/ error (fst r) = INVALID_PARAMETER \/ error (fst r) = WIFI_TIMEOUT
   \/ error (fst r) = WIFI_CONNECT_FAILED)
  /\ (error (fst r) = MEMORY_INSUFFICIENT \/ error (fst r) = INVALID_PARAMETER ->
      snd r = w
      /\ forall begin' status',
          Core.beginWithResult ESP32 AC_TIMEOUT AC_CAPTIVEPORTAL begin' status'
                               ssid passphrase timeout w = r)
  /\ (error (fst r) = WIFI_TIMEOUT ->
      fst (begin ssid passphrase timeout (Core._updateMemoryStats ESP32 w)) = false
      /\ Z.land (portalStatus (snd r)) AC_TIMEOUT <> 0)
  /\ (Core._checkMemoryAvailable 8192 w = true ->
      isSuccess (Core.validate_arg Core._validateSSID ssid) = true ->
      isSuccess (Core.validate_arg Core._validatePassword passphrase) = true ->
      timeout <= 300000 ->
      snd r = snd out
      /\ (fst out = true ->
          fst r = mkACResult SUCCESS "WiFi connection established")
      /\ (fst out = false ->
          Z.land (portalStatus (snd out)) AC_TIMEOUT <> 0 ->
          fst r = mkACResult WIFI_TIMEOUT "WiFi connection timeout")
      /\ (fst out = false ->
          Z.land (portalStatus (snd out)) AC_TIMEOUT = 0 ->
          Z.land (portalStatus (snd out)) AC_CAPTIVEPORTAL <> 0 ->
          fst r = mkACResult SUCCESS "Captive portal started")
      /\ (fst out = false ->
          Z.land (portalStatus (snd out)) AC_TIMEOUT = 0 ->
          Z.land (portalStatus (snd out)) AC_CAPTIVEPORTAL = 0 ->
          fst r = mkACResult WIFI_CONNECT_FAILED "WiFi connection failed")).
Proof.
  intros r out. subst r out. unfold Core.beginWithResult.
  destruct (Core._checkMemoryAvailable 8192 w); simpl;
    [| split; [auto |]; split; [auto |]; split; discriminate].
  destruct (isSuccess (Core.validate_arg Core._validateSSID ssid)) eqn:H1; simpl.
  2:{ pose proof (validate_arg_kind _ _ validateSSID_kind H1) as Hk. rewrite Hk.
      split; [auto |]. split; [auto |]. split; discriminate. }
  destruct (isSuccess (Core.validate_arg Core._validatePassword passphrase)) eqn:H2; simpl.
  2:{ pose proof (validate_arg_kind _ _ validatePassword_kind H2) as Hk. rewrite Hk.
      split; [auto |]. split; [auto |]. split; discriminate. }
  destruct (Z.ltb_spec 300000 timeout) as [Hlong | Hshort]; simpl.
  { split; [auto |]. split; [auto |]. split; [discriminate |]. intros _ _ _ Ht. lia. }
  destruct (begin ssid passphrase timeout (Core._updateMemoryStats ESP32 w))
    as [ok w'] eqn:Hb.
  destruct ok; simpl.
  { split; [auto |]. split; [intros [H | H]; discriminate |]. split; [discriminate |].
    intros _ _ _ _. repeat split; auto; discriminate. }
  destruct (Z.eqb_spec (Z.land (portalStatus w') AC_TIMEOUT) 0) as [Ht | Ht]; simpl.
  - destruct (Z.eqb_spec (Z.land (portalStatus w') AC_CAPTIVEPORTAL) 0) as [Hc | Hc];
      simpl.
    + split; [auto 10 |]. split; [intros [H | H]; discriminate |].
      split; [discriminate |].
      intros _ _ _ _. repeat split; auto; try discriminate; intros; contradiction.
    + split; [auto |]. split; [intros [H | H]; discriminate |].
      split; [discriminate |].
      intros _ _ _ _. repeat split; auto; try discriminate; intros; contradiction.
  - split; [auto 10 |]. split; [intros [H | H]; discriminate |].
    split; [auto |].
    intros _ _ _ _. repeat split; auto; try discriminate; intros; contradiction.
Qed.

(** The loop returns a success of an attempt or the statement after it. *)
Lemma connect_loop_result fuel cfg timeout :
  forall retries w r w',
    connect_loop fuel cfg timeout retries w = Some (r, w') ->
    succeeded r \/ exists k, r = Core.failure_after k.
Proof.
  induction fuel as [| fuel IH]; intros retries w r w'; simpl; [discriminate |].
  destruct (Core.keep_trying cfg timeout retries w).
  - destruct (Core.attempt _ _ _ _ _ cfg w) as [r1 w1].
    destruct (isSuccess r1) eqn:Hr1.
    + intros [= <- <-]. left. exact Hr1.
    + apply IH.
  - intros [= <- <-]. right. eauto.
Qed.

Lemma prepare_error cfg w (r : ACResult) (w' : Device) :
  Core.prepare cfg w = inr (r, w') ->
  error r = INVALID_PARAMETER \/ error r = MEMORY_INSUFFICIENT.
Proof.
  unfold Core.prepare.
  destruct (isSuccess (NetworkConfig.validate cfg)) eqn:Hv; simpl.
  2:{ intros [= <- <-]. left. revert Hv. unfold NetworkConfig.validate.
      repeat (match goal with |- context [if ?b then _ else _] => destruct b end);
        simpl; auto; discriminate. }
  destruct (negb (Core._checkMemoryAvailable 4096 w)); [intros [= <- <-]; auto |].
  destruct (NetworkConfig.useStaticIP cfg); [| discriminate].
  unfold Core.setStaticIP.
  destruct (_ || _); simpl; [intros [= <- <-]; auto |].
  destruct (isSet (NetworkConfig.dns1 cfg)) eqn:Hd; [| discriminate].
  unfold Core.setDNS. rewrite Hd. simpl. discriminate.
Qed.

(** X21: [connectToWiFi] answers with success, [INVALID_PARAMETER],
    [MEMORY_INSUFFICIENT] or [WIFI_CONNECT_FAILED] and with nothing else: the
    [WIFI_TIMEOUT] of a single attempt is never passed on. After
    [INVALID_PARAMETER] or [MEMORY_INSUFFICIENT] no connection attempt has
    been made. *)
Theorem connectToWiFi_kinds (cfg : NetworkConfig.t) (w w' : Device) (r : ACResult) :
  connectToWiFi cfg w = Some (r, w') ->
  (error r = SUCCESS \/ error r = INVALID_PARAMETER
   \/ error r = MEMORY_INSUFFICIENT \/ error r = WIFI_CONNECT_FAILED)
  /\ (error r = INVALID_PARAMETER \/ error r = MEMORY_INSUFFICIENT ->
      attempts_of cfg w = []).
Proof.
  unfold Core.connectToWiFi, Core.attempts_of.
  destruct (Core.prepare cfg w) as [w0 | [r0 w0]] eqn:Hp.
  - intros Hloop. apply connect_loop_result in Hloop as [Hs | [k ->]].
    + unfold succeeded, isSuccess in Hs. apply bool_decide_eq_true in Hs.
      rewrite Hs. split; [auto | intros [H | H]; discriminate].
    + simpl. split; [auto 10 | intros [H | H]; discriminate].
  - intros [= <- <-]. destruct (prepare_error _ _ _ _ Hp) as [H | H]; rewrite H; auto 10.
Qed.

Lemma attempts_length fuel cfg timeout :
  0 <= NetworkConfig.maxRetries cfg < 256 ->
  forall retries w,
    0 <= retries ->
    retries + Z.of_nat (length (attempts fuel cfg timeout retries w))
    <= Z.max retries (NetworkConfig.maxRetries cfg).
Proof.
  intros Hmax. induction fuel as [| fuel IH]; intros retries w Hr; simpl; [lia |].
  destruct (Core.keep_trying cfg timeout retries w) eqn:Hk; [| simpl; lia].
  apply andb_true_iff in Hk as [Hlt _]. apply Z.ltb_lt in Hlt.
  destruct (Core.attempt _ _ _ _ _ cfg w) as [r1 w1].
  destruct (isSuccess r1); [simpl; lia |].
  assert (Hn : Core.next_retries retries = retries + 1)
    by (unfold Core.next_retries; apply wrap8_small; lia).
  rewrite Hn. simpl length.
  specialize (IH (retries + 1) (Core.pause cfg (retries + 1) w1) ltac:(lia)). lia.
Qed.

Lemma attempts_only_last_succeeds fuel cfg timeout :
  forall retries w i r,
    attempts fuel cfg timeout retries w !! i = Some r ->
    succeeded r ->
    S i = length (attempts fuel cfg timeout retries w).
Proof.
  induction fuel as [| fuel IH]; intros retries w i r; simpl; [discriminate |].
  destruct (Core.keep_trying cfg timeout retries w); [| discriminate].
  destruct (Core.attempt _ _ _ _ _ cfg w) as [r1 w1].
  destruct (isSuccess r1) eqn:Hr1.
  - destruct i as [| i]; simpl; [reflexivity | discriminate].
  - destruct i as [| i]; simpl.
    + intros [= <-] Hs. unfold succeeded in Hs. congruence.
    + intros Hl Hs. f_equal. eapply IH; eauto.
Qed.

(** X22: a call of [connectToWiFi] never makes more than [maxRetries]
    connection attempts, with [maxRetries = 0] none at all, and it stops at
    the first attempt that succeeds: only the last attempt made can have
    succeeded. *)
Theorem attempts_bounded (cfg : NetworkConfig.t) (w : Device) :
  0 <= NetworkConfig.maxRetries cfg < 256 ->
  Z.of_nat (length (attempts_of cfg w)) <= NetworkConfig.maxRetries cfg
  /\ (forall i r, attempts_of cfg w !! i = Some r -> succeeded r ->
                  S i = length (attempts_of cfg w)).
Proof.
  intros Hmax. unfold Core.attempts_of.
  destruct (Core.prepare cfg w) as [w0 | early]; [| simpl; split; [lia | discriminate]].
  split.
  - pose proof (attempts_length Core.loop_fuel cfg
                  (Timeout.make (NetworkConfig.connectionTimeoutMs cfg) (Core.millis w0))
                  Hmax 0 w0 ltac:(lia)) as H.
    lia.
  - intros i r. apply attempts_only_last_succeeds.
Qed.

Lemma setHostname_valid (hostname : string) (w : Device) :
  InputSanitizer.isValidHostname hostname = true ->
  Core.setHostname hostname w
  = (mkACResult SUCCESS "Hostname set successfully",
     mkDevice (clock w) (espFreeHeap w) (espMinFreeHeap w) (espMaxAllocHeap w)
       hostname (_portalStatus w) hostname (staip w) (staGateway w)
       (staNetmask w) (apDns1 w) (apDns2 w) (_memoryStats w) (_freeHeapSize w)).
Proof.
  intros Hv. unfold Core.setHostname, Core._validateHostname. rewrite Hv. simpl.
  now rewrite (valid_hostname_whole hostname Hv).
Qed.

(** X23: [setHostname] either accepts the name, stores it in the
    configuration and hands it to the driver unshortened, or rejects it with
    [INVALID_PARAMETER], the message quoting the name, and changes nothing;
    it accepts exactly the names [isValidHostname] accepts. *)
Theorem setHostname_outcome (hostname : string) (w : Device) :
  (InputSanitizer.isValidHostname hostname = true ->
   isSuccess (fst (Core.setHostname hostname w)) = true
   /\ hostName (snd (Core.setHostname hostname w)) = hostname
   /\ wifiHostname (snd (Core.setHostname hostname w)) = hostname
   /\ clock (snd (Core.setHostname hostname w)) = clock w)
  /\ (InputSanitizer.isValidHostname hostname = false ->
      Core.setHostname hostname w
      = (mkACResult INVALID_PARAMETER ("Invalid hostname: " +:+ hostname), w)).
Proof.
  split.
  - intros Hv. rewrite (setHostname_valid hostname w Hv). simpl. auto.
  - intros Hv. unfold Core.setHostname, Core._validateHostname. now rewrite Hv.
Qed.

(** X24: when [connectToWiFi] gets as far as its retry loop, the settings of
    the configuration have been applied and nothing else has changed: a
    non-empty host name is stored and given to the driver (after validation
    [setHostname] cannot fail), with [useStaticIP] the three addresses are
    set and stored, the primary DNS server if set, the secondary only if set
    too; the clock and the heap figures are as before. *)
Theorem prepare_applies_settings (cfg : NetworkConfig.t) (w w0 : Device) :
  Core.prepare cfg w = inl w0 ->
  clock w0 = clock w
  /\ espFreeHeap w0 = espFreeHeap w
  /\ _portalStatus w0 = _portalStatus w
  /\ hostName w0 = (if (String.length (NetworkConfig.hostname cfg) =? 0)%nat
                    then hostName w else NetworkConfig.hostname cfg)
  /\ wifiHostname w0 = (if (String.length (NetworkConfig.hostname cfg) =? 0)%nat
                        then wifiHostname w else NetworkConfig.hostname cfg)
  /\ (NetworkConfig.useStaticIP cfg = false ->
      staip w0 = staip w /\ staGateway w0 = staGateway w
      /\ staNetmask w0 = staNetmask w /\ apDns1 w0 = apDns1 w /\ apDns2 w0 = apDns2 w)
  /\ (NetworkConfig.useStaticIP cfg = true ->
      isSet (NetworkConfig.staticIP cfg) = true
      /\ isSet (NetworkConfig.gateway cfg) = true
      /\ isSet (NetworkConfig.subnet cfg) = true
      /\ staip w0 = wrap32 (NetworkConfig.staticIP cfg)
      /\ staGateway w0 = wrap32 (NetworkConfig.gateway cfg)
      /\ staNetmask w0 = wrap32 (NetworkConfig.subnet cfg)
      /\ apDns1 w0 = (if isSet (NetworkConfig.dns1 cfg)
                      then wrap32 (NetworkConfig.dns1 cfg) else apDns1 w)
      /\ apDns2 w0 = (if isSet (NetworkConfig.dns1 cfg) && isSet (NetworkConfig.dns2 cfg)
                      then wrap32 (NetworkConfig.dns2 cfg) else apDns2 w)).
Proof.
  unfold Core.prepare.
  destruct (isSuccess (NetworkConfig.validate cfg)) eqn:Hv; simpl; [| discriminate].
  destruct (negb (Core._checkMemoryAvailable 4096 w)); [discriminate |].
  assert (Hh : (String.length (NetworkConfig.hostname cfg) =? 0)%nat = false ->
               InputSanitizer.isValidHostname (NetworkConfig.hostname cfg) = true).
  { intros Hn. revert Hv. unfold NetworkConfig.validate. rewrite Hn. simpl.
    destruct (negb (InputSanitizer.isValidSSID _)); [discriminate |].
    destruct (negb (InputSanitizer.isValidPassword _)); [discriminate |].
    destruct (InputSanitizer.isValidHostname _); [reflexivity | discriminate]. }
  set (w1 := if negb (String.length (NetworkConfig.hostname cfg) =? 0)%nat
             then snd (Core.setHostname (NetworkConfig.hostname cfg) w) else w).
  assert (H1 : clock w1 = clock w /\ espFreeHeap w1 = espFreeHeap w
               /\ _portalStatus w1 = _portalStatus w
               /\ hostName w1 = (if (String.length (NetworkConfig.hostname cfg) =? 0)%nat
                                 then hostName w else NetworkConfig.hostname cfg)
               /\ wifiHostname w1
                  = (if (String.length (NetworkConfig.hostname cfg) =? 0)%nat
                     then wifiHostname w else NetworkConfig.hostname cfg)
               /\ staip w1 = staip w /\ staGateway w1 = staGateway w
               /\ staNetmask w1 = staNetmask w /\ apDns1 w1 = apDns1 w
               /\ apDns2 w1 = apDns2 w).
  { subst w1. destruct (String.length (NetworkConfig.hostname cfg) =? 0)%nat eqn:Hn; simpl.
    - auto 15.
    - rewrite (setHostname_valid _ w (Hh eq_refl)). simpl. auto 15. }
  clearbody w1. destruct H1 as (Hc & He & Hp & Hn & Hw & Hs1 & Hs2 & Hs3 & Hd1 & Hd2).
  destruct (NetworkConfig.useStaticIP cfg).
  - unfold Core.setStaticIP.
    destruct (isSet (NetworkConfig.staticIP cfg)); simpl; [| discriminate].
    destruct (isSet (NetworkConfig.gateway cfg)); simpl; [| discriminate].
    destruct (isSet (NetworkConfig.subnet cfg)); simpl; [| discriminate].
    destruct (isSet (NetworkConfig.dns1 cfg)) eqn:Hdns.
    + unfold Core.setDNS. rewrite Hdns. simpl. intros [= <-]. simpl.
      repeat split; auto; try discriminate.
      destruct (isSet (NetworkConfig.dns2 cfg)); auto.
    + intros [= <-]. simpl. repeat split; auto; discriminate.
  - intros [= <-]. repeat split; auto; discriminate.
Qed.

End OrchestratorFurther.

Lemma beginWithResult_kinds_witness :
  fst (Core.beginWithResult false AC_TIMEOUT_bit AC_CAPTIVEPORTAL_bit
         (failing_begin 5000 68) _portalStatus (Some "home") (Some "12345678")
         30000 booted)
  = mkACResult WIFI_TIMEOUT "WiFi connection timeout".
Proof.
  pose proof (beginWithResult_kinds false AC_TIMEOUT_bit AC_CAPTIVEPORTAL_bit
                (failing_begin 5000 68) _portalStatus (Some "home") (Some "12345678")
                30000 booted) as H.
  cbv zeta in H. destruct H as (_ & _ & _ & H).
  destruct H as (_ & _ & Htimeout & _); [reflexivity | reflexivity | reflexivity | lia |].
  apply Htimeout; [reflexivity | vm_compute; discriminate].
Defined.

Lemma connectToWiFi_kinds_witness :
  scripted_connectToWiFi (failing_begin 5000 0) (home_config 1000 3) booted
  = Some (mkACResult INVALID_PARAMETER
            "Connection timeout out of range (5-300 seconds)", booted)
  /\ scripted_attempts (failing_begin 5000 0) (home_config 1000 3) booted = [].
Proof.
  assert (Hrun : scripted_connectToWiFi (failing_begin 5000 0) (home_config 1000 3) booted
                 = Some (mkACResult INVALID_PARAMETER
                           "Connection timeout out of range (5-300 seconds)", booted))
    by reflexivity.
  split; [exact Hrun |].
  destruct (connectToWiFi_kinds false AC_TIMEOUT_bit AC_CAPTIVEPORTAL_bit
              (failing_begin 5000 0) _portalStatus (home_config 1000 3) booted booted
              _ Hrun) as [_ Hnone].
  apply Hnone. left. reflexivity.
Defined.

Lemma attempts_bounded_witness :
  (length (scripted_attempts (failing_begin 5000 0) (home_config 30000 3) booted) <= 3)%nat.
Proof.
  destruct (attempts_bounded false AC_TIMEOUT_bit AC_CAPTIVEPORTAL_bit
              (failing_begin 5000 0) _portalStatus (home_config 30000 3) booted)
    as [Hlen _]; [simpl; lia |].
  unfold scripted_attempts. simpl NetworkConfig.maxRetries in Hlen. lia.
Defined.

Lemma prepare_applies_settings_witness :
  Core.prepare (NetworkConfig.mk "home" "12345678" "esp-node" 3232235786 3232235777
                  4294967040 134744072 0 true false 30000 3) booted
  = inl (mkDevice 0 200000 150000 100000 "esp-node" 0 "esp-node" 3232235786
           3232235777 4294967040 134744072 0 (mkACMemoryStats 0 0 0 0) 0)
  /\ hostName (mkDevice 0 200000 150000 100000 "esp-node" 0 "esp-node" 3232235786
                 3232235777 4294967040 134744072 0 (mkACMemoryStats 0 0 0 0) 0)
     = "esp-node".
Proof.
  assert (Hrun : Core.prepare (NetworkConfig.mk "home" "12345678" "esp-node" 3232235786
                                 3232235777 4294967040 134744072 0 true false 30000 3)
                   booted
                 = inl (mkDevice 0 200000 150000 100000 "esp-node" 0 "esp-node"
                          3232235786 3232235777 4294967040 134744072 0
                          (mkACMemoryStats 0 0 0 0) 0))
    by reflexivity.
  split; [exact Hrun |].
  destruct (prepare_applies_settings _ _ _ Hrun) as (_ & _ & _ & Hname & _).
  exact Hname.
Defined.

(** ** Error texts *)

(** X25: [errorString] gives every error kind a text of its own: two results
    with the same text have the same kind, and the text is [Success] only for
    a successful result. *)
Theorem errorString_distinguishes (r1 r2 : ACResult) :
  (errorString r1 = errorString r2 <-> error r1 = error r2)
  /\ (errorString r1 = "Success" <-> isSuccess r1 = true).
Proof.
  unfold errorString, isSuccess. split; split.
  - destruct (error r1), (error r2); intros H; try reflexivity; discriminate H.
  - intros ->. reflexivity.
  - destruct (error r1); intros H; try reflexivity; discriminate H.
  - intros H. apply bool_decide_eq_true in H. now rewrite H.
Qed.

(** ** Feature flags and the validation of a whole configuration *)

Lemma testbit_wrap32 (x : Z) (n : Z) :
  0 <= n ->
  Z.testbit (wrap32 x) n = (n <? 32) && Z.testbit x n.
Proof.
  intros Hn. unfold wrap32.
  destruct (n <? 32) eqn:Hlt.
  - apply Z.ltb_lt in Hlt. rewrite Z.mod_pow2_bits_low by lia. reflexivity.
  - apply Z.ltb_ge in Hlt. rewrite Z.mod_pow2_bits_high by lia. reflexivity.
Qed.

Lemma testbit_above (x n : Z) :
  0 <= x < 2 ^ 32 -> 32 <= n -> Z.testbit x n = false.
Proof.
  intros Hx Hn. rewrite <- (Z.mod_small x (2 ^ 32)) by lia.
  apply Z.mod_pow2_bits_high. lia.
Qed.

Lemma land_enable (e f g : Z) :
  Z.land (Z.lor e f) g = Z.lor (Z.land e g) (Z.land f g).
Proof. apply Z.land_lor_distr_l. Qed.

Lemma land_disable (e f g : Z) :
  0 <= g < 2 ^ 32 ->
  Z.land f g = 0 ->
  Z.land (Z.land e (wrap32 (Z.lnot f))) g = Z.land e g.
Proof.
  intros Hg Hfg. apply Z.bits_inj'. intros n Hn.
  rewrite !Z.land_spec, testbit_wrap32 by lia.
  destruct (Z.testbit g n) eqn:Hgn; [| now rewrite !andb_false_r].
  assert (Hfn : Z.testbit f n = false).
  { assert (H : Z.testbit (Z.land f g) n = false) by (rewrite Hfg; apply Z.bits_0).
    rewrite Z.land_spec, Hgn, andb_true_r in H. exact H. }
  assert (Hlt : (n <? 32) = true).
  { destruct (n <? 32) eqn:Hlt; [reflexivity |].
    apply Z.ltb_ge in Hlt. rewrite (testbit_above g n) in Hgn by lia. discriminate. }
  rewrite Z.lnot_spec, Hfn, Hlt by lia. simpl. now rewrite !andb_true_r.
Qed.

Lemma land_disable_self (e f : Z) :
  Z.land (Z.land e (wrap32 (Z.lnot f))) f = 0.
Proof.
  apply Z.bits_inj'. intros n Hn.
  rewrite !Z.land_spec, testbit_wrap32, Z.lnot_spec, Z.bits_0 by lia.
  destruct (Z.testbit f n); simpl; now rewrite ?andb_false_r.
Qed.

(** X26: enabling a feature mask turns every flag of it on and disabling
    turns every flag of it off, for any non-empty mask; both leave every flag
    outside the mask as it was, and the feature word stays within 32 bits. *)
Theorem feature_flags (feature : Z) (c : AdvancedConfig.t) :
  0 <= AdvancedConfig.enabledFeatures c < 2 ^ 32 ->
  0 <= feature < 2 ^ 32 ->
  (feature <> 0 ->
   AdvancedConfig.hasFeature feature (AdvancedConfig.enableFeature feature c) = true)
  /\ AdvancedConfig.hasFeature feature (AdvancedConfig.disableFeature feature c) = false
  /\ (forall other, 0 <= other < 2 ^ 32 -> Z.land feature other = 0 ->
        AdvancedConfig.hasFeature other (AdvancedConfig.enableFeature feature c)
        = AdvancedConfig.hasFeature other c
        /\ AdvancedConfig.hasFeature other (AdvancedConfig.disableFeature feature c)
           = AdvancedConfig.hasFeature other c)
  /\ 0 <= AdvancedConfig.enabledFeatures (AdvancedConfig.enableFeature feature c) < 2 ^ 32
  /\ 0 <= AdvancedConfig.enabledFeatures (AdvancedConfig.disableFeature feature c) < 2 ^ 32.
Proof.
  intros He Hf. unfold AdvancedConfig.hasFeature, AdvancedConfig.enableFeature,
    AdvancedConfig.disableFeature. simpl.
  repeat split.
  - intros Hne. rewrite land_enable, Z.land_diag.
    apply negb_true_iff, Z.eqb_neq. intros H. apply Z.lor_eq_0_iff in H. tauto.
  - rewrite land_disable_self. reflexivity.
  - rewrite land_enable, H0, Z.lor_0_r. reflexivity.
  - rewrite land_disable by assumption. reflexivity.
  - apply Z.lor_nonneg. lia.
  - assert (H : Z.lor (AdvancedConfig.enabledFeatures c) feature
                = wrap32 (Z.lor (AdvancedConfig.enabledFeatures c) feature)).
    { apply Z.bits_inj'. intros n Hn. rewrite testbit_wrap32, Z.lor_spec by lia.
      destruct (n <? 32) eqn:Hlt; [reflexivity |]. apply Z.ltb_ge in Hlt.
      rewrite !testbit_above by lia. reflexivity. }
    rewrite H. apply wrap32_range.
  - apply Z.land_nonneg. lia.
  - assert (H : Z.land (AdvancedConfig.enabledFeatures c) (wrap32 (Z.lnot feature))
                = wrap32 (Z.land (AdvancedConfig.enabledFeatures c)
                            (wrap32 (Z.lnot feature)))).
    { apply Z.bits_inj'. intros n Hn. rewrite !testbit_wrap32, !Z.land_spec by lia.
      rewrite testbit_wrap32 by lia.
      destruct (n <? 32) eqn:Hlt; [reflexivity |]. simpl. now rewrite andb_false_r. }
    rewrite H. apply wrap32_range.
Qed.

Lemma isValidPassword_spec (p : string) :
  InputSanitizer.isValidPassword p = true
  <-> (String.length p = 0 \/ 8 <= String.length p <= 63)%nat.
Proof.
  unfold InputSanitizer.isValidPassword.
  rewrite orb_true_iff, andb_true_iff, Nat.eqb_eq, !Nat.leb_le. reflexivity.
Qed.

Lemma isSuccess_invalid (msg : string) :
  isSuccess (mkACResult INVALID_PARAMETER msg) = false.
Proof. reflexivity. Qed.

Lemma network_validated (c : NetworkConfig.t) :
  isSuccess (NetworkConfig.validate c) = true ->
  InputSanitizer.isValidSSID (NetworkConfig.ssid c) = true
  /\ InputSanitizer.isValidPassword (NetworkConfig.password c) = true
  /\ (NetworkConfig.hostname c <> "" ->
      InputSanitizer.isValidHostname (NetworkConfig.hostname c) = true)
  /\ 5000 <= NetworkConfig.connectionTimeoutMs c <= 300000.
Proof.
  unfold NetworkConfig.validate.
  destruct (InputSanitizer.isValidSSID _); simpl; [| discriminate].
  destruct (InputSanitizer.isValidPassword _); simpl; [| discriminate].
  destruct (NetworkConfig.hostname c) as [| a h] eqn:Hh; simpl.
  - destruct (_ <? 5000) eqn:H1; simpl; [discriminate |].
    destruct (300000 <? _) eqn:H2; simpl; [discriminate |].
    intros _. apply Z.ltb_ge in H1, H2. repeat split; auto; try lia; congruence.
  - destruct (InputSanitizer.isValidHostname _); simpl; [| discriminate].
    destruct (_ <? 5000) eqn:H1; simpl; [discriminate |].
    destruct (300000 <? _) eqn:H2; simpl; [discriminate |].
    intros _. apply Z.ltb_ge in H1, H2. repeat split; auto; lia.
Qed.

Lemma portal_validated (c : PortalConfig.t) :
  isSuccess (PortalConfig.validate c) = true ->
  InputSanitizer.isValidSSID (PortalConfig.apSSID c) = true
  /\ InputSanitizer.isValidPassword (PortalConfig.apPassword c) = true
  /\ 1 <= PortalConfig.channel c <= 13
  /\ 80 <= PortalConfig.port c <= 65535.
Proof.
  unfold PortalConfig.validate.
  destruct (InputSanitizer.isValidSSID _); simpl; [| discriminate].
  destruct (InputSanitizer.isValidPassword _); simpl; [| discriminate].
  destruct (_ <? 1) eqn:H1; simpl; [discriminate |].
  destruct (13 <? _) eqn:H2; simpl; [discriminate |].
  destruct (_ <? 80) eqn:H3; simpl; [discriminate |].
  destruct (65535 <? _) eqn:H4; simpl; [discriminate |].
  intros _. apply Z.ltb_ge in H1, H2, H3, H4. repeat split; auto; lia.
Qed.

Lemma memory_validated (c : MemoryConfig.t) :
  isSuccess (MemoryConfig.validate c) = true ->
  1024 <= MemoryConfig.jsonBufferSize c <= 32768
  /\ 2 * MemoryConfig.maxStringLength c <= MemoryConfig.jsonBufferSize c.
Proof.
  unfold MemoryConfig.validate.
  destruct (_ <? 1024) eqn:H1; simpl; [discriminate |].
  destruct (32768 <? _) eqn:H2; simpl; [discriminate |].
  destruct (_ / 2 <? _) eqn:H3; simpl; [discriminate |].
  intros _. apply Z.ltb_ge in H1, H2, H3.
  split; [lia |].
  pose proof (Z.mul_div_le (MemoryConfig.jsonBufferSize c) 2 ltac:(lia)). lia.
Qed.

(** A port held in a [uint16_t] is never above 65535, so the upper port
    check of [PortalConfig::validate] rejects nothing: a portal configuration
    is accepted exactly when its SSID has 1 to 32 characters, its password is
    empty or has 8 to 63, its channel is 1 to 13 and its port is at least
    80. *)
Lemma portal_validate_iff (c : PortalConfig.t) :
  0 <= PortalConfig.port c < 2 ^ 16 ->
  isSuccess (PortalConfig.validate c) = true
  <-> ((1 <= String.length (PortalConfig.apSSID c) <= 32)%nat
       /\ (String.length (PortalConfig.apPassword c) = 0%nat
           \/ (8 <= String.length (PortalConfig.apPassword c) <= 63)%nat)
       /\ 1 <= PortalConfig.channel c <= 13
       /\ 80 <= PortalConfig.port c).
Proof.
  intros Hport. split.
  - intros H. apply portal_validated in H as (Hs & Hp & Hc & Hpo).
    apply isValidPassword_spec in Hp.
    unfold InputSanitizer.isValidSSID in Hs. apply andb_true_iff in Hs as [H1 H2].
    apply Nat.ltb_lt in H1. apply Nat.leb_le in H2.
    repeat split; auto; lia.
  - intros (Hs & Hp & Hc & Hpo). unfold PortalConfig.validate.
    assert (H1 : InputSanitizer.isValidSSID (PortalConfig.apSSID c) = true).
    { unfold InputSanitizer.isValidSSID. apply andb_true_iff.
      split; [apply Nat.ltb_lt | apply Nat.leb_le]; lia. }
    assert (H2 : InputSanitizer.isValidPassword (PortalConfig.apPassword c) = true)
      by (apply isValidPassword_spec; exact Hp).
    rewrite H1, H2. simpl.
    replace (PortalConfig.channel c <? 1) with false by (symmetry; apply Z.ltb_ge; lia).
    replace (13 <? PortalConfig.channel c) with false by (symmetry; apply Z.ltb_ge; lia).
    replace (PortalConfig.port c <? 80) with false by (symmetry; apply Z.ltb_ge; lia).
    replace (65535 <? PortalConfig.port c) with false by (symmetry; apply Z.ltb_ge; lia).
    reflexivity.
Qed.

(** X27: a configuration that [AutoConnectAdvancedConfig::validate] accepts
    has accepted network, portal and memory sections, strings of at most
    16384 characters, a file size limit of at least 1024 whenever the
    filesystem feature is on, and file logging under the debug feature only
    together with the filesystem feature. *)
Theorem advanced_validate_sound (c : AdvancedConfig.t) :
  isSuccess (AdvancedConfig.validate c) = true ->
  isSuccess (NetworkConfig.validate (AdvancedConfig.network c)) = true
  /\ isSuccess (PortalConfig.validate (AdvancedConfig.portal c)) = true
  /\ isSuccess (MemoryConfig.validate (AdvancedConfig.memory c)) = true
  /\ MemoryConfig.maxStringLength (AdvancedConfig.memory c) <= 16384
  /\ (AdvancedConfig.hasFeature AC_FEATURE_FILESYSTEM c = true ->
      1024 <= AdvancedConfig.maxFileSize c)
  /\ (AdvancedConfig.hasFeature AC_FEATURE_DEBUG c = true ->
      DebugConfig.enableFile (AdvancedConfig.debug c) = true ->
      AdvancedConfig.hasFeature AC_FEATURE_FILESYSTEM c = true
      /\ 1024 <= AdvancedConfig.maxFileSize c).
Proof.
  unfold AdvancedConfig.validate, AdvancedConfig.hasFeature. cbv zeta.
  destruct (isSuccess (NetworkConfig.validate _)) eqn:Hn; simpl;
    [| intros H; congruence].
  destruct (isSuccess (PortalConfig.validate _)) eqn:Hp; simpl;
    [| intros H; congruence].
  destruct (isSuccess (MemoryConfig.validate _)) eqn:Hm; simpl;
    [| intros H; congruence].
  apply memory_validated in Hm as Hmem.
  destruct (Z.land _ AC_FEATURE_FILESYSTEM =? 0) eqn:Hfs; simpl.
  - destruct (Z.land _ AC_FEATURE_DEBUG =? 0) eqn:Hdbg; simpl.
    + intros _. repeat split; auto; try lia; discriminate.
    + destruct (DebugConfig.enableFile _); simpl; [discriminate |].
      intros _. repeat split; auto; try lia; discriminate.
  - destruct (_ <? 1024) eqn:Hsz; simpl; [discriminate |].
    apply Z.ltb_ge in Hsz.
    destruct (Z.land _ AC_FEATURE_DEBUG =? 0) eqn:Hdbg; simpl.
    + intros _. repeat split; auto; lia.
    + rewrite andb_false_r. intros _. repeat split; auto; lia.
Qed.

Lemma estimate_sum (sizeof_this : Z) (c : AdvancedConfig.t) :
  0 <= sizeof_this ->
  0 <= MemoryConfig.jsonBufferSize (AdvancedConfig.memory c) ->
  sizeof_this + MemoryConfig.jsonBufferSize (AdvancedConfig.memory c) + 14336 < 2 ^ 32 ->
  AdvancedConfig.estimateMemoryUsage sizeof_this c
  = sizeof_this + MemoryConfig.jsonBufferSize (AdvancedConfig.memory c)
    + (if AdvancedConfig.hasFeature AC_FEATURE_FILESYSTEM c then 2048 else 0)
    + (if AdvancedConfig.hasFeature AC_FEATURE_OTA c then 4096 else 0)
    + (if AdvancedConfig.hasFeature AC_FEATURE_PORTAL c then 8192 else 0).
Proof.
  intros Hs Hj Hfit. unfold AdvancedConfig.estimateMemoryUsage. cbv zeta.
  rewrite (wrap32_small (sizeof_this + _)) by lia.
  destruct (AdvancedConfig.hasFeature AC_FEATURE_FILESYSTEM c),
    (AdvancedConfig.hasFeature AC_FEATURE_OTA c),
    (AdvancedConfig.hasFeature AC_FEATURE_PORTAL c);
    repeat match goal with
           | |- context [wrap32 ?x] =>
               lazymatch x with
               | context [wrap32 _] => fail
               | _ => rewrite (wrap32_small x) by lia
               end
           end; lia.
Qed.

Lemma hasFeature_enable_mono (feature other : Z) (c : AdvancedConfig.t) :
  AdvancedConfig.hasFeature other c = true ->
  AdvancedConfig.hasFeature other (AdvancedConfig.enableFeature feature c) = true.
Proof.
  unfold AdvancedConfig.hasFeature, AdvancedConfig.enableFeature. simpl.
  rewrite !negb_true_iff, !Z.eqb_neq, land_enable. intros H Hz.
  apply Z.lor_eq_0_iff in Hz. tauto.
Qed.

Lemma hasFeature_disable_mono (feature other : Z) (c : AdvancedConfig.t) :
  AdvancedConfig.hasFeature other (AdvancedConfig.disableFeature feature c) = true ->
  AdvancedConfig.hasFeature other c = true.
Proof.
  unfold AdvancedConfig.hasFeature, AdvancedConfig.disableFeature. simpl.
  rewrite !negb_true_iff, !Z.eqb_neq. intros H Hz. apply H.
  rewrite <- Z.land_assoc, (Z.land_comm (wrap32 _)), Z.land_assoc, Hz.
  apply Z.land_0_l.
Qed.

Lemma flag_cost_mono (b1 b2 : bool) (cost : Z) :
  0 <= cost -> (b1 = true -> b2 = true) ->
  (if b1 then cost else 0) <= (if b2 then cost else 0).
Proof. intros Hc H. destruct b1, b2; try lia; discriminate (H eq_refl). Qed.

(** X28: as long as the sum fits in 32 bits, the memory estimate is the size
    of the object plus the JSON buffer plus at most 14336 bytes of feature
    overhead; enabling features never lowers it and disabling features never
    raises it. *)
Theorem estimateMemoryUsage_monotone (sizeof_this feature : Z) (c : AdvancedConfig.t) :
  0 <= sizeof_this ->
  0 <= MemoryConfig.jsonBufferSize (AdvancedConfig.memory c) ->
  sizeof_this + MemoryConfig.jsonBufferSize (AdvancedConfig.memory c) + 14336 < 2 ^ 32 ->
  sizeof_this + MemoryConfig.jsonBufferSize (AdvancedConfig.memory c)
  <= AdvancedConfig.estimateMemoryUsage sizeof_this c
  <= sizeof_this + MemoryConfig.jsonBufferSize (AdvancedConfig.memory c) + 14336
  /\ AdvancedConfig.estimateMemoryUsage sizeof_this c
     <= AdvancedConfig.estimateMemoryUsage sizeof_this
          (AdvancedConfig.enableFeature feature c)
  /\ AdvancedConfig.estimateMemoryUsage sizeof_this
       (AdvancedConfig.disableFeature feature c)
     <= AdvancedConfig.estimateMemoryUsage sizeof_this c.
Proof.
  intros Hs Hj Hfit.
  rewrite !estimate_sum by assumption.
  pose proof (flag_cost_mono _ _ 2048 ltac:(lia)
                (hasFeature_enable_mono feature AC_FEATURE_FILESYSTEM c)).
  pose proof (flag_cost_mono _ _ 4096 ltac:(lia)
                (hasFeature_enable_mono feature AC_FEATURE_OTA c)).
  pose proof (flag_cost_mono _ _ 8192 ltac:(lia)
                (hasFeature_enable_mono feature AC_FEATURE_PORTAL c)).
  pose proof (flag_cost_mono _ _ 2048 ltac:(lia)
                (hasFeature_disable_mono feature AC_FEATURE_FILESYSTEM c)).
  pose proof (flag_cost_mono _ _ 4096 ltac:(lia)
                (hasFeature_disable_mono feature AC_FEATURE_OTA c)).
  pose proof (flag_cost_mono _ _ 8192 ltac:(lia)
                (hasFeature_disable_mono feature AC_FEATURE_PORTAL c)).
  simpl AdvancedConfig.memory in *.
  repeat split; try lia;
    destruct (AdvancedConfig.hasFeature AC_FEATURE_FILESYSTEM c),
      (AdvancedConfig.hasFeature AC_FEATURE_OTA c),
      (AdvancedConfig.hasFeature AC_FEATURE_PORTAL c); lia.
Qed.

(** ** The captive portal and the configuration *)

Section PortalProperties.

Variable AC_AUTH_DIGEST : Z.
Variable begin : Portal.Station -> bool * Portal.Station.
Variable config : Portal.ApConfig -> Portal.Station -> bool * Portal.Station.

Local Abbreviation startCaptivePortal := (Portal.startCaptivePortal AC_AUTH_DIGEST begin).
Local Abbreviation apply_portal := (Portal.apply_portal AC_AUTH_DIGEST).
Local Abbreviation configWithValidation := (Portal.configWithValidation config).

Lemma portal_validate_kind (pc : PortalConfig.t) :
  error (PortalConfig.validate pc) = SUCCESS
  \/ error (PortalConfig.validate pc) = INVALID_PARAMETER.
Proof.
  unfold PortalConfig.validate.
  repeat match goal with
         | |- context [if ?b then _ else _] => destruct b
         end; simpl; auto.
Qed.

(** X29: [startCaptivePortal] validates the portal configuration first and
    checks the heap second; in both cases it returns without calling
    [begin()] and without touching the configuration. Otherwise it writes
    the portal settings and calls [begin()] once: the result is [SUCCESS] or
    [PORTAL_START_FAILED] as [begin()] says, and after a failure the settings
    stay written, as far as [begin()] leaves them alone. Without
    [enableAuth] the authentication settings are not reset. *)
Theorem startCaptivePortal_outcome (pc : PortalConfig.t) (s : Portal.Station) :
  let out := startCaptivePortal pc s in
  let written := Portal.with_apConfig (apply_portal pc (Portal._apConfig s)) s in
  (isSuccess (PortalConfig.validate pc) = false ->
   out = (PortalConfig.validate pc, s) /\ error (fst out) = INVALID_PARAMETER)
  /\ (isSuccess (PortalConfig.validate pc) = true ->
      Core._checkMemoryAvailable 8192 (Portal.device s) = false ->
      snd out = s /\ error (fst out) = MEMORY_INSUFFICIENT)
  /\ (isSuccess (PortalConfig.validate pc) = true ->
      Core._checkMemoryAvailable 8192 (Portal.device s) = true ->
      snd out = snd (begin written)
      /\ error (fst out)
         = (if fst (begin written) then SUCCESS else PORTAL_START_FAILED))
  /\ (error (fst out) = PORTAL_START_FAILED ->
      (forall st, Portal._apConfig (snd (begin st)) = Portal._apConfig st) ->
      Portal.apid (Portal._apConfig (snd out)) = PortalConfig.apSSID pc
      /\ Portal.psk (Portal._apConfig (snd out)) = PortalConfig.apPassword pc
      /\ Portal.channel (Portal._apConfig (snd out)) = PortalConfig.channel pc
      /\ Portal.portalTimeout (Portal._apConfig (snd out)) = PortalConfig.timeoutMs pc)
  /\ (PortalConfig.enableAuth pc = false ->
      Portal.auth (apply_portal pc (Portal._apConfig s)) = Portal.auth (Portal._apConfig s)
      /\ Portal.username (apply_portal pc (Portal._apConfig s))
         = Portal.username (Portal._apConfig s)
      /\ Portal.password (apply_portal pc (Portal._apConfig s))
         = Portal.password (Portal._apConfig s)).
Proof.
  cbv zeta.
  assert (Hauth : PortalConfig.enableAuth pc = false ->
                  Portal.auth (apply_portal pc (Portal._apConfig s))
                  = Portal.auth (Portal._apConfig s)
                  /\ Portal.username (apply_portal pc (Portal._apConfig s))
                     = Portal.username (Portal._apConfig s)
                  /\ Portal.password (apply_portal pc (Portal._apConfig s))
                     = Portal.password (Portal._apConfig s)).
  { intros H. unfold Portal.apply_portal. rewrite H. auto. }
  unfold Portal.startCaptivePortal.
  destruct (isSuccess (PortalConfig.validate pc)) eqn:Hv; simpl.
  - destruct (Core._checkMemoryAvailable 8192 (Portal.device s)) eqn:Hm; simpl.
    + destruct (begin _) as [ok s1] eqn:Hb.
      split; [discriminate |]. split; [discriminate |].
      split; [intros _ _; destruct ok; auto |].
      split; [| exact Hauth].
      intros Hf Hkeep. destruct ok; simpl in Hf; [discriminate |]. simpl.
      specialize (Hkeep (Portal.with_apConfig
                           (apply_portal pc (Portal._apConfig s)) s)).
      rewrite Hb in Hkeep. simpl in Hkeep. rewrite Hkeep.
      unfold Portal.apply_portal. destruct (PortalConfig.enableAuth pc); auto.
    + split; [discriminate |]. split; [auto |]. split; [discriminate |].
      split; [discriminate | exact Hauth].
  - assert (Hk : error (PortalConfig.validate pc) = INVALID_PARAMETER).
    { destruct (portal_validate_kind pc) as [H0 | H0]; [| exact H0].
      unfold isSuccess in Hv. apply bool_decide_eq_false in Hv. contradiction. }
    split; [auto |]. split; [discriminate |]. split; [discriminate |].
    split; [| exact Hauth].
    intros Hf. congruence.
Qed.

(** X30: [configWithValidation] checks the heap first and then returns without
    calling [config()]; when [config()] refuses the new configuration, the
    configuration held before the call is put back, whatever [config()] did
    to it, so only an accepted configuration can change [_apConfig]. *)
Theorem configWithValidation_rollback (cfg : Portal.ApConfig) (s : Portal.Station) :
  let out := configWithValidation cfg s in
  (error (fst out) = SUCCESS \/ error (fst out) = INVALID_PARAMETER
   \/ error (fst out) = MEMORY_INSUFFICIENT)
  /\ (error (fst out) = MEMORY_INSUFFICIENT <->
      Core._checkMemoryAvailable 1024 (Portal.device s) = false)
  /\ (error (fst out) = MEMORY_INSUFFICIENT -> snd out = s)
  /\ (error (fst out) = INVALID_PARAMETER ->
      fst (config cfg s) = false
      /\ Portal._apConfig (snd out) = Portal._apConfig s
      /\ Portal.device (snd out) = Portal.device (snd (config cfg s)))
  /\ (error (fst out) = SUCCESS ->
      fst (config cfg s) = true /\ snd out = snd (config cfg s)).
Proof.
  cbv zeta. unfold Portal.configWithValidation.
  destruct (Core._checkMemoryAvailable 1024 (Portal.device s)) eqn:Hm; simpl.
  - destruct (config cfg s) as [ok s1]. destruct ok; simpl.
    + split; [auto |]. split; [split; discriminate |].
      split; [discriminate |]. split; [discriminate | auto].
    + split; [auto |]. split; [split; discriminate |].
      split; [discriminate |]. split; [auto | discriminate].
  - split; [auto |]. split; [split; auto |].
    split; [auto |]. split; discriminate.
Qed.

End PortalProperties.

Lemma feature_flags_witness :
  AdvancedConfig.hasFeature AC_FEATURE_OTA
    (AdvancedConfig.enableFeature AC_FEATURE_OTA home_advanced) = true
  /\ AdvancedConfig.hasFeature AC_FEATURE_JSON
       (AdvancedConfig.disableFeature AC_FEATURE_JSON home_advanced) = false.
Proof.
  destruct (feature_flags AC_FEATURE_OTA home_advanced) as (Hon & _);
    [vm_compute; split; [discriminate | reflexivity]
    | vm_compute; split; [discriminate | reflexivity] |].
  destruct (feature_flags AC_FEATURE_JSON home_advanced) as (_ & Hoff & _);
    [vm_compute; split; [discriminate | reflexivity]
    | vm_compute; split; [discriminate | reflexivity] |].
  split; [apply Hon; discriminate | exact Hoff].
Defined.

Lemma advanced_validate_sound_witness :
  isSuccess (AdvancedConfig.validate home_advanced) = true
  /\ MemoryConfig.maxStringLength (AdvancedConfig.memory home_advanced) <= 16384.
Proof.
  assert (H : isSuccess (AdvancedConfig.validate home_advanced) = true) by reflexivity.
  split; [exact H |].
  destruct (advanced_validate_sound home_advanced H) as (_ & _ & _ & Hlen & _).
  exact Hlen.
Defined.

Lemma estimateMemoryUsage_monotone_witness :
  AdvancedConfig.estimateMemoryUsage 512 home_advanced
  <= AdvancedConfig.estimateMemoryUsage 512
       (AdvancedConfig.enableFeature AC_FEATURE_OTA home_advanced).
Proof.
  destruct (estimateMemoryUsage_monotone 512 AC_FEATURE_OTA home_advanced)
    as (_ & Hup & _); [lia | simpl; lia | simpl; lia |].
  exact Hup.
Defined.
